(** * Eyes: the script store, the script execution engine, the behaviour
    manager and the director.

    A shallow embedding of the JavaScript of the scripted-behaviour system
    (state.js, constants.js and the engine code of the design document) and
    the properties its specification states about it.

    Conventions of the embedding.
    - Numbers that the code keeps in seconds or as probabilities are exact
      rationals ([Q]); [Date.now()] is an integer number of milliseconds ([Z]).
    - A field of a parsed JSON script that is absent, or that holds a value
      of another JSON type than the schema's, is [None].
    - [setTimeout] closures are defunctionalised ([Callback]); the host's
      timer queue, the clock, [Math.random] and the calls into the rendering
      layer are explicit components of [State].
    - An [async] function and the continuation of its [await] are one atomic
      transition; [fetch] reads the script directory held in the state.
    - [console] output is not modelled. *)

From Stdlib Require Import QArith Qminmax Qround Sorted Lqa.
From stdpp Require Import base option list gmap strings.

Local Open Scope Q_scope.

(** ** Numbers *)

(** [x < y] on JavaScript numbers. *)
Definition Qltb (x y : Q) : bool := negb (Qle_bool y x).

(** A JavaScript number is falsy exactly when it is zero. *)
Definition falsyNum (x : Q) : bool := Qeq_bool x 0.

(** ** Data model (constants.js, state.js) *)

Inductive BehaviorType := AUTONOMOUS | TRACKING | SCRIPTED.

Global Instance BehaviorType_eq_dec : EqDecision BehaviorType.
Proof. solve_decision. Defined.

(** Values of a parameter bag other than its [duration]. *)
Inductive PVal := PNum (q : Q) | PStr (s : string) | PBool (b : bool).

(** The [params] object of a timeline entry: the engine reads [duration]
    only, the rest goes to the action handler untouched. *)
Record Params := mkParams {
  p_duration : option Q;
  p_rest : list (string * PVal)
}.

(** The literal [{}]. *)
Definition noParams : Params := mkParams None [].

(** A timeline entry [{time, action, params}]. *)
Record ActionDef := mkActionDef {
  a_time : option Q;
  a_action : option string;
  a_params : option Params
}.

(** An interaction [{targetSet, startTime, scriptId?}]. *)
Record Interaction := mkInteraction {
  i_targetSet : nat;
  i_startTime : Q;
  i_scriptId : option string
}.

(** A script definition as parsed from its JSON document. *)
Record ScriptObject := mkScriptObject {
  so_scriptId : option string;
  so_name : option string;
  so_description : option string;
  so_duration : option Q;
  so_interactions : option (list Interaction);
  so_timeline : option (list ActionDef)
}.

(** Truthiness of an optional string field: absent and the empty string
    are falsy. *)
Definition truthyStr (s : option string) : bool :=
  match s with
  | Some s => negb (String.eqb s EmptyString)
  | None => false
  end.

(** [typeof v === 'number'] for an optional numeric field. *)
Definition isNumber (v : option Q) : bool :=
  match v with Some _ => true | None => false end.

(** ** Script store *)

(** [validateScript(script)]. *)
Definition validateScript (script : ScriptObject) : bool :=
  if negb (truthyStr (so_scriptId script))
     || negb (truthyStr (so_name script))
     || negb (bool_decide (is_Some (so_timeline script)))
  then false
  else
    forallb
      (fun action =>
         negb (negb (isNumber (a_time action)) || negb (truthyStr (a_action action))))
      (default [] (so_timeline script)).

(** The comparator [(a, b) => a.time - b.time]: the sign of the difference
    ([None]: the difference is NaN, which [sort] reads as [+0]). *)
Definition compareTime (a b : ActionDef) : comparison :=
  match a_time a, a_time b with
  | Some x, Some y => x ?= y
  | _, _ => Eq
  end.

(** [Array.prototype.sort(cmp)]: ECMAScript requires a stable sort, and for a
    consistent comparator every stable sort returns the same array; stable
    insertion is its model. [insertSorted x l] puts [x] in front of the first
    element that [x] does not compare greater than. *)
Fixpoint insertSorted {A} (cmp : A -> A -> comparison) (x : A) (l : list A) : list A :=
  match l with
  | [] => [x]
  | y :: l' =>
      match cmp x y with
      | Gt => y :: insertSorted cmp x l'
      | _ => x :: l
      end
  end.

Fixpoint jsSort {A} (cmp : A -> A -> comparison) (l : list A) : list A :=
  match l with
  | [] => []
  | x :: l' => insertSorted cmp x (jsSort cmp l')
  end.

(** [lastAction.params?.duration || 0]. *)
Definition paramsDurationOr0 (a : ActionDef) : Q :=
  match a_params a with
  | Some p =>
      match p_duration p with
      | Some d => if falsyNum d then 0 else d
      | None => 0
      end
  | None => 0
  end.

(** [!scriptObject.duration]. *)
Definition durationMissing (d : option Q) : bool :=
  match d with
  | Some d => falsyNum d
  | None => true
  end.

(** [a.time] read as a number in arithmetic (absent: NaN, taken as [0]; never
    the case for an entry that passed validation). *)
Definition timeOf (a : ActionDef) : Q := default 0 (a_time a).

(** The body of the [try] block of [loadScript] after the document has been
    fetched and parsed: validate, sort the timeline in place, fill in the
    duration. [None] is a [throw] ([Invalid script format], or the TypeError
    of reading [lastAction.time] when the timeline is empty). *)
Definition prepareScript (scriptObject : ScriptObject) : option ScriptObject :=
  if negb (validateScript scriptObject) then None
  else
    let timeline := jsSort compareTime (default [] (so_timeline scriptObject)) in
    if durationMissing (so_duration scriptObject) then
      match last timeline with
      | None => None
      | Some lastAction =>
          Some (mkScriptObject (so_scriptId scriptObject) (so_name scriptObject)
                  (so_description scriptObject)
                  (Some (timeOf lastAction + paramsDurationOr0 lastAction))
                  (so_interactions scriptObject) (Some timeline))
      end
    else
      Some (mkScriptObject (so_scriptId scriptObject) (so_name scriptObject)
              (so_description scriptObject) (so_duration scriptObject)
              (so_interactions scriptObject) (Some timeline)).

(** ** Engine state *)

(** A [setTimeout] closure of the engine, by the code it runs and the
    variables it captured. *)
Inductive Callback :=
  | CbAction (setIndex : nat) (action : option string) (params : Params)
      (* () => executeAction(setIndex, actionDef.action, actionDef.params || {}) *)
  | CbInteraction (instance : nat) (interaction : Interaction) (scriptId : string)
      (* the interaction closure of executeScript *)
  | CbComplete (setIndex : nat)
      (* () => completeScript(setIndex) *)
  | CbEvaluateDirector
      (* evaluateDirector *).

(** A pending timer of the host: its handle, the time it is due (ms) and its
    callback. *)
Record Timer := mkTimer {
  t_handle : nat;
  t_due : Q;
  t_cb : Callback
}.

(** Calls that leave the core: the rendering layer's hooks, the persistence
    hook, an action handler of the registry, a completion callback. *)
Inductive Event :=
  | EvStopEyeSetAnimations (setIndex : nat)
  | EvStartEyeSetAnimations (setIndex : nat)
  | EvStopEyeSetTracking (setIndex : nat)
  | EvStartEyeSetTracking (setIndex : nat)
  | EvSaveState
  | EvHandler (action : string) (setIndex : nat) (params : Params)
  | EvOnComplete (callback : nat).

(** [class ScriptInstance]; instances live in a heap and are referred to by
    their address, as the code shares them by reference. [onComplete] is
    the name of the callback to call. The fields [isInteraction] and
    [originalState], which the engine neither reads nor writes, are left
    out. *)
Record ScriptInstance := mkScriptInstance {
  si_scriptObject : ScriptObject;
  si_setIndex : nat;
  si_startTime : Z;
  si_scheduledActions : list nat;
  si_interactionInstances : list (option nat);
  si_isRunning : bool;
  si_onComplete : option nat
}.

(** The fields of an eye set that the core reads and writes. *)
Record EyeSet := mkEyeSet {
  es_behavior : BehaviorType;
  es_currentScript : option nat;
  es_lastBehaviorChange : Z;
  es_visible : bool
}.

(** [directorState]. *)
Record DirectorState := mkDirectorState {
  d_enabled : bool;
  d_mode : string;
  d_lastScriptTime : Z;
  d_scriptCooldown : Z;
  d_evaluationInterval : Z;
  d_evaluationTimeoutId : option nat;
  d_triggerProbabilities : list (string * Q);
  d_interactionChance : Q
}.

Record State := mkState {
  eyeSets : list (option EyeSet);
  instances : gmap nat ScriptInstance;       (* heap of ScriptInstance objects *)
  nextInstance : nat;
  scriptInstances : gmap nat nat;            (* scriptExecutionState.scriptInstances *)
  loadedScripts : gmap string ScriptObject;  (* scriptExecutionState.loadedScripts *)
  defaultScripts : gmap nat string;          (* scriptExecutionState.defaultScripts *)
  scriptDirectory : gmap string ScriptObject;(* the JSON documents behind fetch *)
  directorState : DirectorState;
  timers : list Timer;                       (* the host's pending timers *)
  nextHandle : nat;
  clock : Z;                                 (* Date.now() *)
  randoms : list Q;                          (* the coming values of Math.random() *)
  trace : list Event
}.

Definition set_eyeSets (f : list (option EyeSet) -> list (option EyeSet)) (st : State) : State :=
  mkState (f (eyeSets st)) (instances st) (nextInstance st) (scriptInstances st)
    (loadedScripts st) (defaultScripts st) (scriptDirectory st) (directorState st)
    (timers st) (nextHandle st) (clock st) (randoms st) (trace st).

Definition set_instances (f : gmap nat ScriptInstance -> gmap nat ScriptInstance) (st : State) : State :=
  mkState (eyeSets st) (f (instances st)) (nextInstance st) (scriptInstances st)
    (loadedScripts st) (defaultScripts st) (scriptDirectory st) (directorState st)
    (timers st) (nextHandle st) (clock st) (randoms st) (trace st).

Definition set_nextInstance (n : nat) (st : State) : State :=
  mkState (eyeSets st) (instances st) n (scriptInstances st)
    (loadedScripts st) (defaultScripts st) (scriptDirectory st) (directorState st)
    (timers st) (nextHandle st) (clock st) (randoms st) (trace st).

Definition set_scriptInstances (f : gmap nat nat -> gmap nat nat) (st : State) : State :=
  mkState (eyeSets st) (instances st) (nextInstance st) (f (scriptInstances st))
    (loadedScripts st) (defaultScripts st) (scriptDirectory st) (directorState st)
    (timers st) (nextHandle st) (clock st) (randoms st) (trace st).

Definition set_loadedScripts (f : gmap string ScriptObject -> gmap string ScriptObject) (st : State) : State :=
  mkState (eyeSets st) (instances st) (nextInstance st) (scriptInstances st)
    (f (loadedScripts st)) (defaultScripts st) (scriptDirectory st) (directorState st)
    (timers st) (nextHandle st) (clock st) (randoms st) (trace st).

Definition set_directorState (f : DirectorState -> DirectorState) (st : State) : State :=
  mkState (eyeSets st) (instances st) (nextInstance st) (scriptInstances st)
    (loadedScripts st) (defaultScripts st) (scriptDirectory st) (f (directorState st))
    (timers st) (nextHandle st) (clock st) (randoms st) (trace st).

Definition set_timers (f : list Timer -> list Timer) (st : State) : State :=
  mkState (eyeSets st) (instances st) (nextInstance st) (scriptInstances st)
    (loadedScripts st) (defaultScripts st) (scriptDirectory st) (directorState st)
    (f (timers st)) (nextHandle st) (clock st) (randoms st) (trace st).

Definition set_nextHandle (n : nat) (st : State) : State :=
  mkState (eyeSets st) (instances st) (nextInstance st) (scriptInstances st)
    (loadedScripts st) (defaultScripts st) (scriptDirectory st) (directorState st)
    (timers st) n (clock st) (randoms st) (trace st).

Definition set_clock (t : Z) (st : State) : State :=
  mkState (eyeSets st) (instances st) (nextInstance st) (scriptInstances st)
    (loadedScripts st) (defaultScripts st) (scriptDirectory st) (directorState st)
    (timers st) (nextHandle st) t (randoms st) (trace st).

Definition set_randoms (r : list Q) (st : State) : State :=
  mkState (eyeSets st) (instances st) (nextInstance st) (scriptInstances st)
    (loadedScripts st) (defaultScripts st) (scriptDirectory st) (directorState st)
    (timers st) (nextHandle st) (clock st) r (trace st).

(** A call that leaves the core is appended to the trace. *)
Definition emit (e : Event) (st : State) : State :=
  mkState (eyeSets st) (instances st) (nextInstance st) (scriptInstances st)
    (loadedScripts st) (defaultScripts st) (scriptDirectory st) (directorState st)
    (timers st) (nextHandle st) (clock st) (randoms st) (trace st ++ [e]).

(** ** The host: timers, clock, random numbers *)

(** [setTimeout(cb, delay)]: a fresh handle; the timer is due [delay] ms from
    now (a negative delay counts as [0]). *)
Definition setTimeout (cb : Callback) (delay : Q) (st : State) : nat * State :=
  let h := nextHandle st in
  (h, set_nextHandle (S h)
        (set_timers (fun q => q ++ [mkTimer h (inject_Z (clock st) + Qmax 0 delay) cb]) st)).

(** [clearTimeout(h)]. *)
Definition clearTimeout (h : nat) (st : State) : State :=
  set_timers (filter (fun t => t_handle t ≠ h)) st.

(** [Math.random()]. *)
Definition mathRandom (st : State) : Q * State :=
  match randoms st with
  | r :: rs => (r, set_randoms rs st)
  | [] => (0, st)
  end.

(** The handles of the pending timers. *)
Definition pending (st : State) : list nat := t_handle <$> timers st.

(** ** Access to eye sets and script instances *)

(** [eyeSets[setIndex]], [None] when that is [undefined]. *)
Definition getEyeSet (st : State) (setIndex : nat) : option EyeSet :=
  mjoin (eyeSets st !! setIndex).

(** A write to fields of the object [eyeSets[setIndex]]. *)
Definition updEyeSet (setIndex : nat) (f : EyeSet -> EyeSet) (st : State) : State :=
  set_eyeSets (alter (fmap f) setIndex) st.

Definition with_behavior (b : BehaviorType) (e : EyeSet) : EyeSet :=
  mkEyeSet b (es_currentScript e) (es_lastBehaviorChange e) (es_visible e).
Definition with_currentScript (c : option nat) (e : EyeSet) : EyeSet :=
  mkEyeSet (es_behavior e) c (es_lastBehaviorChange e) (es_visible e).
Definition with_lastBehaviorChange (t : Z) (e : EyeSet) : EyeSet :=
  mkEyeSet (es_behavior e) (es_currentScript e) t (es_visible e).

(** A write to fields of the instance at address [i]. *)
Definition updInstance (i : nat) (f : ScriptInstance -> ScriptInstance) (st : State) : State :=
  set_instances (alter f i) st.

Definition push_scheduledAction (h : nat) (s : ScriptInstance) : ScriptInstance :=
  mkScriptInstance (si_scriptObject s) (si_setIndex s) (si_startTime s)
    (si_scheduledActions s ++ [h]) (si_interactionInstances s) (si_isRunning s)
    (si_onComplete s).
Definition push_interactionInstance (c : option nat) (s : ScriptInstance) : ScriptInstance :=
  mkScriptInstance (si_scriptObject s) (si_setIndex s) (si_startTime s)
    (si_scheduledActions s) (si_interactionInstances s ++ [c]) (si_isRunning s)
    (si_onComplete s).
Definition stop_instance (s : ScriptInstance) : ScriptInstance :=
  mkScriptInstance (si_scriptObject s) (si_setIndex s) (si_startTime s)
    [] (si_interactionInstances s) false (si_onComplete s).

(** [instance.scheduledActions] and [instance.onComplete] read through the
    reference. *)
Definition scheduledActionsOf (st : State) (i : nat) : list nat :=
  from_option si_scheduledActions [] (instances st !! i).
Definition onCompleteOf (st : State) (i : nat) : option nat :=
  instances st !! i ≫= si_onComplete.

(** ** Collaborators outside the core *)

(** Modelled from the spec: [stopEyeSetAnimations(setIndex)] of the rendering
    layer, which stops the idle-animation timers of the eye set (its blink,
    move and drip timers); the engine's own script timers are not its
    business. The call is recorded in the trace. *)
Definition stopEyeSetAnimations (setIndex : nat) (st : State) : State :=
  emit (EvStopEyeSetAnimations setIndex) st.

(** Modelled from the spec: [startEyeSetAnimations(setIndex)] of the rendering
    layer, which resumes the idle animation of the eye set. *)
Definition startEyeSetAnimations (setIndex : nat) (st : State) : State :=
  emit (EvStartEyeSetAnimations setIndex) st.

(** Modelled from the spec: [stopEyeSetTracking(setIndex)] of the rendering
    layer, which stops the focal-point following loop of the eye set. *)
Definition stopEyeSetTracking (setIndex : nat) (st : State) : State :=
  emit (EvStopEyeSetTracking setIndex) st.

(** Modelled from the spec: [startEyeSetTracking(setIndex)] of the rendering
    layer, which starts the focal-point following loop of the eye set. *)
Definition startEyeSetTracking (setIndex : nat) (st : State) : State :=
  emit (EvStartEyeSetTracking setIndex) st.

(** Modelled from the spec: [debouncedSaveState()], the persistence hook, a
    fire-and-forget signal that durable state changed. *)
Definition debouncedSaveState (st : State) : State := emit EvSaveState st.

(** The keys of [actionRegistry]; calling the handler found under a key is
    recorded in the trace. *)
Definition actionRegistry : list string :=
  ["blink"; "moveIris"; "setScale"; "setGap"; "setPosition"; "playSound";
   "crossEyes"; "uncrossEyes"; "rollEyes"; "widen"; "squint"; "lookAt";
   "dart"; "shake"; "startDripping"; "stopDripping"; "setColor"; "fadeColor"]%string.

(** [actionRegistry[actionName]], as the key under which a handler is found. *)
Definition lookupAction (actionName : option string) : option string :=
  match actionName with
  | Some a => if bool_decide (a ∈ actionRegistry) then Some a else None
  | None => None
  end.

(** ** Script store: [loadScript] *)

(** [async function loadScript(scriptId)]. [None] is the [null] of the
    [catch] block; a failed load leaves the state as it was. *)
Definition loadScript (scriptId : string) (st : State) : option ScriptObject * State :=
  match loadedScripts st !! scriptId with
  | Some cached => (Some cached, st)
  | None =>
      match scriptDirectory st !! scriptId with
      | None => (None, st)                      (* !response.ok: throw *)
      | Some document =>
          match prepareScript document with
          | None => (None, st)                  (* throw inside the try block *)
          | Some scriptObject =>
              (Some scriptObject, set_loadedScripts (insert scriptId scriptObject) st)
          end
      end
  end.

(** ** Script execution engine *)

(** [executeAction(setIndex, actionName, params)]. *)
Definition executeAction (setIndex : nat) (actionName : option string) (params : Params)
    (st : State) : State :=
  match getEyeSet st setIndex with
  | None => st
  | Some eyeSet =>
      if negb (es_visible eyeSet) then st
      else
        match lookupAction actionName with
        | None => st                            (* Unknown action: warn *)
        | Some actionFunction => emit (EvHandler actionFunction setIndex params) st
        end
  end.

(** [const timeoutId = setTimeout(cb, delay);
    instance.scheduledActions.push(timeoutId)], the way [executeScript]
    schedules each of its callbacks. *)
Definition scheduleOn (instance : nat) (cb : Callback) (delay : Q) (st : State) : State :=
  let '(timeoutId, st) := setTimeout cb delay st in
  updInstance instance (push_scheduledAction timeoutId) st.

(** One turn of the loop over [scriptObject.timeline] in [executeScript]. *)
Definition scheduleAction (setIndex instance : nat) (st : State) (actionDef : ActionDef) : State :=
  scheduleOn instance
    (CbAction setIndex (a_action actionDef) (default noParams (a_params actionDef)))
    (timeOf actionDef * 1000) st.

(** One turn of the loop over [scriptObject.interactions] in [executeScript]. *)
Definition scheduleInteraction (instance : nat) (scriptId : string) (st : State)
    (interaction : Interaction) : State :=
  scheduleOn instance (CbInteraction instance interaction scriptId)
    (i_startTime interaction * 1000) st.

(** [executeScript], "Stop current animations" and "Set behavior to
    scripted". *)
Definition enterScripted (setIndex : nat) (st : State) : State :=
  let st := stopEyeSetAnimations setIndex st in
  let st := updEyeSet setIndex (with_behavior SCRIPTED) st in
  updEyeSet setIndex (with_lastBehaviorChange (clock st)) st.

(** [executeScript], "Create script instance": the new instance, running,
    becomes [eyeSet.currentScript] and the entry of [scriptInstances]. *)
Definition createInstance (scriptObject : ScriptObject) (setIndex : nat) (st : State)
    : nat * State :=
  let instance := nextInstance st in
  let st :=
    set_nextInstance (S instance)
      (set_instances
         (insert instance (mkScriptInstance scriptObject setIndex (clock st) [] [] true None))
         st) in
  let st := updEyeSet setIndex (with_currentScript (Some instance)) st in
  (instance, set_scriptInstances (insert setIndex instance) st).

(** [executeScript], "Schedule script completion". *)
Definition scheduleCompletion (setIndex instance : nat) (scriptObject : ScriptObject)
    (st : State) : State :=
  scheduleOn instance (CbComplete setIndex)
    (default 0 (so_duration scriptObject) * 1000) st.

(** [executeScript] from "Stop current animations" on, for the script
    definition that [loadScript] returned. *)
Definition startScript (setIndex : nat) (scriptId : string) (scriptObject : ScriptObject)
    (st : State) : nat * State :=
  let st := enterScripted setIndex st in
  let '(instance, st) := createInstance scriptObject setIndex st in
  (* Schedule all timeline actions *)
  let st := foldl (scheduleAction setIndex instance) st
              (default [] (so_timeline scriptObject)) in
  (* Handle interactions (other eye sets joining) *)
  let st := match so_interactions scriptObject with
            | Some interactions =>
                foldl (scheduleInteraction instance scriptId) st interactions
            | None => st
            end in
  (instance, scheduleCompletion setIndex instance scriptObject st).

(** [async function executeScript(setIndex, scriptId)]; the result is the
    address of the new instance, [None] for [null]. *)
Definition executeScript (setIndex : nat) (scriptId : string) (st : State) : option nat * State :=
  match getEyeSet st setIndex with
  | None => (None, st)
  | Some eyeSet =>
      if negb (es_visible eyeSet) then (None, st)
      else
        (* Load script if not already loaded *)
        match loadScript scriptId st with
        | (None, st) => (None, st)
        | (Some scriptObject, st) =>
            let '(instance, st) := startScript setIndex scriptId scriptObject st in
            (Some instance, st)
        end
  end.

(** [for (const timeoutId of handles) clearTimeout(timeoutId)]. *)
Definition clearTimeouts (handles : list nat) (st : State) : State :=
  foldl (fun st timeoutId => clearTimeout timeoutId st) st handles.

(** [completeScript(setIndex)]. *)
Definition completeScript (setIndex : nat) (st : State) : State :=
  match getEyeSet st setIndex with
  | None => st
  | Some eyeSet =>
      match es_currentScript eyeSet with
      | None => st
      | Some instance =>
          (* Clear all scheduled actions *)
          let st := clearTimeouts (scheduledActionsOf st instance) st in
          let st := updInstance instance stop_instance st in
          (* Execute completion callback if present *)
          let st := match onCompleteOf st instance with
                    | Some callback => emit (EvOnComplete callback) st
                    | None => st
                    end in
          (* Clean up *)
          let st := updEyeSet setIndex (with_currentScript None) st in
          let st := set_scriptInstances (delete setIndex) st in
          (* Return to autonomous behavior *)
          let st := updEyeSet setIndex (with_behavior AUTONOMOUS) st in
          let st := updEyeSet setIndex (with_lastBehaviorChange (clock st)) st in
          startEyeSetAnimations setIndex st
      end
  end.

(** [stopScript(setIndex)]. *)
Definition stopScript (setIndex : nat) (st : State) : State :=
  match getEyeSet st setIndex with
  | None => st
  | Some eyeSet =>
      match es_currentScript eyeSet with
      | None => st
      | Some _ => completeScript setIndex st
      end
  end.

(** ** Behaviour manager *)

(** [setEyeBehavior], "Stop current behavior". *)
Definition stopCurrentBehavior (setIndex : nat) (eyeSet : EyeSet) (st : State) : State :=
  if bool_decide (es_behavior eyeSet = SCRIPTED) && bool_decide (is_Some (es_currentScript eyeSet))
  then stopScript setIndex st
  else if bool_decide (es_behavior eyeSet = TRACKING)
  then stopEyeSetTracking setIndex st
  else stopEyeSetAnimations setIndex st.

(** [setEyeBehavior], "Start new behavior". *)
Definition startNewBehavior (setIndex : nat) (behavior : BehaviorType) (st : State) : State :=
  let st := updEyeSet setIndex (with_behavior behavior) st in
  let st := updEyeSet setIndex (with_lastBehaviorChange (clock st)) st in
  match behavior with
  | AUTONOMOUS => startEyeSetAnimations setIndex st
  | TRACKING => startEyeSetTracking setIndex st
  | SCRIPTED => st                              (* Scripts started via executeScript() *)
  end.

(** [setEyeBehavior(setIndex, behavior)]. *)
Definition setEyeBehavior (setIndex : nat) (behavior : BehaviorType) (st : State) : State :=
  match getEyeSet st setIndex with
  | None => st
  | Some eyeSet =>
      let st := stopCurrentBehavior setIndex eyeSet st in
      let st := startNewBehavior setIndex behavior st in
      debouncedSaveState st
  end.

(** [behaviors.indexOf(b)], [-1] when absent. *)
Fixpoint indexOf (b : BehaviorType) (l : list BehaviorType) : Z :=
  match l with
  | [] => -1
  | x :: l' => if bool_decide (x = b) then 0 else
                 let i := indexOf b l' in if (i <? 0)%Z then -1 else (i + 1)%Z
  end.

(** [cycleBehavior(setIndex)]. *)
Definition cycleBehavior (setIndex : nat) (st : State) : State :=
  match getEyeSet st setIndex with
  | None => st
  | Some eyeSet =>
      let behaviors := [AUTONOMOUS; TRACKING; SCRIPTED] in
      let currentIndex := indexOf (es_behavior eyeSet) behaviors in
      let nextIndex := ((currentIndex + 1) `mod` Z.of_nat (length behaviors))%Z in
      match behaviors !! Z.to_nat nextIndex with
      | Some SCRIPTED =>
          (* Load default script or prompt for selection *)
          let defaultScript := defaultScripts st !! setIndex in
          if truthyStr defaultScript
          then (executeScript setIndex (default EmptyString defaultScript) st).2
          else (* Cycle to next behavior instead *)
            setEyeBehavior setIndex AUTONOMOUS st
      | Some nextBehavior => setEyeBehavior setIndex nextBehavior st
      | None => st
      end
  end.

(** ** Director *)

(** An entry of [directorConfig.modes]. *)
Record ModeConfig := mkModeConfig {
  m_evaluationInterval : Z;
  m_scriptCooldown : Z;
  m_triggerProbabilities : list (string * Q)
}.

Module directorConfig.
Definition defaultMode : string := "active".

Definition modes : list (string * ModeConfig) :=
  [ ("passive"%string,
     mkModeConfig 12000 10000
       [("autonomous"%string, 8 # 10); ("tracking"%string, 1 # 10); ("scripted"%string, 1 # 10)]);
    ("active"%string,
     mkModeConfig 8000 5000
       [("autonomous"%string, 5 # 10); ("tracking"%string, 2 # 10); ("scripted"%string, 3 # 10)]);
    ("chaotic"%string,
     mkModeConfig 4000 2000
       [("autonomous"%string, 2 # 10); ("tracking"%string, 3 # 10); ("scripted"%string, 5 # 10)]) ].

Definition scriptWeights : list (string * Q) :=
  [ ("surprise"%string, 1); ("cross_eyes"%string, 8 # 10); ("roll_eyes"%string, 9 # 10);
    ("sleepy"%string, 6 # 10); ("angry"%string, 7 # 10); ("curious"%string, 9 # 10);
    ("scared"%string, 7 # 10); ("confused"%string, 8 # 10); ("shifty"%string, 15 # 10);
    ("sync_blink"%string, 12 # 10); ("wave"%string, 1); ("conversation"%string, 15 # 10);
    ("dance"%string, 12 # 10) ].

(** [conditions.multipleEyesVisible.scriptPreferences] *)
Definition multipleEyesVisible : list string :=
  ["conversation"; "sync_blink"; "wave"; "dance"]%string.

(** [conditions.singleEyeVisible.scriptPreferences] *)
Definition singleEyeVisible : list string :=
  ["surprise"; "roll_eyes"; "sleepy"; "angry"; "curious"; "scared"; "shifty"]%string.
End directorConfig.

(** [obj[key]] for an object given by its entries in insertion order. *)
Fixpoint lookupKey {A} (key : string) (entries : list (string * A)) : option A :=
  match entries with
  | [] => None
  | (k, v) :: rest => if String.eqb k key then Some v else lookupKey key rest
  end.

(** The loop of [weightedRandomChoice] from an accumulated mass [cumulative]:
    the first choice at which the mass exceeds [rand], [None] when the loop
    runs off the end of the entries. *)
Fixpoint walkChoices (rand cumulative : Q) (entries : list (string * Q)) : option string :=
  match entries with
  | [] => None
  | (choice, probability) :: rest =>
      let cumulative := cumulative + probability in
      if Qltb rand cumulative then Some choice
      else walkChoices rand cumulative rest
  end.

(** [weightedRandomChoice(weights)] for the value [rand] that [Math.random()]
    returned; [weights] is the object by its entries in insertion order, and
    [None] is [undefined] (the first key of an empty object). *)
Definition weightedRandomChoiceAt (rand : Q) (weights : list (string * Q)) : option string :=
  match walkChoices rand 0 weights with
  | Some choice => Some choice
  | None => head (fst <$> weights)              (* Fallback *)
  end.

(** [weightedRandomChoice(weights)]. *)
Definition weightedRandomChoice (weights : list (string * Q)) (st : State) : option string * State :=
  let '(rand, st) := mathRandom st in
  (weightedRandomChoiceAt rand weights, st).

(** [directorConfig.scriptWeights[id] || 1.0]. *)
Definition scriptWeightOr1 (id : string) : Q :=
  match lookupKey id directorConfig.scriptWeights with
  | Some w => if falsyNum w then 1 else w
  | None => 1
  end.

(** The selection loop of [weightedRandomScriptChoice]. *)
Fixpoint walkScripts (rand : Q) (available : list string) : option string :=
  match available with
  | [] => None
  | scriptId :: rest =>
      let rand := rand - scriptWeightOr1 scriptId in
      if Qle_bool rand 0 then Some scriptId else walkScripts rand rest
  end.

(** [weightedRandomScriptChoice(scriptIds)]. *)
Definition weightedRandomScriptChoice (scriptIds : list string) (st : State) : option string * State :=
  (* Filter to loaded scripts with weights *)
  let available :=
    filter (fun id => is_Some (loadedScripts st !! id)
                      ∧ is_Some (lookupKey id directorConfig.scriptWeights)) scriptIds in
  match available with
  | [] => (None, st)
  | first :: _ =>
      (* Calculate total weight *)
      let totalWeight := foldl (fun sum id => sum + scriptWeightOr1 id) 0 available in
      (* Weighted random selection *)
      let '(r, st) := mathRandom st in
      match walkScripts (r * totalWeight) available with
      | Some scriptId => (Some scriptId, st)
      | None => (Some first, st)                (* Fallback *)
      end
  end.

(** [triggerDirectorScript(setIndex, visibleSets)]; the second component of
    the result tells whether a script identifier was selected and
    [executeScript] called. *)
Definition triggerDirectorScript (setIndex : nat) (visibleSets : list nat) (st : State)
    : State * bool :=
  (* Determine if this should be an interaction *)
  let '(shouldInteract, st) :=
    if bool_decide (1 < length visibleSets)%nat
    then let '(r, st) := mathRandom st in
         (Qltb r (d_interactionChance (directorState st)), st)
    else (false, st) in
  let '(scriptId, st) :=
    if shouldInteract
    then weightedRandomScriptChoice directorConfig.multipleEyesVisible st
    else weightedRandomScriptChoice directorConfig.singleEyeVisible st in
  match scriptId with
  | Some scriptId =>
      if negb (String.eqb scriptId EmptyString)
      then ((executeScript setIndex scriptId st).2, true)
      else (st, false)
  | None => (st, false)
  end.

Definition with_evaluationTimeoutId (h : option nat) (d : DirectorState) : DirectorState :=
  mkDirectorState (d_enabled d) (d_mode d) (d_lastScriptTime d) (d_scriptCooldown d)
    (d_evaluationInterval d) h (d_triggerProbabilities d) (d_interactionChance d).
Definition with_lastScriptTime (t : Z) (d : DirectorState) : DirectorState :=
  mkDirectorState (d_enabled d) (d_mode d) t (d_scriptCooldown d)
    (d_evaluationInterval d) (d_evaluationTimeoutId d) (d_triggerProbabilities d)
    (d_interactionChance d).
Definition with_enabled (b : bool) (d : DirectorState) : DirectorState :=
  mkDirectorState b (d_mode d) (d_lastScriptTime d) (d_scriptCooldown d)
    (d_evaluationInterval d) (d_evaluationTimeoutId d) (d_triggerProbabilities d)
    (d_interactionChance d).
Definition with_mode (mode : string) (d : DirectorState) : DirectorState :=
  mkDirectorState (d_enabled d) mode (d_lastScriptTime d) (d_scriptCooldown d)
    (d_evaluationInterval d) (d_evaluationTimeoutId d) (d_triggerProbabilities d)
    (d_interactionChance d).
Definition with_modeConfig (c : ModeConfig) (d : DirectorState) : DirectorState :=
  mkDirectorState (d_enabled d) (d_mode d) (d_lastScriptTime d) (m_scriptCooldown c)
    (m_evaluationInterval c) (d_evaluationTimeoutId d) (m_triggerProbabilities c)
    (d_interactionChance d).

(** [scheduleDirectorEvaluation()]. *)
Definition scheduleDirectorEvaluation (st : State) : State :=
  if negb (d_enabled (directorState st)) then st
  else
    (* Add some randomness to evaluation timing *)
    let '(r, st) := mathRandom st in
    let jitter := r * 2000 - 1000 in
    let delay := inject_Z (d_evaluationInterval (directorState st)) + jitter in
    let '(h, st) := setTimeout CbEvaluateDirector delay st in
    set_directorState (with_evaluationTimeoutId (Some h)) st.

(** The indices of the visible eye sets, in index order. *)
Definition visibleSetsOf (st : State) : list nat :=
  filter (fun idx => from_option es_visible false (getEyeSet st idx) = true)
    (seq 0 (length (eyeSets st))).

(** One turn of the loop over [visibleSets] in [evaluateDirector]; [set] of
    the source is the object [eyeSets[idx]], read as it is at this turn. *)
Definition evaluateSet (now : Z) (visibleSets : list nat) (st : State) (idx : nat) : State :=
  match getEyeSet st idx with
  | None => st
  | Some set =>
      (* Skip if already running a script or recently changed behavior *)
      if bool_decide (is_Some (es_currentScript set))
         || (now - es_lastBehaviorChange set <? 3000)%Z
      then st
      else
        (* Decide action based on probabilities *)
        let '(action, st) :=
          weightedRandomChoice (d_triggerProbabilities (directorState st)) st in
        if bool_decide (action = Some "autonomous"%string) then
          if bool_decide (es_behavior set ≠ AUTONOMOUS)
          then setEyeBehavior idx AUTONOMOUS st else st
        else if bool_decide (action = Some "tracking"%string) then
          if bool_decide (es_behavior set ≠ TRACKING)
          then setEyeBehavior idx TRACKING st else st
        else if bool_decide (action = Some "scripted"%string) then
          let st := (triggerDirectorScript idx visibleSets st).1 in
          set_directorState (with_lastScriptTime now) st
        else st
  end.

(** [evaluateDirector()]. *)
Definition evaluateDirector (st : State) : State :=
  if negb (d_enabled (directorState st)) then st
  else
    let now := clock st in
    (* Get all visible eye sets *)
    let visibleSets := visibleSetsOf st in
    if bool_decide (length visibleSets = 0%nat) then scheduleDirectorEvaluation st
    else
      (* Check cooldown *)
      if (now - d_lastScriptTime (directorState st) <? d_scriptCooldown (directorState st))%Z
      then scheduleDirectorEvaluation st
      else
        (* Evaluate each visible eye set *)
        let st := foldl (evaluateSet now visibleSets) st visibleSets in
        scheduleDirectorEvaluation st.

(** [startDirector(mode)]. *)
Definition startDirector (mode : string) (st : State) : State :=
  if d_enabled (directorState st) then st
  else
    let st := set_directorState (with_enabled true) st in
    let st := set_directorState (with_mode mode) st in
    (* Apply mode configuration *)
    let st :=
      match lookupKey mode directorConfig.modes with
      | Some modeConfig => set_directorState (with_modeConfig modeConfig) st
      | None => st
      end in
    scheduleDirectorEvaluation st.

(** [stopDirector()]. *)
Definition stopDirector (st : State) : State :=
  if negb (d_enabled (directorState st)) then st
  else
    let st := set_directorState (with_enabled false) st in
    match d_evaluationTimeoutId (directorState st) with
    | Some h => set_directorState (with_evaluationTimeoutId None) (clearTimeout h st)
    | None => st
    end.

(** [setDirectorMode(mode)]. *)
Definition setDirectorMode (mode : string) (st : State) : State :=
  match lookupKey mode directorConfig.modes with
  | None => st                                  (* Unknown director mode *)
  | Some _ =>
      let wasEnabled := d_enabled (directorState st) in
      let st := if wasEnabled then stopDirector st else st in
      let st := set_directorState (with_mode mode) st in
      if wasEnabled then startDirector mode st else st
  end.

(** ** The host's event loop *)

(** The code a timer runs when it fires. In the interaction closure the call
    of the [async] function [executeScript] yields a promise, which is always
    truthy: what it resolves to (an instance or [null]) is pushed
    unconditionally. *)
Definition runCallback (cb : Callback) (st : State) : State :=
  match cb with
  | CbAction setIndex action params => executeAction setIndex action params st
  | CbInteraction instance interaction scriptId =>
      let targetScript :=
        if truthyStr (i_scriptId interaction)
        then default EmptyString (i_scriptId interaction) else scriptId in
      let '(interactionInstance, st) :=
        executeScript (i_targetSet interaction) targetScript st in
      updInstance instance (push_interactionInstance interactionInstance) st
  | CbComplete setIndex => completeScript setIndex st
  | CbEvaluateDirector => evaluateDirector st
  end.

(** The pending timer with handle [h]. *)
Definition timerOf (st : State) (h : nat) : option Timer :=
  head (filter (fun t => t_handle t = h) (timers st)).

(** The timer with handle [h] fires: it leaves the queue, the clock is at
    least its due time, its callback runs. A handle that is not pending
    fires nothing. *)
Definition fireTimer (h : nat) (st : State) : State :=
  match timerOf st h with
  | None => st
  | Some t =>
      let st := clearTimeout h st in
      let st := set_clock (Z.max (clock st) (Qceiling (t_due t))) st in
      runCallback (t_cb t) st
  end.

(** The pending timer that is due first (the earlier handle on a tie). *)
Fixpoint earliest (q : list Timer) : option Timer :=
  match q with
  | [] => None
  | t :: q' =>
      match earliest q' with
      | Some t' => if Qltb (t_due t') (t_due t) then Some t' else Some t
      | None => Some t
      end
  end.

(** The event loop runs the next timer. *)
Definition fireNext (st : State) : State :=
  match earliest (timers st) with
  | Some t => fireTimer (t_handle t) st
  | None => st
  end.

Definition with_visible (v : bool) (e : EyeSet) : EyeSet :=
  mkEyeSet (es_behavior e) (es_currentScript e) (es_lastBehaviorChange e) v.

(** What can happen next: a call of the core's interface (from the keyboard
    handlers or the panels), a timer firing, time passing, the rendering
    layer showing or hiding an eye set, the random source moving on. *)
Inductive step : State -> State -> Prop :=
  | step_loadScript scriptId st :
      step st (loadScript scriptId st).2
  | step_executeScript setIndex scriptId st :
      step st (executeScript setIndex scriptId st).2
  | step_stopScript setIndex st :
      step st (stopScript setIndex st)
  | step_setEyeBehavior setIndex b st :
      step st (setEyeBehavior setIndex b st)
  | step_cycleBehavior setIndex st :
      step st (cycleBehavior setIndex st)
  | step_startDirector mode st :
      step st (startDirector mode st)
  | step_stopDirector st :
      step st (stopDirector st)
  | step_setDirectorMode mode st :
      step st (setDirectorMode mode st)
  | step_fire h st :
      h ∈ pending st -> step st (fireTimer h st)
  | step_clock t st :
      (clock st <= t)%Z -> step st (set_clock t st)
  | step_visible setIndex v st :
      step st (updEyeSet setIndex (with_visible v) st)
  | step_randoms r st :
      step st (set_randoms r st).

(** The states the system can be in later. *)
Definition later : State -> State -> Prop := rtc step.

(** ** A start state for examples *)

Definition directorState0 : DirectorState :=
  mkDirectorState false "active" 0 5000 8000 None
    [("autonomous"%string, 5 # 10); ("tracking"%string, 2 # 10); ("scripted"%string, 3 # 10)]
    (3 # 10).

(** [createEyeSet(setIndex)] with the given visibility. *)
Definition createEyeSet (visible : bool) : EyeSet := mkEyeSet AUTONOMOUS None 0 visible.

(** A page with the given eye sets and script directory, nothing loaded,
    nothing scheduled, the clock at [now]. *)
Definition startState (sets : list (option EyeSet)) (dir : gmap string ScriptObject)
    (now : Z) (rs : list Q) : State :=
  mkState sets ∅ 0 ∅ ∅ ∅ dir directorState0 [] 1 now rs [].

(** ** What a successful [executeScript] schedules *)

(** The timers that consecutive [setTimeout(cb, delay)] calls for [jobs]
    create when the first handle issued is [h] and the clock is at [now]. *)
Fixpoint scheduledTimers (h : nat) (now : Z) (jobs : list (Callback * Q)) : list Timer :=
  match jobs with
  | [] => []
  | (cb, delay) :: jobs => mkTimer h (inject_Z now + Qmax 0 delay) cb :: scheduledTimers (S h) now jobs
  end.

(** The callback and delay of a timeline entry, of an interaction, and of the
    completion of a script, as [executeScript] passes them to [setTimeout]. *)
Definition actionJob (setIndex : nat) (actionDef : ActionDef) : Callback * Q :=
  (CbAction setIndex (a_action actionDef) (default noParams (a_params actionDef)),
   timeOf actionDef * 1000).
Definition interactionJob (instance : nat) (scriptId : string) (interaction : Interaction)
    : Callback * Q :=
  (CbInteraction instance interaction scriptId, i_startTime interaction * 1000).
Definition completionJob (setIndex : nat) (scriptObject : ScriptObject) : Callback * Q :=
  (CbComplete setIndex, default 0 (so_duration scriptObject) * 1000).

(** All of them for one script, in the order [executeScript] schedules them. *)
Definition scriptJobs (setIndex instance : nat) (scriptId : string) (scriptObject : ScriptObject)
    : list (Callback * Q) :=
  (actionJob setIndex <$> default [] (so_timeline scriptObject))
  ++ (interactionJob instance scriptId <$> default [] (so_interactions scriptObject))
  ++ [completionJob setIndex scriptObject].

(** Every pending timer has a handle that [setTimeout] has issued. *)
Definition pendingIssued (st : State) : Prop :=
  forall h, h ∈ pending st -> (h < nextHandle st)%nat.

(** The calls into the rendering layer with which [setEyeBehavior] starts
    the new behavior. *)
Definition startEvents (setIndex : nat) (behavior : BehaviorType) : list Event :=
  match behavior with
  | AUTONOMOUS => [EvStartEyeSetAnimations setIndex]
  | TRACKING => [EvStartEyeSetTracking setIndex]
  | SCRIPTED => []
  end.

(** The events of a completion callback that is called if set. *)
Definition onCompleteEvents (callback : option nat) : list Event :=
  match callback with
  | Some callback => [EvOnComplete callback]
  | None => []
  end.

(** ** More of the script store *)

(** The list of scripts that [preloadAllScripts] loads. *)
Definition preloadList : list string :=
  ["surprise"; "cross_eyes"; "roll_eyes"; "sleepy"; "angry"; "curious"; "scared";
   "confused"; "sync_blink"; "wave"; "conversation"; "dance"]%string.

(** [async function preloadAllScripts()]: [loadScript] for every script of
    the list; [Promise.allSettled] waits for all of them and ignores what
    they resolve to. *)
Definition preloadAllScripts (st : State) : State :=
  foldl (fun st id => (loadScript id st).2) st preloadList.

(** ** Isolation *)

(** From [st] to [st'] no eye set but [setIndex] was written, and the
    director's state was not written. *)
Definition touchesOnly (setIndex : nat) (st st' : State) : Prop :=
  (forall j, j <> setIndex -> getEyeSet st' j = getEyeSet st j) /\
  directorState st' = directorState st.

(** ** The director's choice of a script *)

(** The scripts of [scriptIds] that [weightedRandomScriptChoice] can choose
    from: those loaded and with a configured weight, in the order of the
    list. *)
Definition availableScripts (scriptIds : list string) (st : State) : list string :=
  filter (fun id => is_Some (loadedScripts st !! id)
                    ∧ is_Some (lookupKey id directorConfig.scriptWeights)) scriptIds.

(** The weight accumulated over [l], from [sum]. *)
Definition weightFrom (sum : Q) (l : list string) : Q :=
  foldl (fun sum id => sum + scriptWeightOr1 id) sum l.

(** ** Keyboard controls of the director *)

(** [modes.indexOf(mode)], [-1] when absent. *)
Fixpoint indexOfMode (mode : string) (l : list string) : Z :=
  match l with
  | [] => -1
  | x :: l' => if String.eqb x mode then 0 else
                 let i := indexOfMode mode l' in if (i <? 0)%Z then -1 else (i + 1)%Z
  end.

(** M key - cycle director mode (passive -> active -> chaotic). An index
    outside [modes] reads [undefined], which [setDirectorMode] refuses. *)
Definition keyM (st : State) : State :=
  if d_enabled (directorState st) then
    let modes := ["passive"; "active"; "chaotic"]%string in
    let currentIndex := indexOfMode (d_mode (directorState st)) modes in
    match modes !! Z.to_nat ((currentIndex + 1) `mod` Z.of_nat (length modes))%Z with
    | Some nextMode => setDirectorMode nextMode st
    | None => st
    end
  else st.                                      (* Director is not enabled *)

(** The mode after [mode] in the order of the M key. *)
Definition nextModeOf (mode : string) : string :=
  if String.eqb mode "passive" then "active"
  else if String.eqb mode "active" then "chaotic"
  else "passive".

(** ** Notions used in the statements *)

(** Entries with a numeric time. *)
Definition numericTime (a : ActionDef) : Prop := is_Some (a_time a).

(** [a] is not later than [b]. *)
Definition leTime (a b : ActionDef) : Prop := timeOf a <= timeOf b.

(** The entries of [l] at time [t], in the order they have in [l]. *)
Definition entriesAt (t : Q) (l : list ActionDef) : list ActionDef :=
  filter (fun a => Qeq_bool (timeOf a) t = true) l.

(** Every cached definition is what [loadScript] makes of the document of
    that name in the script directory. *)
Definition cacheFromDirectory (st : State) : Prop :=
  forall id so, loadedScripts st !! id = Some so ->
    exists doc, scriptDirectory st !! id = Some doc /\ prepareScript doc = Some so.

(** From [st] to [st'] the script directory is the same and the cache gained
    only definitions prepared from it. *)
Definition cacheGrows (st st' : State) : Prop :=
  scriptDirectory st' = scriptDirectory st /\
  forall id so, loadedScripts st' !! id = Some so ->
    loadedScripts st !! id = Some so \/
    exists doc, scriptDirectory st !! id = Some doc /\ prepareScript doc = Some so.

(** From [st] to [st'] no handle was reused: a timer pending in [st'] was
    pending in [st] or has a handle that [st] had not issued yet. *)
Definition onlyFreshTimers (st st' : State) : Prop :=
  (nextHandle st <= nextHandle st')%nat /\
  forall h, h ∈ pending st' -> h ∈ pending st \/ (nextHandle st <= h)%nat.

(** The validation rules as the specification words them: a [scriptId], a
    [name], and a non-empty timeline whose entries each have a numeric
    [time >= 0] and a non-empty [action] string. *)
Definition specValid (doc : ScriptObject) : bool :=
  bool_decide (is_Some (so_scriptId doc))
  && bool_decide (is_Some (so_name doc))
  && match so_timeline doc with
     | Some (a :: l) =>
         forallb (fun a => match a_time a with
                           | Some t => Qle_bool 0 t
                           | None => false
                           end && truthyStr (a_action a)) (a :: l)
     | _ => false
     end.



(** The two ways a running script ends: [stopScript(setIndex)] is called
    ([None]), or the timer with handle [h] fires ([Some h]), which for the
    script's completion timer runs [completeScript(setIndex)]. *)
Definition scriptEnds (setIndex : nat) (fired : option nat) (st : State) : State :=
  match fired with
  | None => stopScript setIndex st
  | Some h => fireTimer h st
  end.

(** From [st] to [st'] no timer was cleared: the queue of [st'] is the queue
    of [st] and new timers behind it. *)
Definition timersKept (st st' : State) : Prop :=
  exists new, timers st' = timers st ++ new.

(** Every handle that a script instance holds was issued by [setTimeout]. *)
Definition handlesIssued (st : State) : Prop :=
  forall i s h, instances st !! i = Some s -> h ∈ si_scheduledActions s ->
    (h < nextHandle st)%nat.

(** ** The director's chain of evaluations *)

Definition isEvaluation (cb : Callback) : bool :=
  match cb with CbEvaluateDirector => true | _ => false end.

(** The handles of the pending timers that run [evaluateDirector]. *)
Definition evaluationTimers (st : State) : list nat :=
  t_handle <$> filter (fun t => isEvaluation (t_cb t) = true) (timers st).

(** The timer queue and the handles kept by script instances are in order:
    no two pending timers share a handle, pending handles and handles kept
    by instances have been issued, and no instance keeps the handle of a
    pending evaluation of the director. *)
Definition timersSound (st : State) : Prop :=
  NoDup (pending st) /\ pendingIssued st /\ handlesIssued st /\
  forall i s h, instances st !! i = Some s -> h ∈ si_scheduledActions s ->
    h ∉ evaluationTimers st.

(** An enabled director has exactly one evaluation pending, the one whose
    handle it recorded; a disabled director has none. *)
Definition directorChain (st : State) : Prop :=
  if d_enabled (directorState st)
  then exists h, d_evaluationTimeoutId (directorState st) = Some h /\
                 evaluationTimers st = [h]
  else evaluationTimers st = [].

(** From [st] to [st'] the queue stayed in order and the pending evaluations
    are the same. *)
Definition engineStep (st st' : State) : Prop :=
  timersSound st -> timersSound st' /\ evaluationTimers st' = evaluationTimers st.

(** The invariant of the director's chain. *)
Definition directorInv (st : State) : Prop := timersSound st /\ directorChain st.

(** ** Test mode (ui/test-mode.js) *)

(** What [enterTestMode] stores of an eye set. *)
Record OriginalSet := mkOriginalSet {
  o_behavior : BehaviorType;
  o_hasScript : bool;
  o_scriptName : option string
}.

(** The fields of [TestMode] that [enterTestMode] and [exitTestMode] use:
    [isActive], [originalState.directorEnabled] and
    [originalState.eyeSetStates], an array with a hole where there is no eye
    set. The notifications are left out. *)
Record TestMode := mkTestMode {
  tm_isActive : bool;
  tm_directorEnabled : bool;
  tm_eyeSetStates : list (option OriginalSet)
}.

(** One turn of the loop of [enterTestMode]; [eyeSet.behavior] is read from
    the object again after [stopScript] has written it. *)
Definition pauseEyeSet (acc : State * list (option OriginalSet)) (i : nat)
    : State * list (option OriginalSet) :=
  let '(st, eyeSetStates) := acc in
  match getEyeSet st i with
  | None => (st, eyeSetStates ++ [None])
  | Some eyeSet =>
      (* Store original state *)
      let originalState :=
        mkOriginalSet (es_behavior eyeSet)
          (bool_decide (is_Some (es_currentScript eyeSet)))
          (es_currentScript eyeSet ≫= fun instance =>
             instances st !! instance ≫= fun s => so_name (si_scriptObject s)) in
      (* Stop any running scripts *)
      let st := if bool_decide (is_Some (es_currentScript eyeSet))
                then stopScript i st else st in
      (* Stop all behaviors *)
      let st := stopEyeSetAnimations i st in
      let st := if bool_decide (es_behavior <$> getEyeSet st i = Some TRACKING)
                then stopEyeSetTracking i st else st in
      (* Set to autonomous but don't start animations (eyes will sit still) *)
      let st := updEyeSet i (with_behavior AUTONOMOUS) st in
      (st, eyeSetStates ++ [Some originalState])
  end.

(** [enterTestMode()]. *)
Definition enterTestMode (tm : TestMode) (st : State) : TestMode * State :=
  if tm_isActive tm then (tm, st)
  else
    (* Store original director state *)
    let directorEnabled := d_enabled (directorState st) in
    (* Disable director *)
    let st := if d_enabled (directorState st) then stopDirector st else st in
    (* Store and clean up all eyesets *)
    let '(st, eyeSetStates) :=
      foldl pauseEyeSet (st, []) (seq 0 (length (eyeSets st))) in
    (mkTestMode true directorEnabled eyeSetStates, st).

(** One turn of the loop of [exitTestMode]. *)
Definition restoreEyeSet (st : State) (entry : nat * option OriginalSet) : State :=
  let '(i, originalState) := entry in
  match originalState with
  | None => st
  | Some originalState =>
      match getEyeSet st i with
      | None => st
      | Some eyeSet =>
          (* Restore behavior (this will start animations/tracking as appropriate) *)
          if bool_decide (o_behavior originalState ≠ SCRIPTED)
          then setEyeBehavior i (o_behavior originalState) st
          else st                               (* Scripts were stopped, so we don't restore them *)
      end
  end.

(** [exitTestMode()]. *)
Definition exitTestMode (tm : TestMode) (st : State) : TestMode * State :=
  if negb (tm_isActive tm) then (tm, st)
  else
    (* Restore original director state *)
    let st := if tm_directorEnabled tm
              then startDirector (d_mode (directorState st)) st else st in
    (* Restore original eyeset behaviors *)
    let st := foldl restoreEyeSet st
                (zip (seq 0 (length (tm_eyeSetStates tm))) (tm_eyeSetStates tm)) in
    (* Clear stored state *)
    (mkTestMode false false [], st).

(** The behavior an eye set comes back with from test mode. *)
Definition restoredBehavior (b : BehaviorType) : BehaviorType :=
  match b with SCRIPTED => AUTONOMOUS | _ => b end.

(** An eye set as test mode leaves it on entry: where there was one, it is
    autonomous, runs no script, and is as visible as before. *)
Definition pausedFrom (before after : option EyeSet) : Prop :=
  match before with
  | None => after = None
  | Some eyeSet =>
      exists eyeSet', after = Some eyeSet' /\
        es_behavior eyeSet' = AUTONOMOUS /\ es_currentScript eyeSet' = None /\
        es_visible eyeSet' = es_visible eyeSet
  end.

(** The entry of [eyeSetStates] for an eye set. *)
Definition storedFor (before : option EyeSet) (stored : option (option OriginalSet)) : Prop :=
  match before with
  | None => stored = Some None
  | Some eyeSet =>
      exists originalState, stored = Some (Some originalState) /\
        o_behavior originalState = es_behavior eyeSet
  end.

(** The behavior [exitTestMode] leaves an eye set with that has behavior
    [b] on exit, for its entry of [eyeSetStates]. *)
Definition restoreOf (originalState : option OriginalSet) (b : BehaviorType) : BehaviorType :=
  match originalState with
  | Some originalState =>
      if bool_decide (o_behavior originalState ≠ SCRIPTED)
      then o_behavior originalState else b
  | None => b
  end.

(** ** Notification presets (ui/toast.js) *)

(** [ToastManager.settings]; [saveSettings] writes them to local storage and
    is left out. *)
Record ToastSettings := mkToastSettings {
  showBehaviorChanges : bool;
  showModeChanges : bool;
  showScriptExecution : bool
}.

(** [getNotificationPreset()]. *)
Definition getNotificationPreset (settings : ToastSettings) : nat :=
  let '(mkToastSettings showBehaviorChanges showModeChanges showScriptExecution) := settings in
  (if negb showModeChanges && negb showBehaviorChanges && negb showScriptExecution then 0
   else if showModeChanges && negb showBehaviorChanges && negb showScriptExecution then 1
   else if showModeChanges && showBehaviorChanges && negb showScriptExecution then 2
   else if showModeChanges && showBehaviorChanges && showScriptExecution then 3
   else
     (* Custom state, return closest match *)
     if showModeChanges && showBehaviorChanges then 2
     else if showModeChanges then 1
     else 0)%nat.

(** [cycleNotificationPreset()]: the preset number it returns and the
    settings it leaves. *)
Definition cycleNotificationPreset (settings : ToastSettings) : nat * ToastSettings :=
  let current := getNotificationPreset settings in
  match current with
  | 0%nat => (1%nat, mkToastSettings false true false)   (* All off -> Mode only *)
  | 1%nat => (2%nat, mkToastSettings true true false)    (* Mode only -> Mode + behavior *)
  | 2%nat => (3%nat, mkToastSettings true true true)     (* Mode + behavior -> All on *)
  | 3%nat => (0%nat, mkToastSettings false false false)  (* All on -> All off *)
  | _ => (0%nat, mkToastSettings false false false)      (* Unknown state, reset to all off *)
  end.

(** ** What the scale, gap and volume actions write *)

Definition minScale : Q := 5 # 100.
Definition maxScale : Q := 10.
Definition minGap : Q := -50.
Definition maxGap : Q := 200.

(** [actionSetScale]: the value written to [eyeSet.scale] for a numeric
    [scale] parameter. *)
Definition actionSetScale (scale : Q) : Q := Qmax minScale (Qmin scale maxScale).

(** [actionSetGap]: the value written to [eyeSet.gap] for a numeric [gap]
    parameter. *)
Definition actionSetGap (gap : Q) : Q := Qmax minGap (Qmin gap maxGap).

(** [actionPlaySound]: the value written to [audio.volume]; the parameter
    defaults to 1. *)
Definition actionPlaySound (volume : option Q) : Q :=
  Qmax 0 (Qmin (default 1 volume) 1).

(** [actionWiden] and [actionSquint]: the scale they have [actionSetScale]
    write; [intensity] defaults to 0.5. *)
Definition actionWiden (intensity : option Q) : Q :=
  let scaleIncrease := 1 + default (5 # 10) intensity * (5 # 10) in  (* Up to 1.5x scale *)
  actionSetScale scaleIncrease.
Definition actionSquint (intensity : option Q) : Q :=
  let scaleDecrease := 1 - default (5 # 10) intensity * (3 # 10) in  (* Down to 0.7x scale *)
  actionSetScale scaleDecrease.

(** ** Inputs for the examples *)

Module Ex.
Definition entry (t : Q) (action : string) : ActionDef :=
  mkActionDef (Some t) (Some action) None.

(** A script whose timeline is out of order and has two entries at the
    same time; no duration is given. *)
Definition unordered : ScriptObject :=
  mkScriptObject (Some "unordered"%string) (Some "Unordered"%string) None None None
    (Some [ entry 2 "widen";
            mkActionDef (Some (5 # 2)) (Some "setScale"%string)
              (Some (mkParams (Some (1 # 2)) [("scale"%string, PNum 1)]));
            entry 0 "blink";
            entry 2 "squint" ]).

(** What [loadScript] makes of it. *)
Definition ordered : ScriptObject :=
  mkScriptObject (Some "unordered"%string) (Some "Unordered"%string) None (Some ((5 # 2) + (1 # 2))) None
    (Some [ entry 0 "blink";
            entry 2 "widen";
            entry 2 "squint";
            mkActionDef (Some (5 # 2)) (Some "setScale"%string)
              (Some (mkParams (Some (1 # 2)) [("scale"%string, PNum 1)])) ]).

(** A script with an entry at a negative time. *)
Definition negative : ScriptObject :=
  mkScriptObject (Some "negative"%string) (Some "Negative"%string) None (Some 1) None
    (Some [ entry (-1) "blink" ]).

(** A script with an empty timeline and a duration. *)
Definition empty : ScriptObject :=
  mkScriptObject (Some "empty"%string) (Some "Empty"%string) None (Some (7 # 2)) None
    (Some []).

(** A script without a name. *)
Definition nameless : ScriptObject :=
  mkScriptObject (Some "nameless"%string) None None None None (Some [ entry 0 "blink" ]).

(** [long]: one action at 5 s, over after 10 s. [short]: one action at
    1 s, over after 2 s. *)
Definition long : ScriptObject :=
  mkScriptObject (Some "long"%string) (Some "Long"%string) None (Some 10) None
    (Some [ entry 5 "blink" ]).
Definition short : ScriptObject :=
  mkScriptObject (Some "short"%string) (Some "Short"%string) None (Some 2) None
    (Some [ entry 1 "widen" ]).

(** [parent] makes eye set 1 join with [long] right away and lasts 10 s. *)
Definition parent : ScriptObject :=
  mkScriptObject (Some "parent"%string) (Some "Parent"%string) None (Some 10)
    (Some [ mkInteraction 1 0 (Some "long"%string) ])
    (Some [ entry 4 "blink" ]).

Definition directory : gmap string ScriptObject :=
  list_to_map
    [ ("unordered"%string, unordered); ("negative"%string, negative);
      ("empty"%string, empty); ("nameless"%string, nameless);
      ("long"%string, long); ("short"%string, short); ("parent"%string, parent) ].

(** Two visible eye sets and a hidden one; nothing loaded or scheduled. *)
Definition page : State :=
  startState [Some (createEyeSet true); Some (createEyeSet true); Some (createEyeSet false)]
    directory 0 [].
End Ex.


(** Eye set 0 alone and visible, the director on, the clock at 10 s, no
    script loaded; the next value of [Math.random()] is 0.9. *)
Definition directorPage : State :=
  set_directorState (with_enabled true)
    (startState [Some (createEyeSet true)] Ex.directory 10000 [9 # 10]).

(** [parent] runs on eye set 0. *)
Definition withParent : State := (executeScript 0 "parent" Ex.page).2.

(** Its interaction timer has fired: eye set 1 runs [long] as a child. *)
Definition withChild : State := fireNext withParent.

(** [long] runs on eye set 0 since time 0; at 1 s [short] is started on the
    same eye set. *)
Definition longRunning : State := (executeScript 0 "long" Ex.page).2.
Definition shortOverLong : State := (executeScript 0 "short" (set_clock 1000 longRunning)).2.

(** The other way round: [short] runs since time 0, [long] is started over it
    at 0.5 s. *)
Definition longOverShort : State :=
  (executeScript 0 "long" (set_clock 500 (executeScript 0 "short" Ex.page).2)).2.


(** The director evaluates at 20 s while eye set 0 runs [long] and eye set 1
    idles; the draw for eye set 1 is 0.6, the jitter draw 0.5. *)
Definition directedPage : State :=
  set_randoms [6 # 10; 5 # 10]
    (set_directorState (with_enabled true) (set_clock 20000 longRunning)).




(** * Properties *)

(** ** Numbers *)



(** ** Script store *)

Lemma compareTime_Gt a b :
  compareTime a b = Gt -> timeOf b < timeOf a.
Proof.
  unfold compareTime, timeOf.
  destruct (a_time a) as [x|], (a_time b) as [y|]; simpl; try discriminate.
  intros H. by apply Qgt_alt.
Qed.

Lemma compareTime_not_Gt a b :
  numericTime a -> numericTime b -> compareTime a b <> Gt -> leTime a b.
Proof.
  unfold compareTime, leTime, timeOf, numericTime.
  intros [x ->] [y ->]; simpl. intros H. by apply Qle_alt.
Qed.

Lemma insertSorted_perm {A} (cmp : A -> A -> comparison) x l :
  insertSorted cmp x l ≡ₚ x :: l.
Proof.
  induction l as [|y l IH]; simpl; [done|].
  destruct (cmp x y); try done.
  rewrite IH. apply Permutation_swap.
Qed.

Lemma jsSort_perm {A} (cmp : A -> A -> comparison) l : jsSort cmp l ≡ₚ l.
Proof.
  induction l as [|x l IH]; simpl; [done|].
  by rewrite insertSorted_perm, IH.
Qed.

Lemma insertSorted_sorted x l :
  numericTime x -> Forall numericTime l ->
  StronglySorted leTime l -> StronglySorted leTime (insertSorted compareTime x l).
Proof.
  intros Hx Hl Hs. induction Hs as [|y l Hs IH Hy]; simpl.
  - repeat constructor.
  - apply Forall_cons in Hl as [Hny Hl].
    assert (compareTime x y <> Gt ->
            StronglySorted leTime (x :: y :: l)) as Hfront.
    { intros Hc. assert (leTime x y) by by apply compareTime_not_Gt.
      constructor; [by constructor|]. constructor; [done|].
      eapply Forall_impl; [exact Hy|]. intros z Hz. unfold leTime in *.
      eapply Qle_trans; eauto. }
    destruct (compareTime x y) eqn:Hc; [by apply Hfront..|].
    + constructor; [by apply IH|].
      rewrite insertSorted_perm. constructor; [|done].
      apply compareTime_Gt in Hc. unfold leTime. by apply Qlt_le_weak.
Qed.

Lemma jsSort_sorted l :
  Forall numericTime l -> StronglySorted leTime (jsSort compareTime l).
Proof.
  induction 1 as [|x l Hx Hl IH]; simpl; [constructor|].
  apply insertSorted_sorted; [done| |done].
  by rewrite jsSort_perm.
Qed.

Lemma insertSorted_stable t x l :
  entriesAt t (insertSorted compareTime x l) = entriesAt t (x :: l).
Proof.
  unfold entriesAt. induction l as [|y l IH]; simpl; [done|].
  destruct (compareTime x y) eqn:Hc; try done.
  rewrite filter_cons, IH, !filter_cons.
  apply compareTime_Gt in Hc.
  repeat case_decide; try done.
  exfalso. apply Qeq_bool_iff in H, H0.
  rewrite H, H0 in Hc. by apply Qlt_irrefl in Hc.
Qed.

Lemma jsSort_stable t l :
  entriesAt t (jsSort compareTime l) = entriesAt t l.
Proof.
  induction l as [|x l IH]; simpl; [done|].
  rewrite insertSorted_stable. unfold entriesAt in *.
  by rewrite !filter_cons, IH.
Qed.

(** ** Writes to a script instance that schedule nothing *)

Lemma stop_instance_handles s :
  si_scheduledActions (stop_instance s) ⊆ si_scheduledActions s.
Proof. apply list_subseteq_nil. Qed.

Lemma push_interactionInstance_handles c s :
  si_scheduledActions (push_interactionInstance c s) ⊆ si_scheduledActions s.
Proof. done. Qed.

(** ** What every operation of the core does to timers, instances and cache *)

(** A relation between the state before and the state after that is
    reflexive and transitive, that holds across the ways the core touches
    the timer queue, the script instances and the script cache, and across
    any change that leaves the three alone, holds across every operation and
    every step. *)
Section Frame.
Variable R : State -> State -> Prop.
Hypothesis R_refl : forall st, R st st.
Hypothesis R_trans : forall st1 st2 st3, R st1 st2 -> R st2 st3 -> R st1 st3.
Hypothesis R_other : forall st st',
  timers st' = timers st -> nextHandle st' = nextHandle st ->
  instances st' = instances st ->
  loadedScripts st' = loadedScripts st -> scriptDirectory st' = scriptDirectory st ->
  R st st'.
Hypothesis R_setTimeout : forall cb delay st, R st (setTimeout cb delay st).2.
Hypothesis R_scheduleOn : forall instance cb delay st,
  R st (scheduleOn instance cb delay st).
Hypothesis R_clearTimeout : forall h st, R st (clearTimeout h st).
Hypothesis R_createInstance : forall scriptObject setIndex st,
  R st (createInstance scriptObject setIndex st).2.
Hypothesis R_updInstance : forall instance f st,
  (forall s, si_scheduledActions (f s) ⊆ si_scheduledActions s) ->
  R st (updInstance instance f st).
Hypothesis R_loadScript : forall scriptId st, R st (loadScript scriptId st).2.

Local Ltac other := apply R_other; reflexivity.
Local Ltac after tac := eapply R_trans; [tac|].
Local Ltac before tac := eapply R_trans; [|tac].
(* the outermost call of the state on the right is a change of kind tac *)
Local Ltac peel tac :=
  lazymatch goal with
  | |- R ?a (?f ?x) => apply (R_trans a x (f x)); [|tac]
  end.

Lemma R_foldl {A} (f : State -> A -> State) l st :
  (forall st x, R st (f st x)) -> R st (foldl f st l).
Proof.
  intros Hf. revert st. induction l as [|x l IH]; intros st; simpl; [done|].
  after ltac:(apply (Hf st x)). apply IH.
Qed.

Lemma R_mathRandom st : R st (mathRandom st).2.
Proof. unfold mathRandom. destruct (randoms st); [apply R_refl | other]. Qed.

Lemma R_executeAction setIndex actionName params st :
  R st (executeAction setIndex actionName params st).
Proof.
  unfold executeAction. destruct (getEyeSet st setIndex) as [e|]; [|done].
  destruct (negb (es_visible e)); [done|].
  destruct (lookupAction actionName); [other | done].
Qed.

Lemma R_scheduleAction setIndex instance st actionDef :
  R st (scheduleAction setIndex instance st actionDef).
Proof. apply R_scheduleOn. Qed.

Lemma R_scheduleInteraction instance scriptId st interaction :
  R st (scheduleInteraction instance scriptId st interaction).
Proof. apply R_scheduleOn. Qed.

Lemma R_clearTimeouts handles st : R st (clearTimeouts handles st).
Proof. apply R_foldl. intros. apply R_clearTimeout. Qed.

Lemma R_scheduleCompletion setIndex instance scriptObject st :
  R st (scheduleCompletion setIndex instance scriptObject st).
Proof. apply R_scheduleOn. Qed.

Lemma R_startScript setIndex scriptId scriptObject st :
  R st (startScript setIndex scriptId scriptObject st).2.
Proof.
  unfold startScript.
  set (st1 := enterScripted setIndex st).
  assert (R st st1) as H1 by other.
  destruct (createInstance scriptObject setIndex st1) as [instance st2] eqn:E.
  assert (R st1 st2) as H2.
  { pose proof (R_createInstance scriptObject setIndex st1) as H. by rewrite E in H. }
  simpl. before ltac:(apply R_scheduleCompletion).
  apply (R_trans _ st1); [done|]. apply (R_trans _ st2); [done|].
  match goal with
  | |- R _ (match ?o with Some l => _ | None => ?s end) =>
      apply (R_trans _ s);
      [|destruct o; [apply R_foldl; intros; apply R_scheduleInteraction | done]]
  end.
  apply R_foldl. intros. apply R_scheduleAction.
Qed.

Lemma R_executeScript setIndex scriptId st :
  R st (executeScript setIndex scriptId st).2.
Proof.
  unfold executeScript. destruct (getEyeSet st setIndex) as [e|]; [|done].
  destruct (negb (es_visible e)); [done|].
  pose proof (R_loadScript scriptId st) as Hl.
  destruct (loadScript scriptId st) as [[so|] st1]; simpl in Hl; [|done].
  pose proof (R_startScript setIndex scriptId so st1) as Hs.
  destruct (startScript setIndex scriptId so st1) as [i st2]. simpl in *.
  by apply (R_trans _ st1).
Qed.

Lemma R_completeScript setIndex st : R st (completeScript setIndex st).
Proof.
  unfold completeScript. destruct (getEyeSet st setIndex) as [e|]; [|done].
  destruct (es_currentScript e) as [instance|]; [|done].
  cbv zeta. do 5 peel other.
  match goal with
  | |- R _ (match ?o with Some c => emit _ ?s | None => ?s end) =>
      apply (R_trans _ s); [|destruct o; [other | done]]
  end.
  peel ltac:(apply R_updInstance, stop_instance_handles). apply R_clearTimeouts.
Qed.

Lemma R_stopScript setIndex st : R st (stopScript setIndex st).
Proof.
  unfold stopScript. destruct (getEyeSet st setIndex) as [e|]; [|done].
  destruct (es_currentScript e); [apply R_completeScript | done].
Qed.

Lemma R_setEyeBehavior setIndex b st : R st (setEyeBehavior setIndex b st).
Proof.
  unfold setEyeBehavior. destruct (getEyeSet st setIndex) as [e|]; [|done].
  cbv zeta. peel other. peel ltac:(destruct b; other).
  unfold stopCurrentBehavior.
  destruct (_ && _); [apply R_stopScript|].
  destruct (bool_decide _); other.
Qed.

Lemma R_cycleBehavior setIndex st : R st (cycleBehavior setIndex st).
Proof.
  unfold cycleBehavior. destruct (getEyeSet st setIndex) as [e|]; [|done].
  destruct (_ !! _) as [[| |]|]; try apply R_setEyeBehavior; [|done].
  destruct (truthyStr _); [apply R_executeScript | apply R_setEyeBehavior].
Qed.

Lemma R_weightedRandomScriptChoice scriptIds st :
  R st (weightedRandomScriptChoice scriptIds st).2.
Proof.
  unfold weightedRandomScriptChoice. destruct (filter _ _); [done|].
  pose proof (R_mathRandom st). destruct (mathRandom st) as [r st1].
  by destruct (walkScripts _ _).
Qed.

Lemma R_triggerDirectorScript setIndex visibleSets st :
  R st (triggerDirectorScript setIndex visibleSets st).1.
Proof.
  unfold triggerDirectorScript.
  assert (exists b st1, R st st1 /\
    (if bool_decide (1 < length visibleSets)%nat
     then let '(r, st) := mathRandom st in
          (Qltb r (d_interactionChance (directorState st)), st)
     else (false, st)) = (b, st1)) as (b & st1 & H1 & ->).
  { destruct (bool_decide _); [|by eauto].
    pose proof (R_mathRandom st). destruct (mathRandom st) as [r st1]. by eauto. }
  assert (exists o st2, R st1 st2 /\
    (if b then weightedRandomScriptChoice directorConfig.multipleEyesVisible st1
     else weightedRandomScriptChoice directorConfig.singleEyeVisible st1) = (o, st2))
    as (o & st2 & H2 & ->).
  { destruct b.
    - pose proof (R_weightedRandomScriptChoice directorConfig.multipleEyesVisible st1).
      destruct (weightedRandomScriptChoice _ _). by eauto.
    - pose proof (R_weightedRandomScriptChoice directorConfig.singleEyeVisible st1).
      destruct (weightedRandomScriptChoice _ _). by eauto. }
  apply (R_trans _ st1); [done|]. apply (R_trans _ st2); [done|].
  destruct o as [s|]; [|done]. destruct (negb _); [|done].
  apply R_executeScript.
Qed.

Lemma R_scheduleDirectorEvaluation st : R st (scheduleDirectorEvaluation st).
Proof.
  unfold scheduleDirectorEvaluation. destruct (negb _); [done|].
  pose proof (R_mathRandom st). destruct (mathRandom st) as [r st1].
  apply (R_trans _ st1); [done|].
  match goal with
  | |- R _ (let '(_, _) := setTimeout ?cb ?d ?s in _) =>
      apply (R_trans _ (setTimeout cb d s).2); [apply R_setTimeout | other]
  end.
Qed.

Lemma R_evaluateSet now visibleSets st idx :
  R st (evaluateSet now visibleSets st idx).
Proof.
  unfold evaluateSet. destruct (getEyeSet st idx) as [e|]; [|done].
  destruct (_ || _); [done|].
  unfold weightedRandomChoice.
  pose proof (R_mathRandom st). destruct (mathRandom st) as [r st1].
  apply (R_trans _ st1); [done|].
  repeat (destruct (bool_decide _); try apply R_setEyeBehavior; try done).
  peel other. apply R_triggerDirectorScript.
Qed.

Lemma R_evaluateDirector st : R st (evaluateDirector st).
Proof.
  unfold evaluateDirector. destruct (negb _); [done|].
  destruct (bool_decide _); [apply R_scheduleDirectorEvaluation|].
  destruct (_ <? _)%Z; [apply R_scheduleDirectorEvaluation|].
  before ltac:(apply R_scheduleDirectorEvaluation).
  apply R_foldl. intros. apply R_evaluateSet.
Qed.

Lemma R_startDirector mode st : R st (startDirector mode st).
Proof.
  unfold startDirector. destruct (d_enabled _); [done|].
  before ltac:(apply R_scheduleDirectorEvaluation).
  destruct (lookupKey _ _); other.
Qed.

Lemma R_stopDirector st : R st (stopDirector st).
Proof.
  unfold stopDirector. destruct (negb _); [done|].
  cbv zeta. destruct (d_evaluationTimeoutId _) as [h|] eqn:E; [|other].
  peel other. peel ltac:(apply R_clearTimeout). other.
Qed.

Lemma R_setDirectorMode mode st : R st (setDirectorMode mode st).
Proof.
  unfold setDirectorMode. destruct (lookupKey mode directorConfig.modes); [|done].
  cbv zeta. destruct (d_enabled (directorState st)).
  - peel ltac:(apply R_startDirector). peel other. apply R_stopDirector.
  - other.
Qed.

Lemma R_runCallback cb st : R st (runCallback cb st).
Proof.
  destruct cb; simpl.
  - apply R_executeAction.
  - match goal with
    | |- R _ (let '(_, _) := executeScript ?i ?s ?st0 in _) =>
        pose proof (R_executeScript i s st0) as H; destruct (executeScript i s st0)
    end.
    simpl in H. by peel ltac:(apply R_updInstance, push_interactionInstance_handles).
  - apply R_completeScript.
  - apply R_evaluateDirector.
Qed.

Lemma R_fireTimer h st : R st (fireTimer h st).
Proof.
  unfold fireTimer. destruct (timerOf st h); [|done].
  cbv zeta. peel ltac:(apply R_runCallback). peel other. apply R_clearTimeout.
Qed.

Lemma R_step st st' : step st st' -> R st st'.
Proof.
  destruct 1.
  - apply R_loadScript.
  - apply R_executeScript.
  - apply R_stopScript.
  - apply R_setEyeBehavior.
  - apply R_cycleBehavior.
  - apply R_startDirector.
  - apply R_stopDirector.
  - apply R_setDirectorMode.
  - apply R_fireTimer.
  - other.
  - other.
  - other.
Qed.

Lemma R_later st st' : later st st' -> R st st'.
Proof.
  induction 1 as [|st1 st2 st3 H12 _ IH]; [done|].
  apply (R_trans _ st2); [by apply R_step | done].
Qed.
End Frame.

(** ** Handles are never reused; the cache holds prepared documents *)

Lemma pending_setTimeout cb delay st :
  pending (setTimeout cb delay st).2 = pending st ++ [nextHandle st].
Proof. unfold pending, setTimeout. simpl. by rewrite fmap_app. Qed.

Lemma pending_clearTimeout h' h st :
  h' ∈ pending (clearTimeout h st) <-> h' ∈ pending st /\ h' <> h.
Proof.
  unfold pending, clearTimeout. simpl. rewrite !list_elem_of_fmap. split.
  - intros (t & -> & Ht). apply list_elem_of_filter in Ht as [? ?]. eauto.
  - intros [(t & -> & Ht) ?]. exists t. split; [done|]. by apply list_elem_of_filter.
Qed.

Lemma loadScript_timers scriptId st :
  timers (loadScript scriptId st).2 = timers st /\
  nextHandle (loadScript scriptId st).2 = nextHandle st.
Proof.
  unfold loadScript. destruct (_ !! _); [done|].
  destruct (_ !! _) as [doc|]; [|done]. by destruct (prepareScript doc).
Qed.

Lemma onlyFreshTimers_refl st : onlyFreshTimers st st.
Proof. split; [done | by left]. Qed.

Lemma onlyFreshTimers_trans st1 st2 st3 :
  onlyFreshTimers st1 st2 -> onlyFreshTimers st2 st3 -> onlyFreshTimers st1 st3.
Proof.
  intros [Hn1 H1] [Hn2 H2]. split; [lia|].
  intros h Hh. destruct (H2 h Hh) as [Hh2|?]; [|right; lia]. by apply H1.
Qed.

Lemma onlyFreshTimers_same st st' :
  timers st' = timers st -> nextHandle st' = nextHandle st -> onlyFreshTimers st st'.
Proof.
  intros Ht Hn. unfold onlyFreshTimers, pending. rewrite Ht, Hn.
  split; [done | by left].
Qed.

Lemma onlyFreshTimers_setTimeout cb delay st :
  onlyFreshTimers st (setTimeout cb delay st).2.
Proof.
  split; [simpl; lia|].
  intros h. rewrite pending_setTimeout, elem_of_app, list_elem_of_singleton.
  intros [?| ->]; [by left | by right].
Qed.

Lemma later_onlyFreshTimers st st' : later st st' -> onlyFreshTimers st st'.
Proof.
  apply R_later.
  - apply onlyFreshTimers_refl.
  - apply onlyFreshTimers_trans.
  - intros s s' Ht Hn _ _ _. by apply onlyFreshTimers_same.
  - apply onlyFreshTimers_setTimeout.
  - intros instance cb delay s.
    apply (onlyFreshTimers_trans _ (setTimeout cb delay s).2);
      [apply onlyFreshTimers_setTimeout | by apply onlyFreshTimers_same].
  - intros h s. split; [done|]. intros h' Hh. left.
    by apply pending_clearTimeout in Hh as [? _].
  - intros scriptObject setIndex s. by apply onlyFreshTimers_same.
  - intros instance f s _. by apply onlyFreshTimers_same.
  - intros scriptId s. destruct (loadScript_timers scriptId s) as [Ht Hn].
    by apply onlyFreshTimers_same.
Qed.

(** A handle that has been issued and is no longer pending never fires
    again. *)
Lemma dead_handle_stays_dead st st' h :
  later st st' -> (h < nextHandle st)%nat -> h ∉ pending st -> h ∉ pending st'.
Proof.
  intros Hl Hh Hnot Hin. apply later_onlyFreshTimers in Hl as [_ Hl].
  destruct (Hl h Hin); [done | lia].
Qed.

Lemma loadScript_cache scriptId st : cacheGrows st (loadScript scriptId st).2.
Proof.
  unfold loadScript. destruct (loadedScripts st !! scriptId) eqn:Hc; [by split; eauto|].
  destruct (scriptDirectory st !! scriptId) as [doc|] eqn:Hd; [|by split; eauto].
  destruct (prepareScript doc) as [so|] eqn:Hp; [|by split; eauto].
  split; [done|]. intros id so'. simpl. rewrite lookup_insert.
  case_decide as Hid; [|by eauto].
  intros [= <-]. subst id. right. eauto.
Qed.

Lemma cacheGrows_refl st : cacheGrows st st.
Proof. split; eauto. Qed.

Lemma cacheGrows_trans st1 st2 st3 :
  cacheGrows st1 st2 -> cacheGrows st2 st3 -> cacheGrows st1 st3.
Proof.
  intros [Hd1 H1] [Hd2 H2]. split; [congruence|].
  intros id so Hso. destruct (H2 id so Hso) as [?|(doc & Hdoc & ?)]; [by apply H1|].
  right. exists doc. by rewrite <- Hd1.
Qed.

Lemma later_cacheGrows st st' : later st st' -> cacheGrows st st'.
Proof.
  apply R_later.
  - apply cacheGrows_refl.
  - apply cacheGrows_trans.
  - intros s s' _ _ _ Hc Hd. split; [done|]. intros id so. rewrite Hc. eauto.
  - intros cb delay s. split; [done | by left].
  - intros instance cb delay s. split; [done | by left].
  - intros h s. split; [done | by left].
  - intros scriptObject setIndex s. split; [done | by left].
  - intros instance f s _. split; [done | by left].
  - apply loadScript_cache.
Qed.

(** The cache invariant holds from the start and is kept by everything that
    can happen. *)
Lemma cacheFromDirectory_start sets dir now rs :
  cacheFromDirectory (startState sets dir now rs).
Proof. intros id so. simpl. by rewrite lookup_empty. Qed.

Lemma cacheFromDirectory_later st st' :
  cacheFromDirectory st -> later st st' -> cacheFromDirectory st'.
Proof.
  intros Hinv Hl. apply later_cacheGrows in Hl as [Hd Hl].
  intros id so Hso. rewrite Hd. destruct (Hl id so Hso); eauto.
Qed.

(** The handles that instances hold have been issued, from the start and
    after everything that can happen. *)
Lemma handlesIssued_same st st' :
  instances st' = instances st -> (nextHandle st <= nextHandle st')%nat ->
  handlesIssued st -> handlesIssued st'.
Proof.
  intros Hi Hn Hinv i s h. rewrite Hi. intros Hs Hh.
  specialize (Hinv i s h Hs Hh). lia.
Qed.

Lemma handlesIssued_scheduleOn instance cb delay st :
  handlesIssued st -> handlesIssued (scheduleOn instance cb delay st).
Proof.
  intros Hinv i s h. unfold scheduleOn, updInstance. simpl.
  rewrite lookup_alter. case_decide as Hi.
  - subst i. destruct (instances st !! instance) as [s0|] eqn:Hs0; [|done].
    intros [= <-]. simpl. rewrite elem_of_app, list_elem_of_singleton.
    intros [Hh| ->]; [|lia]. specialize (Hinv instance s0 h Hs0 Hh). lia.
  - intros Hs Hh. specialize (Hinv i s h Hs Hh). lia.
Qed.

Lemma handlesIssued_createInstance scriptObject setIndex st :
  handlesIssued st -> handlesIssued (createInstance scriptObject setIndex st).2.
Proof.
  intros Hinv i s h. unfold createInstance. simpl.
  rewrite lookup_insert. case_decide as Hi.
  - intros [= <-]. simpl. by intros ?%elem_of_nil.
  - apply Hinv.
Qed.

Lemma handlesIssued_updInstance instance f st :
  (forall s, si_scheduledActions (f s) ⊆ si_scheduledActions s) ->
  handlesIssued st -> handlesIssued (updInstance instance f st).
Proof.
  intros Hf Hinv i s h. unfold updInstance. simpl.
  rewrite lookup_alter. case_decide as Hi; [|apply Hinv].
  subst i. destruct (instances st !! instance) as [s0|] eqn:Hs0; [|done].
  intros [= <-] Hh. apply (Hinv instance s0 h Hs0). by apply Hf.
Qed.

Lemma loadScript_instances scriptId st :
  instances (loadScript scriptId st).2 = instances st.
Proof.
  unfold loadScript. destruct (_ !! _); [done|].
  destruct (_ !! _) as [doc|]; [|done]. by destruct (prepareScript doc).
Qed.

Lemma handlesIssued_later st st' :
  handlesIssued st -> later st st' -> handlesIssued st'.
Proof.
  intros Hinv Hl. revert Hinv.
  apply (R_later (fun st st' => handlesIssued st -> handlesIssued st')); [..|exact Hl].
  - auto.
  - auto.
  - intros s s' _ Hn Hi _ _. apply handlesIssued_same; [done | lia].
  - intros cb delay s. apply handlesIssued_same; [done | simpl; lia].
  - apply handlesIssued_scheduleOn.
  - intros h s. by apply handlesIssued_same.
  - apply handlesIssued_createInstance.
  - apply handlesIssued_updInstance.
  - intros scriptId s. apply handlesIssued_same; [apply loadScript_instances|].
    destruct (loadScript_timers scriptId s) as [_ ->]. done.
Qed.

Lemma handlesIssued_start sets dir now rs : handlesIssued (startState sets dir now rs).
Proof. intros i s h. simpl. by rewrite lookup_empty. Qed.

(** ** What [loadScript] returns *)

Lemma validateScript_true doc :
  validateScript doc = true ->
  truthyStr (so_scriptId doc) = true /\ truthyStr (so_name doc) = true /\
  exists timeline, so_timeline doc = Some timeline /\
    Forall (fun a => numericTime a /\ truthyStr (a_action a) = true) timeline.
Proof.
  unfold validateScript.
  destruct (truthyStr (so_scriptId doc)), (truthyStr (so_name doc)); simpl; try done.
  destruct (so_timeline doc) as [timeline|]; simpl; [|done].
  intros H. do 2 (split; [done|]). exists timeline. split; [done|].
  apply Forall_forall. intros a Ha.
  rewrite forallb_forall in H. specialize (H a). rewrite <- list_elem_of_In in H.
  specialize (H Ha). unfold numericTime.
  destruct (a_time a), (truthyStr (a_action a)); simpl in *; try done; eauto.
Qed.

Lemma prepareScript_Some doc so :
  prepareScript doc = Some so ->
  validateScript doc = true /\
  exists input, so_timeline doc = Some input /\
    so_timeline so = Some (jsSort compareTime input) /\
    so_duration so =
      (if durationMissing (so_duration doc)
       then (fun a => timeOf a + paramsDurationOr0 a) <$> last (jsSort compareTime input)
       else so_duration doc) /\
    (durationMissing (so_duration doc) = true -> is_Some (last (jsSort compareTime input))).
Proof.
  unfold prepareScript. destruct (validateScript doc) eqn:Hv; simpl; [|done].
  intros H. split; [done|]. revert H. destruct (validateScript_true _ Hv) as (_ & _ & input & Hin & _).
  rewrite Hin. simpl. intros H. exists input. split; [done|]. revert H.
  destruct (durationMissing (so_duration doc)).
  - destruct (last _) as [a|]; [|done]. intros [= <-]. simpl. eauto.
  - intros [= <-]. simpl. repeat split; done.
Qed.

Lemma loadScript_Some st scriptId so st' :
  cacheFromDirectory st -> loadScript scriptId st = (Some so, st') ->
  loadedScripts st' !! scriptId = Some so /\
  exists doc, scriptDirectory st !! scriptId = Some doc /\ prepareScript doc = Some so.
Proof.
  intros Hinv. unfold loadScript.
  destruct (loadedScripts st !! scriptId) as [cached|] eqn:Hc.
  - intros [= <- <-]. split; [done|]. by apply Hinv.
  - destruct (scriptDirectory st !! scriptId) as [doc|] eqn:Hd; [|done].
    destruct (prepareScript doc) as [so'|] eqn:Hp; [|done].
    intros [= <- <-]. simpl. rewrite lookup_insert_eq. eauto.
Qed.

(** C7. Whatever the order of the timeline in the script's document, the
    definition that [loadScript] returns, and holds in the cache, has the
    entries of that timeline sorted ascending by [time], the entries with
    equal [time] in the order they had in the document. *)
Theorem loadScript_timeline_sorted_stable st scriptId so st' :
  cacheFromDirectory st ->
  loadScript scriptId st = (Some so, st') ->
  loadedScripts st' !! scriptId = Some so /\
  exists doc input output,
    scriptDirectory st !! scriptId = Some doc /\
    so_timeline doc = Some input /\
    so_timeline so = Some output /\
    Forall numericTime output /\
    StronglySorted leTime output /\
    output ≡ₚ input /\
    forall t, entriesAt t output = entriesAt t input.
Proof.
  intros Hinv Hload.
  destruct (loadScript_Some _ _ _ _ Hinv Hload) as (Hcache & doc & Hdoc & Hprep).
  split; [done|].
  destruct (prepareScript_Some _ _ Hprep) as (Hv & input & Hin & Hout & _).
  destruct (validateScript_true _ Hv) as (_ & _ & input' & Hin' & Hnum).
  assert (input' = input) as -> by congruence.
  assert (Forall numericTime input) as Hnum'.
  { eapply Forall_impl; [exact Hnum|]. by intros a [? _]. }
  exists doc, input, (jsSort compareTime input).
  repeat split; try done.
  - by rewrite jsSort_perm.
  - by apply jsSort_sorted.
  - apply jsSort_perm.
  - intros t. apply jsSort_stable.
Qed.

Lemma loadScript_timeline_sorted_stable_witness :
  loadedScripts (loadScript "unordered" Ex.page).2 !! "unordered"%string = Some Ex.ordered /\
  exists doc input output,
    scriptDirectory Ex.page !! "unordered"%string = Some doc /\
    so_timeline doc = Some input /\
    so_timeline Ex.ordered = Some output /\
    Forall numericTime output /\
    StronglySorted leTime output /\
    output ≡ₚ input /\
    forall t, entriesAt t output = entriesAt t input.
Proof.
  apply (loadScript_timeline_sorted_stable Ex.page "unordered" Ex.ordered).
  - apply cacheFromDirectory_start.
  - vm_compute. reflexivity.
Defined.

(** C6. When the script's document gives no [duration], the definition that
    [loadScript] returns and stores has the duration
    [lastEntry.time + (lastEntry.params.duration ?? 0)], [lastEntry] being the
    last entry of the sorted timeline. *)
Theorem loadScript_duration_from_last_entry st scriptId doc so st' :
  cacheFromDirectory st ->
  scriptDirectory st !! scriptId = Some doc ->
  so_duration doc = None ->
  loadScript scriptId st = (Some so, st') ->
  loadedScripts st' !! scriptId = Some so /\
  exists timeline lastEntry t d,
    so_timeline so = Some timeline /\
    last timeline = Some lastEntry /\
    a_time lastEntry = Some t /\
    so_duration so = Some d /\
    d == t + default 0 (a_params lastEntry ≫= p_duration).
Proof.
  intros Hinv Hdoc Hnone Hload.
  destruct (loadScript_Some _ _ _ _ Hinv Hload) as (Hcache & doc' & Hdoc' & Hprep).
  assert (doc' = doc) as -> by congruence.
  split; [done|].
  destruct (prepareScript_Some _ _ Hprep) as (Hv & input & Hin & Hout & Hdur & Hlast).
  rewrite Hnone in Hdur, Hlast. simpl in *.
  destruct (Hlast eq_refl) as [lastEntry Hl]. rewrite Hl in Hdur. simpl in Hdur.
  destruct (validateScript_true _ Hv) as (_ & _ & input' & Hin' & Hnum).
  assert (input' = input) as -> by congruence.
  assert (numericTime lastEntry) as [t Ht].
  { assert (lastEntry ∈ input) as Hel.
    { rewrite <- (jsSort_perm compareTime input). rewrite last_lookup in Hl.
      by eapply list_elem_of_lookup_2. }
    rewrite Forall_forall in Hnum. by destruct (Hnum _ Hel). }
  exists (jsSort compareTime input), lastEntry, t, (timeOf lastEntry + paramsDurationOr0 lastEntry).
  repeat split; try done.
  unfold timeOf, paramsDurationOr0. rewrite Ht. simpl.
  destruct (a_params lastEntry) as [p|]; simpl; [|done].
  destruct (p_duration p) as [d|]; simpl; [|done].
  unfold falsyNum. destruct (Qeq_bool d 0) eqn:Hz; [|done].
  apply Qeq_bool_iff in Hz. by rewrite Hz.
Qed.

Lemma loadScript_duration_from_last_entry_witness :
  loadedScripts (loadScript "unordered" Ex.page).2 !! "unordered"%string = Some Ex.ordered /\
  exists timeline lastEntry t d,
    so_timeline Ex.ordered = Some timeline /\
    last timeline = Some lastEntry /\
    a_time lastEntry = Some t /\
    so_duration Ex.ordered = Some d /\
    d == t + default 0 (a_params lastEntry ≫= p_duration).
Proof.
  apply (loadScript_duration_from_last_entry Ex.page "unordered" Ex.unordered Ex.ordered).
  - apply cacheFromDirectory_start.
  - vm_compute. reflexivity.
  - reflexivity.
  - vm_compute. reflexivity.
Defined.



(** The same for an empty timeline that comes with a duration. *)
Lemma loadScript_accepts_empty_timeline :
  specValid Ex.empty = false /\
  (loadScript "empty" Ex.page).1 = Some Ex.empty /\
  loadedScripts (loadScript "empty" Ex.page).2 !! "empty"%string = Some Ex.empty.
Proof. repeat split; vm_compute; reflexivity. Qed.



(** ** The director's weighted choice *)





(** ** Reading an eye set after an operation *)

Lemma getEyeSet_updEyeSet setIndex f st j :
  getEyeSet (updEyeSet setIndex f st) j =
  if decide (setIndex = j) then f <$> getEyeSet st j else getEyeSet st j.
Proof.
  unfold getEyeSet, updEyeSet. simpl. case_decide as Hj.
  - subst j. rewrite list_lookup_alter_eq. by destruct (eyeSets st !! setIndex) as [[e|]|].
  - by rewrite list_lookup_alter_ne.
Qed.

Lemma getEyeSet_updEyeSet_eq setIndex f st e :
  getEyeSet st setIndex = Some e ->
  getEyeSet (updEyeSet setIndex f st) setIndex = Some (f e).
Proof. intros H. rewrite getEyeSet_updEyeSet, decide_True by done. by rewrite H. Qed.

Lemma startNewBehavior_sets setIndex b st e :
  getEyeSet st setIndex = Some e ->
  getEyeSet (startNewBehavior setIndex b st) setIndex
    = Some (with_lastBehaviorChange (clock st) (with_behavior b e)) /\
  defaultScripts (startNewBehavior setIndex b st) = defaultScripts st.
Proof.
  intros He. unfold startNewBehavior. cbv zeta.
  pose proof (getEyeSet_updEyeSet_eq setIndex
    (with_lastBehaviorChange (clock (updEyeSet setIndex (with_behavior b) st)))
    (updEyeSet setIndex (with_behavior b) st) (with_behavior b e)
    (getEyeSet_updEyeSet_eq _ _ _ _ He)) as H.
  by destruct b.
Qed.

(** [setEyeBehavior] on an eye set whose behavior is not [scripted]. *)
Lemma setEyeBehavior_not_scripted setIndex b st e :
  getEyeSet st setIndex = Some e -> es_behavior e <> SCRIPTED ->
  getEyeSet (setEyeBehavior setIndex b st) setIndex
    = Some (with_lastBehaviorChange (clock st) (with_behavior b e)) /\
  defaultScripts (setEyeBehavior setIndex b st) = defaultScripts st /\
  clock (setEyeBehavior setIndex b st) = clock st.
Proof.
  intros He Hb. unfold setEyeBehavior. rewrite He. cbv zeta.
  assert (getEyeSet (stopCurrentBehavior setIndex e st) setIndex = Some e /\
          defaultScripts (stopCurrentBehavior setIndex e st) = defaultScripts st /\
          clock (stopCurrentBehavior setIndex e st) = clock st) as (He1 & Hd1 & Hc1).
  { unfold stopCurrentBehavior.
    rewrite (bool_decide_eq_false_2 (es_behavior e = SCRIPTED)) by done. simpl.
    by destruct (bool_decide _). }
  destruct (startNewBehavior_sets setIndex b _ e He1) as [H1 H2].
  rewrite Hc1 in H1. split; [exact H1|]. split; [by rewrite <- Hd1|].
  rewrite <- Hc1. unfold startNewBehavior. by destruct b.
Qed.

(** ** The behaviour cycle *)

Lemma cycleBehavior_from_autonomous setIndex st e :
  getEyeSet st setIndex = Some e -> es_behavior e = AUTONOMOUS ->
  cycleBehavior setIndex st = setEyeBehavior setIndex TRACKING st.
Proof. intros He Hb. unfold cycleBehavior. by rewrite He, Hb. Qed.

Lemma cycleBehavior_from_tracking setIndex st e :
  getEyeSet st setIndex = Some e -> es_behavior e = TRACKING ->
  truthyStr (defaultScripts st !! setIndex) = false ->
  cycleBehavior setIndex st = setEyeBehavior setIndex AUTONOMOUS st.
Proof. intros He Hb Hd. unfold cycleBehavior. rewrite He, Hb. simpl. by rewrite Hd. Qed.

(** C2, as the specification has it, fails: without a default script three
    applications of [cycleBehavior] take an autonomous eye set to tracking. *)
Lemma cycleBehavior_three_times_tracking :
  (es_behavior <$> getEyeSet Ex.page 0) = Some AUTONOMOUS /\
  defaultScripts Ex.page !! 0%nat = None /\
  (es_behavior <$> getEyeSet (cycleBehavior 0 (cycleBehavior 0 (cycleBehavior 0 Ex.page))) 0)
    = Some TRACKING.
Proof. repeat split; vm_compute; reflexivity. Qed.

(** C2, amended. For an autonomous eye set without a default script the
    scripted leg is skipped, so the cycle has two legs: two applications of
    [cycleBehavior] leave the behavior autonomous, and a third one moves it
    to tracking. *)
Theorem cycleBehavior_twice_autonomous st setIndex e :
  getEyeSet st setIndex = Some e ->
  es_behavior e = AUTONOMOUS ->
  defaultScripts st !! setIndex = None ->
  (es_behavior <$> getEyeSet (cycleBehavior setIndex (cycleBehavior setIndex st)) setIndex)
    = Some AUTONOMOUS /\
  (es_behavior <$> getEyeSet
     (cycleBehavior setIndex (cycleBehavior setIndex (cycleBehavior setIndex st))) setIndex)
    = Some TRACKING.
Proof.
  intros He Hb Hd.
  rewrite (cycleBehavior_from_autonomous _ st e He Hb).
  destruct (setEyeBehavior_not_scripted setIndex TRACKING st e He) as (He1 & Hd1 & _);
    [by rewrite Hb|].
  set (st1 := setEyeBehavior setIndex TRACKING st) in *.
  rewrite (cycleBehavior_from_tracking _ st1 _ He1 eq_refl) by (by rewrite Hd1, Hd).
  destruct (setEyeBehavior_not_scripted setIndex AUTONOMOUS st1 _ He1) as (He2 & Hd2 & _);
    [done|].
  set (st2 := setEyeBehavior setIndex AUTONOMOUS st1) in *.
  split; [by rewrite He2|].
  rewrite (cycleBehavior_from_autonomous _ st2 _ He2 eq_refl).
  destruct (setEyeBehavior_not_scripted setIndex TRACKING st2 _ He2) as (He3 & _); [done|].
  by rewrite He3.
Qed.

Lemma cycleBehavior_twice_autonomous_witness :
  (es_behavior <$> getEyeSet (cycleBehavior 0 (cycleBehavior 0 Ex.page)) 0)
    = Some AUTONOMOUS /\
  (es_behavior <$> getEyeSet (cycleBehavior 0 (cycleBehavior 0 (cycleBehavior 0 Ex.page))) 0)
    = Some TRACKING.
Proof.
  apply (cycleBehavior_twice_autonomous Ex.page 0 (createEyeSet true));
    reflexivity.
Defined.

(** ** Refusals of the engine *)

Lemma loadScript_None scriptId st :
  (loadScript scriptId st).1 = None -> loadScript scriptId st = (None, st).
Proof.
  unfold loadScript. destruct (loadedScripts st !! scriptId); [done|].
  destruct (scriptDirectory st !! scriptId) as [doc|]; [|done].
  by destruct (prepareScript doc).
Qed.

(** C5. When the eye set does not exist, or is not visible, or the script
    definition cannot be loaded, [executeScript] returns [null] and the state
    after the call is the state before it: behavior, current script,
    time of the last behavior change and running animations of the eye set
    are untouched, nothing is scheduled and nothing is cached. *)
Theorem executeScript_failure_atomic st setIndex scriptId :
  getEyeSet st setIndex = None
  \/ (exists eyeSet, getEyeSet st setIndex = Some eyeSet /\ es_visible eyeSet = false)
  \/ (loadScript scriptId st).1 = None ->
  executeScript setIndex scriptId st = (None, st).
Proof.
  intros H. unfold executeScript.
  destruct (getEyeSet st setIndex) as [e|]; [|done].
  destruct (es_visible e) eqn:Hv; simpl; [|done].
  destruct H as [?|[(e' & [= <-] & ?)|Hl]]; [done|congruence|].
  by rewrite (loadScript_None _ _ Hl).
Qed.

Lemma executeScript_failure_atomic_witness :
  executeScript 2 "long" Ex.page = (None, Ex.page)
  /\ executeScript 0 "nameless" Ex.page = (None, Ex.page)
  /\ executeScript 7 "long" Ex.page = (None, Ex.page).
Proof.
  split; [|split].
  - apply (executeScript_failure_atomic Ex.page 2 "long").
    right. left. exists (createEyeSet false). split; reflexivity.
  - apply (executeScript_failure_atomic Ex.page 0 "nameless").
    right. right. vm_compute. reflexivity.
  - apply (executeScript_failure_atomic Ex.page 7 "long").
    left. reflexivity.
Defined.

(** C10. [executeAction] calls no action handler when the eye set does not
    exist or is not visible, whatever the action name, a registered one
    included; when it does call a handler, the eye set exists and is
    visible. *)
Theorem executeAction_only_visible st setIndex actionName params :
  (getEyeSet st setIndex = None
   \/ (exists eyeSet, getEyeSet st setIndex = Some eyeSet /\ es_visible eyeSet = false) ->
   executeAction setIndex actionName params st = st)
  /\
  (trace (executeAction setIndex actionName params st) <> trace st ->
   exists eyeSet actionFunction,
     getEyeSet st setIndex = Some eyeSet /\ es_visible eyeSet = true /\
     lookupAction actionName = Some actionFunction /\
     trace (executeAction setIndex actionName params st)
       = trace st ++ [EvHandler actionFunction setIndex params]).
Proof.
  unfold executeAction. split.
  - intros [->|(e & -> & ->)]; done.
  - destruct (getEyeSet st setIndex) as [e|]; [|done].
    destruct (es_visible e) eqn:Hv; simpl; [|done].
    destruct (lookupAction actionName) as [f|]; [|done].
    intros _. exists e, f. by repeat split.
Qed.

Lemma executeAction_only_visible_witness :
  executeAction 2 (Some "blink"%string) noParams Ex.page = Ex.page
  /\ exists eyeSet actionFunction,
       getEyeSet Ex.page 0 = Some eyeSet /\ es_visible eyeSet = true /\
       lookupAction (Some "blink"%string) = Some actionFunction /\
       trace (executeAction 0 (Some "blink"%string) noParams Ex.page)
         = trace Ex.page ++ [EvHandler actionFunction 0 noParams].
Proof.
  split.
  - apply (executeAction_only_visible Ex.page 2 (Some "blink"%string) noParams).
    right. exists (createEyeSet false). split; reflexivity.
  - apply (executeAction_only_visible Ex.page 0 (Some "blink"%string) noParams).
    vm_compute. discriminate.
Defined.

(** ** The end of a script *)

Lemma pending_clearTimeouts handles : forall st h,
  h ∈ pending (clearTimeouts handles st) <-> h ∈ pending st /\ h ∉ handles.
Proof.
  unfold clearTimeouts. induction handles as [|h0 handles IH]; intros st h; simpl.
  - split; [intros ?; split; [done | by apply not_elem_of_nil] | by intros [? _]].
  - rewrite IH, pending_clearTimeout, not_elem_of_cons. tauto.
Qed.

(** Clearing timers touches the timer queue only. *)
Lemma clearTimeouts_fields handles : forall st,
  eyeSets (clearTimeouts handles st) = eyeSets st /\
  instances (clearTimeouts handles st) = instances st /\
  nextHandle (clearTimeouts handles st) = nextHandle st /\
  clock (clearTimeouts handles st) = clock st /\
  trace (clearTimeouts handles st) = trace st /\
  directorState (clearTimeouts handles st) = directorState st.
Proof.
  unfold clearTimeouts. induction handles as [|h0 handles IH]; intros st; simpl; [done|].
  destruct (IH (clearTimeout h0 st)) as (-> & -> & -> & -> & -> & ->). done.
Qed.

Section CompleteScript.
Variables (st : State) (setIndex : nat) (eyeSet : EyeSet) (instance : nat).
Hypothesis Hset : getEyeSet st setIndex = Some eyeSet.
Hypothesis Hcur : es_currentScript eyeSet = Some instance.

Lemma stopScript_running : stopScript setIndex st = completeScript setIndex st.
Proof using Hset Hcur. unfold stopScript. by rewrite Hset, Hcur. Qed.

Lemma completeScript_pending h :
  h ∈ pending (completeScript setIndex st)
  <-> h ∈ pending st /\ h ∉ scheduledActionsOf st instance.
Proof using Hset Hcur.
  rewrite <- pending_clearTimeouts.
  unfold completeScript. rewrite Hset, Hcur. cbv zeta.
  by destruct (onCompleteOf _ _).
Qed.

Lemma completeScript_nextHandle :
  nextHandle (completeScript setIndex st) = nextHandle st.
Proof using Hset Hcur.
  unfold completeScript. rewrite Hset, Hcur. cbv zeta.
  destruct (clearTimeouts_fields (scheduledActionsOf st instance) st) as (_ & _ & <- & _).
  by destruct (onCompleteOf _ _).
Qed.

Lemma onCompleteOf_stopped :
  onCompleteOf
    (updInstance instance stop_instance
       (clearTimeouts (scheduledActionsOf st instance) st)) instance
  = onCompleteOf st instance.
Proof.
  unfold onCompleteOf, updInstance. simpl.
  destruct (clearTimeouts_fields (scheduledActionsOf st instance) st) as (_ & -> & _).
  rewrite lookup_alter_eq. by destruct (instances st !! instance).
Qed.

Lemma completeScript_trace :
  trace (completeScript setIndex st)
  = trace st
    ++ match onCompleteOf st instance with
       | Some callback => [EvOnComplete callback]
       | None => []
       end
    ++ [EvStartEyeSetAnimations setIndex].
Proof using Hset Hcur.
  unfold completeScript. rewrite Hset, Hcur. cbv zeta.
  rewrite onCompleteOf_stopped.
  destruct (clearTimeouts_fields (scheduledActionsOf st instance) st) as (_ & _ & _ & _ & Ht & _).
  set (cleared := clearTimeouts _ st) in *.
  destruct (onCompleteOf st instance); simpl; rewrite Ht; [|done].
  by rewrite <- app_assoc.
Qed.

Lemma completeScript_eyeSet :
  getEyeSet (completeScript setIndex st) setIndex
  = Some (mkEyeSet AUTONOMOUS None (clock st) (es_visible eyeSet)) /\
  scriptInstances (completeScript setIndex st) !! setIndex = None.
Proof using Hset Hcur.
  unfold completeScript. rewrite Hset, Hcur. cbv zeta.
  destruct (clearTimeouts_fields (scheduledActionsOf st instance) st)
    as (He & _ & _ & Hc & _).
  set (cleared := clearTimeouts _ st) in *.
  set (st2 := match onCompleteOf _ instance with
              | Some callback => emit _ _ | None => _ end).
  assert (getEyeSet st2 setIndex = Some eyeSet /\ clock st2 = clock st) as [He2 Hc2].
  { unfold st2. destruct (onCompleteOf _ _); unfold getEyeSet; simpl;
      by rewrite He, Hc. }
  clearbody st2.
  pose proof (getEyeSet_updEyeSet_eq setIndex (with_currentScript None) st2 _ He2) as H3.
  set (st3 := updEyeSet setIndex (with_currentScript None) st2) in *.
  set (st4 := set_scriptInstances (delete setIndex) st3).
  assert (getEyeSet st4 setIndex = Some (with_currentScript None eyeSet)) as H4 by done.
  pose proof (getEyeSet_updEyeSet_eq setIndex (with_behavior AUTONOMOUS) st4 _ H4) as H5.
  set (st5 := updEyeSet setIndex (with_behavior AUTONOMOUS) st4) in *.
  pose proof (getEyeSet_updEyeSet_eq setIndex (with_lastBehaviorChange (clock st5)) st5 _ H5) as H6.
  split.
  - replace (clock st) with (clock st5) by done. exact H6.
  - simpl. apply lookup_delete_eq.
Qed.

Lemma completeScript_instance :
  scheduledActionsOf (completeScript setIndex st) instance = [] /\
  (si_isRunning <$> instances (completeScript setIndex st) !! instance)
    = (fun _ => false) <$> instances st !! instance.
Proof using Hset Hcur.
  unfold completeScript. rewrite Hset, Hcur. cbv zeta.
  destruct (clearTimeouts_fields (scheduledActionsOf st instance) st) as (_ & Hi & _).
  set (cleared := clearTimeouts _ st) in *.
  unfold scheduledActionsOf.
  destruct (onCompleteOf _ _); simpl; rewrite Hi, lookup_alter_eq;
    by destruct (instances st !! instance).
Qed.
End CompleteScript.

Lemma completeScript_clock setIndex st : clock (completeScript setIndex st) = clock st.
Proof.
  unfold completeScript. destruct (getEyeSet st setIndex) as [e|]; [|done].
  destruct (es_currentScript e) as [instance|]; [|done]. cbv zeta.
  destruct (clearTimeouts_fields (scheduledActionsOf st instance) st) as (_ & _ & _ & <- & _).
  by destruct (onCompleteOf _ _).
Qed.

Lemma completeScript_directorState setIndex st :
  directorState (completeScript setIndex st) = directorState st.
Proof.
  unfold completeScript. destruct (getEyeSet st setIndex) as [e|]; [|done].
  destruct (es_currentScript e) as [instance|]; [|done]. cbv zeta.
  destruct (clearTimeouts_fields (scheduledActionsOf st instance) st)
    as (_ & _ & _ & _ & _ & <-).
  by destruct (onCompleteOf _ _).
Qed.

Lemma setEyeBehavior_directorState setIndex b st :
  directorState (setEyeBehavior setIndex b st) = directorState st.
Proof.
  unfold setEyeBehavior. destruct (getEyeSet st setIndex) as [e|]; [|done]. cbv zeta.
  assert (directorState (stopCurrentBehavior setIndex e st) = directorState st) as <-.
  { unfold stopCurrentBehavior, stopScript. destruct (_ && _).
    - destruct (getEyeSet st setIndex) as [e'|]; [|done].
      destruct (es_currentScript e'); [apply completeScript_directorState | done].
    - by destruct (bool_decide _). }
  unfold startNewBehavior. by destruct b.
Qed.

(** C9, as the specification has it, fails in one point: the timers of a
    child that an interaction started on another eye set stay pending when the
    parent is stopped, and fire. *)
Lemma stopScript_leaves_child_timers :
  (es_currentScript <$> getEyeSet withChild 0) = Some (Some 0%nat) /\
  (si_interactionInstances <$> instances withChild !! 0%nat) = Some [Some 1%nat] /\
  scheduledActionsOf withChild 1 = [4%nat; 5%nat] /\
  pending (stopScript 0 withChild) = [4%nat; 5%nat] /\
  trace (fireNext (stopScript 0 withChild))
    = trace (stopScript 0 withChild) ++ [EvHandler "blink" 1 noParams].
Proof. repeat split; vm_compute; reflexivity. Qed.

(** C9, amended. When a script is running on an eye set, [stopScript] and the
    expiry of its completion timer alike cancel every timer handle in the
    instance's own [scheduledActions], and only those (the timers of child
    instances started by interactions are not among them); none of the
    instance's handles is pending at any later time, so no action of it
    scheduled beyond that point runs; [onComplete] is called if set, then the
    idle animation is resumed; [currentScript] is [null], the behavior is
    autonomous and [lastBehaviorChange] is the time of the end. *)
Theorem script_end_cancels_own_timers st setIndex eyeSet instance fired :
  getEyeSet st setIndex = Some eyeSet ->
  es_currentScript eyeSet = Some instance ->
  handlesIssued st ->
  (forall h, fired = Some h ->
     exists t, timerOf st h = Some t /\ t_cb t = CbComplete setIndex) ->
  let st' := scriptEnds setIndex fired st in
  (forall h st'', h ∈ scheduledActionsOf st instance -> later st' st'' -> h ∉ pending st'') /\
  (forall h, h ∈ pending st' <->
     (h ∈ pending st /\ (h ∉ scheduledActionsOf st instance) /\ fired <> Some h)) /\
  trace st' = trace st
              ++ match onCompleteOf st instance with
                 | Some callback => [EvOnComplete callback]
                 | None => []
                 end
              ++ [EvStartEyeSetAnimations setIndex] /\
  getEyeSet st' setIndex = Some (mkEyeSet AUTONOMOUS None (clock st') (es_visible eyeSet)) /\
  scriptInstances st' !! setIndex = None /\
  scheduledActionsOf st' instance = [].
Proof.
  intros Hset Hcur Hissued Hfired st'.
  assert (exists st1,
    st' = completeScript setIndex st1 /\
    getEyeSet st1 setIndex = Some eyeSet /\
    scheduledActionsOf st1 instance = scheduledActionsOf st instance /\
    onCompleteOf st1 instance = onCompleteOf st instance /\
    nextHandle st1 = nextHandle st /\ trace st1 = trace st /\
    (forall h, h ∈ pending st1 <-> (h ∈ pending st /\ fired <> Some h)))
    as (st1 & Hst' & Hset1 & Hown & Hoc & Hnext & Htrace & Hpend).
  { unfold st', scriptEnds. destruct fired as [h|].
    - destruct (Hfired h eq_refl) as (t & Ht & Hcb).
      exists (set_clock (Z.max (clock st) (Qceiling (t_due t))) (clearTimeout h st)).
      unfold fireTimer. rewrite Ht. cbv zeta. rewrite Hcb. simpl.
      do 6 (split; [done|]). intros h'.
      change (h' ∈ pending (clearTimeout h st) <-> (h' ∈ pending st /\ Some h <> Some h')).
      rewrite pending_clearTimeout. split; intros [? ?]; split; congruence.
    - exists st. rewrite (stopScript_running st setIndex eyeSet instance) by done.
      do 6 (split; [done|]). intros h'. split; [by intros ? | by intros [? _]]. }
  rewrite Hst'.
  assert (forall h, h ∈ scheduledActionsOf st instance ->
            h ∉ pending (completeScript setIndex st1)) as Hgone.
  { intros h Hh Hin.
    apply (completeScript_pending st1 setIndex eyeSet instance Hset1 Hcur) in Hin as [_ Hin].
    by rewrite Hown in Hin. }
  split; [|split; [|split; [|split; [|split]]]].
  - intros h st'' Hh Hlater.
    apply (dead_handle_stays_dead (completeScript setIndex st1)); [done| |by apply Hgone].
    rewrite (completeScript_nextHandle st1 setIndex eyeSet instance), Hnext by done.
    unfold scheduledActionsOf in Hh.
    destruct (instances st !! instance) as [s|] eqn:Hs; [|by apply elem_of_nil in Hh].
    by apply (Hissued instance s h Hs).
  - intros h.
    rewrite (completeScript_pending st1 setIndex eyeSet instance) by done.
    rewrite Hown, Hpend. tauto.
  - rewrite (completeScript_trace st1 setIndex eyeSet instance) by done.
    by rewrite Htrace, Hoc.
  - rewrite completeScript_clock.
    by apply (completeScript_eyeSet st1 setIndex eyeSet instance).
  - by apply (completeScript_eyeSet st1 setIndex eyeSet instance).
  - by apply (completeScript_instance st1 setIndex eyeSet instance).
Qed.

Lemma script_end_cancels_own_timers_witness :
  let st' := scriptEnds 0 (Some 3%nat) withChild in
  (forall h st'', h ∈ scheduledActionsOf withChild 0 -> later st' st'' -> h ∉ pending st'') /\
  (forall h, h ∈ pending st' <->
     (h ∈ pending withChild /\ (h ∉ scheduledActionsOf withChild 0) /\ Some 3%nat <> Some h)) /\
  trace st' = trace withChild
              ++ match onCompleteOf withChild 0 with
                 | Some callback => [EvOnComplete callback]
                 | None => []
                 end
              ++ [EvStartEyeSetAnimations 0] /\
  getEyeSet st' 0 = Some (mkEyeSet AUTONOMOUS None (clock st') true) /\
  scriptInstances st' !! 0%nat = None /\
  scheduledActionsOf st' 0 = [].
Proof.
  apply (script_end_cancels_own_timers withChild 0 (mkEyeSet SCRIPTED (Some 0%nat) 0 true) 0
           (Some 3%nat)).
  - vm_compute. reflexivity.
  - reflexivity.
  - apply (handlesIssued_later Ex.page); [apply handlesIssued_start|].
    apply (rtc_l _ _ withParent); [apply step_executeScript|].
    apply rtc_once.
    replace withChild with (fireTimer 2 withParent) by (vm_compute; reflexivity).
    apply step_fire. vm_compute. apply list_elem_of_In. simpl. tauto.
  - intros h [= <-]. exists (mkTimer 3 10000 (CbComplete 0)).
    split; vm_compute; reflexivity.
Defined.

(** ** Starting a script over a running one *)

Lemma timersKept_same st st' : timers st' = timers st -> timersKept st st'.
Proof. intros H. exists []. by rewrite app_nil_r. Qed.

Lemma timersKept_refl st : timersKept st st.
Proof. by apply timersKept_same. Qed.

Lemma timersKept_trans st1 st2 st3 :
  timersKept st1 st2 -> timersKept st2 st3 -> timersKept st1 st3.
Proof. intros [n1 H1] [n2 H2]. exists (n1 ++ n2). by rewrite H2, H1, app_assoc. Qed.

Lemma timersKept_foldl {A} (f : State -> A -> State) l : forall st,
  (forall st x, timersKept st (f st x)) -> timersKept st (foldl f st l).
Proof.
  induction l as [|x l IH]; intros st Hf; simpl; [apply timersKept_refl|].
  eapply timersKept_trans; [apply (Hf st x) | by apply IH].
Qed.

Lemma startScript_timersKept setIndex scriptId scriptObject st :
  timersKept st (startScript setIndex scriptId scriptObject st).2.
Proof.
  unfold startScript.
  set (st1 := enterScripted setIndex st).
  assert (timersKept st st1) as H1 by by apply timersKept_same.
  destruct (createInstance scriptObject setIndex st1) as [instance st2] eqn:E.
  assert (timersKept st1 st2) as H2.
  { unfold createInstance in E. injection E as <- <-. by apply timersKept_same. }
  simpl. eapply timersKept_trans; [exact H1|]. eapply timersKept_trans; [exact H2|].
  match goal with
  | |- timersKept _ (scheduleCompletion _ _ _ ?x) =>
      apply (timersKept_trans _ x); [|by eexists]
  end.
  match goal with
  | |- timersKept _ (match ?o with Some l => _ | None => ?y end) =>
      apply (timersKept_trans _ y);
      [|destruct o; [apply timersKept_foldl; intros; by eexists | apply timersKept_refl]]
  end.
  apply timersKept_foldl. intros. by eexists.
Qed.

Lemma executeScript_cancels_nothing setIndex scriptId st h :
  h ∈ pending st -> h ∈ pending (executeScript setIndex scriptId st).2.
Proof.
  assert (timersKept st (executeScript setIndex scriptId st).2) as [new Hnew].
  { unfold executeScript. destruct (getEyeSet st setIndex) as [e|]; [|apply timersKept_refl].
    destruct (negb (es_visible e)); [apply timersKept_refl|].
    pose proof (loadScript_timers scriptId st) as [Hl _].
    destruct (loadScript scriptId st) as [[so|] st1]; simpl in Hl;
      [|by apply timersKept_same].
    pose proof (startScript_timersKept setIndex scriptId so st1) as [new Hs].
    destruct (startScript setIndex scriptId so st1) as [i st2]. simpl in *.
    exists new. by rewrite Hs, Hl. }
  unfold pending. rewrite Hnew, fmap_app, elem_of_app. by left.
Qed.

(** C1 fails on the code. [long] runs on eye set 0; [short] is started on the
    same eye set and [executeScript] returns its instance: the two timers of
    the old instance are still pending, the old timeline action runs at its
    time, after the new script has come and gone. *)
Theorem executeScript_leaves_old_timers :
  (es_currentScript <$> getEyeSet longRunning 0) = Some (Some 0%nat) /\
  scheduledActionsOf longRunning 0 = [1%nat; 2%nat] /\
  (executeScript 0 "short" (set_clock 1000 longRunning)).1 = Some 1%nat /\
  scheduledActionsOf shortOverLong 1 = [3%nat; 4%nat] /\
  pending shortOverLong = [1%nat; 2%nat; 3%nat; 4%nat] /\
  timerOf shortOverLong 1 = Some (mkTimer 1 5000 (CbAction 0 (Some "blink"%string) noParams)) /\
  trace (fireTimer 1 shortOverLong)
    = trace shortOverLong ++ [EvHandler "blink" 0 noParams] /\
  trace (fireNext (fireNext (fireNext shortOverLong)))
    = trace shortOverLong
      ++ [EvHandler "widen" 0 noParams; EvStartEyeSetAnimations 0;
          EvHandler "blink" 0 noParams].
Proof. repeat split; vm_compute; reflexivity. Qed.

(** The completion timer of the old instance is left as well, and what it
    completes is whatever runs then: [long], started over [short], is ended
    by the completion timer of [short] before its own action ever ran. *)
Lemma old_completion_ends_new_script :
  (es_currentScript <$> getEyeSet longOverShort 0) = Some (Some 1%nat) /\
  pending longOverShort = [1%nat; 2%nat; 3%nat; 4%nat] /\
  (t_cb <$> timerOf longOverShort 2) = Some (CbComplete 0) /\
  clock (fireNext (fireNext longOverShort)) = 2000%Z /\
  getEyeSet (fireNext (fireNext longOverShort)) 0
    = Some (mkEyeSet AUTONOMOUS None 2000 true) /\
  pending (fireNext (fireNext longOverShort)) = [] /\
  trace (fireNext (fireNext longOverShort))
    = trace longOverShort ++ [EvHandler "widen" 0 noParams; EvStartEyeSetAnimations 0].
Proof. repeat split; vm_compute; reflexivity. Qed.

(** ** The director's cooldown stamp *)

(** C3, as the specification has it, fails: the draw yields [scripted], no
    script is eligible (none is loaded), [triggerDirectorScript] selects
    nothing and starts nothing, and the stamp moves all the same. *)
Lemma evaluateDirector_stamps_without_script :
  (weightedRandomChoice (d_triggerProbabilities (directorState directorPage)) directorPage).1
    = Some "scripted"%string /\
  (triggerDirectorScript 0 [0%nat] (mathRandom directorPage).2).2 = false /\
  getEyeSet (evaluateDirector directorPage) 0 = getEyeSet directorPage 0 /\
  d_lastScriptTime (directorState directorPage) = 0%Z /\
  d_lastScriptTime (directorState (evaluateSet 10000 [0%nat] directorPage 0)) = 10000%Z /\
  d_lastScriptTime (directorState (evaluateDirector directorPage)) = 10000%Z.
Proof. repeat split; vm_compute; reflexivity. Qed.

(** A turn of the evaluation loop whose draw yields [scripted] stamps. *)
Lemma evaluateSet_scripted_turn now visibleSets st idx set :
  getEyeSet st idx = Some set ->
  es_currentScript set = None ->
  (3000 <= now - es_lastBehaviorChange set)%Z ->
  (weightedRandomChoice (d_triggerProbabilities (directorState st)) st).1
    = Some "scripted"%string ->
  d_lastScriptTime (directorState (evaluateSet now visibleSets st idx)) = now.
Proof.
  intros Hset Hcur Hold Hdraw. unfold evaluateSet. rewrite Hset, Hcur.
  rewrite (bool_decide_eq_false_2 (is_Some None)) by (by intros [? ?]).
  assert ((now - es_lastBehaviorChange set <? 3000)%Z = false) as -> by lia.
  simpl. destruct (weightedRandomChoice _ st) as [action st1]. simpl in Hdraw. subst action.
  done.
Qed.

(** No turn of the loop takes the stamp of this evaluation away again. *)
Lemma evaluateSet_keeps_stamp now visibleSets st idx :
  d_lastScriptTime (directorState st) = now ->
  d_lastScriptTime (directorState (evaluateSet now visibleSets st idx)) = now.
Proof.
  intros Hnow. unfold evaluateSet. destruct (getEyeSet st idx) as [set|]; [|done].
  destruct (_ || _); [done|].
  unfold weightedRandomChoice.
  assert (directorState (mathRandom st).2 = directorState st) as Hr.
  { unfold mathRandom. by destruct (randoms st). }
  destruct (mathRandom st) as [r st1]. simpl in Hr.
  repeat case_bool_decide; try reflexivity;
    rewrite ?setEyeBehavior_directorState, Hr; exact Hnow.
Qed.

Lemma scheduleDirectorEvaluation_stamp st :
  d_lastScriptTime (directorState (scheduleDirectorEvaluation st))
  = d_lastScriptTime (directorState st).
Proof.
  unfold scheduleDirectorEvaluation. destruct (negb _); [done|].
  unfold mathRandom. by destruct (randoms st).
Qed.

(** C3, amended. When in a director evaluation the weighted draw for an eye
    set yields [scripted], the evaluation leaves [lastScriptTime], the one
    cooldown timestamp of the whole director, at the time of the evaluation,
    whether or not [triggerDirectorScript] selected a script. [before] are
    the visible eye sets that the loop handles first, [mid] is the state in
    which the turn of eye set [idx] starts. *)
Theorem evaluateDirector_scripted_stamps st before idx after set :
  d_enabled (directorState st) = true ->
  visibleSetsOf st = before ++ idx :: after ->
  (d_scriptCooldown (directorState st) <= clock st - d_lastScriptTime (directorState st))%Z ->
  let now := clock st in
  let mid := foldl (evaluateSet now (visibleSetsOf st)) st before in
  getEyeSet mid idx = Some set ->
  es_currentScript set = None ->
  (3000 <= now - es_lastBehaviorChange set)%Z ->
  (weightedRandomChoice (d_triggerProbabilities (directorState mid)) mid).1
    = Some "scripted"%string ->
  d_lastScriptTime (directorState (evaluateDirector st)) = now.
Proof.
  intros Hon Hvis Hcool now mid Hset Hcur Hold Hdraw.
  unfold evaluateDirector. rewrite Hon. simpl.
  rewrite (bool_decide_eq_false_2 (length (visibleSetsOf st) = 0%nat))
    by (rewrite Hvis, length_app; simpl; lia).
  assert ((clock st - d_lastScriptTime (directorState st)
           <? d_scriptCooldown (directorState st))%Z = false) as -> by lia.
  rewrite scheduleDirectorEvaluation_stamp.
  fold now. rewrite Hvis at 2. rewrite foldl_app. simpl. fold mid.
  generalize (evaluateSet_scripted_turn now (visibleSetsOf st) mid idx set
                Hset Hcur Hold Hdraw).
  generalize (evaluateSet now (visibleSetsOf st) mid idx). clear.
  induction after as [|x after IH]; intros s Hs; simpl; [done|].
  apply IH. by apply evaluateSet_keeps_stamp.
Qed.

Lemma evaluateDirector_scripted_stamps_witness :
  d_lastScriptTime (directorState (evaluateDirector directorPage)) = clock directorPage.
Proof.
  apply (evaluateDirector_scripted_stamps directorPage [] 0 [] (createEyeSet true)).
  - reflexivity.
  - vm_compute. reflexivity.
  - vm_compute. discriminate.
  - reflexivity.
  - reflexivity.
  - vm_compute. discriminate.
  - vm_compute. reflexivity.
Defined.

(** The stamp is global: while it is younger than the cooldown an evaluation
    looks at no eye set at all. *)
Lemma evaluateDirector_cooldown_skips st :
  d_enabled (directorState st) = true ->
  (clock st - d_lastScriptTime (directorState st) < d_scriptCooldown (directorState st))%Z ->
  evaluateDirector st = scheduleDirectorEvaluation st /\
  eyeSets (evaluateDirector st) = eyeSets st.
Proof.
  intros Hon Hcool. unfold evaluateDirector. rewrite Hon. simpl.
  assert (eyeSets (scheduleDirectorEvaluation st) = eyeSets st) as Hs.
  { unfold scheduleDirectorEvaluation. rewrite Hon. simpl.
    unfold mathRandom. by destruct (randoms st). }
  destruct (bool_decide _); [done|].
  assert ((clock st - d_lastScriptTime (directorState st)
           <? d_scriptCooldown (directorState st))%Z = true) as -> by lia.
  done.
Qed.

(** * Further properties of the code *)

(** ** A successful [executeScript] *)

Lemma scheduleOn_fields instance cb delay st :
  eyeSets (scheduleOn instance cb delay st) = eyeSets st /\
  clock (scheduleOn instance cb delay st) = clock st /\
  trace (scheduleOn instance cb delay st) = trace st /\
  scriptInstances (scheduleOn instance cb delay st) = scriptInstances st /\
  loadedScripts (scheduleOn instance cb delay st) = loadedScripts st /\
  directorState (scheduleOn instance cb delay st) = directorState st /\
  nextInstance (scheduleOn instance cb delay st) = nextInstance st.
Proof. done. Qed.

(** Scheduling a list of jobs on an instance: the timers are appended in
    order with consecutive fresh handles, and the instance holds exactly
    those handles in addition to what it held. *)
Lemma foldl_scheduleOn {A} (job : A -> Callback * Q) instance (l : list A) :
  forall st s0,
  instances st !! instance = Some s0 ->
  let st' := foldl (fun st a => scheduleOn instance (job a).1 (job a).2 st) st l in
  timers st' = timers st ++ scheduledTimers (nextHandle st) (clock st) (job <$> l) /\
  nextHandle st' = (nextHandle st + length l)%nat /\
  (exists s', instances st' !! instance = Some s' /\
     si_scheduledActions s' = si_scheduledActions s0 ++ seq (nextHandle st) (length l) /\
     si_isRunning s' = si_isRunning s0 /\ si_onComplete s' = si_onComplete s0 /\
     si_interactionInstances s' = si_interactionInstances s0 /\
     si_scriptObject s' = si_scriptObject s0 /\ si_setIndex s' = si_setIndex s0) /\
  eyeSets st' = eyeSets st /\ clock st' = clock st /\ trace st' = trace st /\
  scriptInstances st' = scriptInstances st /\ loadedScripts st' = loadedScripts st /\
  directorState st' = directorState st.
Proof.
  induction l as [|a l IH]; intros st s0 Hs0; simpl.
  - rewrite app_nil_r, Nat.add_0_r, app_nil_r. split; [done|]. split; [done|].
    split; [by exists s0|]. done.
  - set (st1 := scheduleOn instance (job a).1 (job a).2 st).
    assert (instances st1 !! instance = Some (push_scheduledAction (nextHandle st) s0)) as Hs1.
    { unfold st1, scheduleOn, updInstance. simpl. by rewrite lookup_alter_eq, Hs0. }
    destruct (IH st1 _ Hs1) as (Ht & Hn & (s' & Hs' & Hsa & Hrun & Hoc & Hii & Hso & Hsi) & Hrest).
    assert (nextHandle st1 = S (nextHandle st)) as Hn1 by done.
    assert (clock st1 = clock st) as Hc1 by done.
    assert (timers st1 = timers st
              ++ [mkTimer (nextHandle st) (inject_Z (clock st) + Qmax 0 (job a).2) (job a).1])
      as Ht1 by done.
    rewrite Hn1, Hc1 in *. split; [|split; [|split]].
    + rewrite Ht, Ht1, <- app_assoc. simpl. by destruct (job a).
    + lia.
    + exists s'. split; [done|]. split; [|done].
      rewrite Hsa. simpl. by rewrite <- app_assoc.
    + destruct Hrest as (-> & -> & -> & -> & -> & ->). done.
Qed.

(** [startScript] is: enter the scripted behavior, create the instance,
    schedule the script's jobs one after the other. *)
Lemma startScript_jobs setIndex scriptId scriptObject st :
  startScript setIndex scriptId scriptObject st
  = let created := createInstance scriptObject setIndex (enterScripted setIndex st) in
    (created.1,
     foldl (fun st j => scheduleOn created.1 j.1 j.2 st) created.2
       (scriptJobs setIndex created.1 scriptId scriptObject)).
Proof.
  unfold startScript, scriptJobs. cbv zeta.
  destruct (createInstance scriptObject setIndex (enterScripted setIndex st))
    as [instance st2]. simpl. f_equal.
  rewrite !foldl_app, !foldl_fmap. simpl.
  unfold scheduleCompletion. f_equal.
  by destruct (so_interactions scriptObject).
Qed.

Lemma length_scriptJobs setIndex instance scriptId scriptObject :
  length (scriptJobs setIndex instance scriptId scriptObject)
  = (length (default [] (so_timeline scriptObject))
     + length (default [] (so_interactions scriptObject)) + 1)%nat.
Proof. unfold scriptJobs. rewrite !length_app, !length_fmap. simpl. lia. Qed.

Lemma getEyeSet_createInstance scriptObject setIndex st eyeSet :
  getEyeSet st setIndex = Some eyeSet ->
  getEyeSet (createInstance scriptObject setIndex st).2 setIndex
  = Some (with_currentScript (Some (nextInstance st)) eyeSet).
Proof.
  intros H. unfold createInstance, getEyeSet in *. simpl.
  rewrite list_lookup_alter_eq.
  destruct (eyeSets st !! setIndex) as [[e|]|]; simpl in *; congruence.
Qed.

(** What [startScript] leaves behind. *)
Lemma startScript_result setIndex scriptId scriptObject st eyeSet :
  getEyeSet st setIndex = Some eyeSet ->
  let instance := nextInstance st in
  let jobs := scriptJobs setIndex instance scriptId scriptObject in
  let st' := (startScript setIndex scriptId scriptObject st).2 in
  (startScript setIndex scriptId scriptObject st).1 = instance /\
  timers st' = timers st ++ scheduledTimers (nextHandle st) (clock st) jobs /\
  nextHandle st' = (nextHandle st + length jobs)%nat /\
  (exists s', instances st' !! instance = Some s' /\
     si_scheduledActions s' = seq (nextHandle st) (length jobs) /\
     si_isRunning s' = true /\ si_onComplete s' = None /\
     si_interactionInstances s' = [] /\
     si_scriptObject s' = scriptObject /\ si_setIndex s' = setIndex) /\
  getEyeSet st' setIndex
    = Some (mkEyeSet SCRIPTED (Some instance) (clock st) (es_visible eyeSet)) /\
  clock st' = clock st /\
  trace st' = trace st ++ [EvStopEyeSetAnimations setIndex] /\
  scriptInstances st' !! setIndex = Some instance /\
  loadedScripts st' = loadedScripts st /\
  directorState st' = directorState st.
Proof.
  intros Hset instance jobs st'. unfold st'. rewrite startScript_jobs. cbv zeta.
  set (st1 := enterScripted setIndex st).
  assert (getEyeSet st1 setIndex
          = Some (with_lastBehaviorChange (clock st) (with_behavior SCRIPTED eyeSet))) as H1.
  { unfold st1, enterScripted. cbv zeta.
    apply (getEyeSet_updEyeSet_eq setIndex (with_lastBehaviorChange _)
             (updEyeSet setIndex (with_behavior SCRIPTED) (stopEyeSetAnimations setIndex st))).
    by apply (getEyeSet_updEyeSet_eq setIndex (with_behavior SCRIPTED)
                (stopEyeSetAnimations setIndex st)). }
  set (created := createInstance scriptObject setIndex st1).
  assert (created.1 = instance) as Hi by done.
  assert (getEyeSet created.2 setIndex
          = Some (mkEyeSet SCRIPTED (Some instance) (clock st) (es_visible eyeSet))) as H2.
  { unfold created. by rewrite (getEyeSet_createInstance _ _ _ _ H1). }
  assert (instances created.2 !! instance
          = Some (mkScriptInstance scriptObject setIndex (clock st) [] [] true None)) as H3.
  { unfold created, createInstance. simpl. apply lookup_insert_eq. }
  assert (timers created.2 = timers st /\ nextHandle created.2 = nextHandle st /\
          clock created.2 = clock st /\
          trace created.2 = trace st ++ [EvStopEyeSetAnimations setIndex] /\
          scriptInstances created.2 !! setIndex = Some instance /\
          loadedScripts created.2 = loadedScripts st /\
          directorState created.2 = directorState st)
    as (Ht0 & Hn0 & Hc0 & Htr0 & Hsc0 & Hl0 & Hd0).
  { repeat split; try done. unfold created, createInstance. simpl. apply lookup_insert_eq. }
  destruct created as [i0 stB]. simpl in Hi, H2, H3, Ht0, Hn0, Hc0, Htr0, Hsc0, Hl0, Hd0.
  subst i0. cbn [fst snd].
  destruct (foldl_scheduleOn id instance jobs stB _ H3)
    as (Ht & Hn & (s' & Hs' & Hsa & Hrun & Hoc & Hii & Hso & Hsi) & He & Hc & Htr & Hsc & Hl & Hd).
  rewrite list_fmap_id in Ht. cbv zeta in *.
  change (fun (st0 : State) (a : Callback * Q) => scheduleOn instance (id a).1 (id a).2 st0)
    with (fun (st0 : State) (a : Callback * Q) => scheduleOn instance a.1 a.2 st0) in *.
  fold jobs.
  set (stF := foldl _ stB jobs) in *. clearbody stF.
  rewrite Ht0, Hn0, Hc0 in Ht. rewrite Hn0 in Hn, Hsa.
  split; [done|]. split; [exact Ht|]. split; [exact Hn|].
  split; [exists s'; by repeat split|].
  split; [unfold getEyeSet; rewrite He; exact H2|].
  split; [by rewrite Hc|]. split; [by rewrite Htr|].
  split; [by rewrite Hsc|].
  split; [by rewrite Hl | by rewrite Hd].
Qed.

(** [loadScript] changes nothing but the cache, and the cache by at most the
    entry it was asked for. *)
Lemma loadScript_state scriptId st :
  (loadScript scriptId st).2 = st \/
  exists so, (loadScript scriptId st).1 = Some so /\
             loadedScripts st !! scriptId = None /\
             (loadScript scriptId st).2 = set_loadedScripts (insert scriptId so) st.
Proof.
  unfold loadScript. destruct (loadedScripts st !! scriptId) eqn:Hc; [by left|].
  destruct (scriptDirectory st !! scriptId) as [doc|]; [|by left].
  destruct (prepareScript doc) as [so|]; [|by left]. right. by exists so.
Qed.

Lemma loadScript_cached scriptId st so st1 :
  loadScript scriptId st = (Some so, st1) -> loadedScripts st1 !! scriptId = Some so.
Proof.
  unfold loadScript. destruct (loadedScripts st !! scriptId) eqn:Hc.
  - by intros [= <- <-].
  - destruct (scriptDirectory st !! scriptId) as [doc|]; [|done].
    destruct (prepareScript doc) as [so'|]; [|done].
    intros [= <- <-]. simpl. apply lookup_insert_eq.
Qed.

(** What a successful [executeScript] leaves behind. *)
Lemma executeScript_result st setIndex scriptId eyeSet scriptObject st1 :
  getEyeSet st setIndex = Some eyeSet ->
  es_visible eyeSet = true ->
  loadScript scriptId st = (Some scriptObject, st1) ->
  let instance := nextInstance st in
  let jobs := scriptJobs setIndex instance scriptId scriptObject in
  let st' := (executeScript setIndex scriptId st).2 in
  (executeScript setIndex scriptId st).1 = Some instance /\
  getEyeSet st' setIndex = Some (mkEyeSet SCRIPTED (Some instance) (clock st) true) /\
  scriptInstances st' !! setIndex = Some instance /\
  timers st' = timers st ++ scheduledTimers (nextHandle st) (clock st) jobs /\
  nextHandle st' = (nextHandle st + length jobs)%nat /\
  (exists s', instances st' !! instance = Some s' /\
     si_scheduledActions s' = seq (nextHandle st) (length jobs) /\
     si_isRunning s' = true /\ si_onComplete s' = None /\
     si_interactionInstances s' = [] /\
     si_scriptObject s' = scriptObject /\ si_setIndex s' = setIndex) /\
  clock st' = clock st /\
  trace st' = trace st ++ [EvStopEyeSetAnimations setIndex] /\
  loadedScripts st' = loadedScripts st1 /\
  directorState st' = directorState st.
Proof.
  intros Hset Hvis Hload instance jobs st'.
  assert (getEyeSet st1 setIndex = Some eyeSet /\ nextInstance st1 = nextInstance st /\
          timers st1 = timers st /\ nextHandle st1 = nextHandle st /\
          clock st1 = clock st /\ trace st1 = trace st /\
          directorState st1 = directorState st)
    as (He1 & Hi1 & Ht1 & Hn1 & Hc1 & Htr1 & Hd1).
  { destruct (loadScript_state scriptId st) as [H|(so & _ & _ & H)];
      rewrite Hload in H; simpl in H; by rewrite H. }
  pose proof (startScript_result setIndex scriptId scriptObject st1 eyeSet He1) as Hres.
  assert (executeScript setIndex scriptId st
          = (Some (startScript setIndex scriptId scriptObject st1).1,
             (startScript setIndex scriptId scriptObject st1).2)) as Hexec.
  { unfold executeScript. rewrite Hset, Hvis, Hload. simpl.
    by destruct (startScript setIndex scriptId scriptObject st1). }
  unfold st'. rewrite Hexec. cbn [fst snd]. cbv zeta in Hres.
  set (stF := (startScript setIndex scriptId scriptObject st1).2) in *. clearbody stF.
  rewrite Hi1, Ht1, Hn1, Hc1, Hvis, Htr1, Hd1 in Hres.
  destruct Hres as (-> & ? & ? & ? & ? & ? & ? & ? & ? & ?).
  subst instance jobs. by repeat split.
Qed.

(** X1. On a visible eye set and with a script that loads, [executeScript]
    returns a new instance and has, when it returns, made the eye set scripted
    with that instance as its current script, stamped the time, asked the
    rendering layer once to stop the idle animation, and scheduled, behind
    the timers that were pending, one timer per timeline entry at
    [entry.time] seconds from now, one per interaction at its [startTime],
    and one for completion at [duration], in this order; the instance holds
    exactly the handles of these timers. *)
Theorem executeScript_starts_script st setIndex scriptId eyeSet scriptObject st1 :
  getEyeSet st setIndex = Some eyeSet ->
  es_visible eyeSet = true ->
  loadScript scriptId st = (Some scriptObject, st1) ->
  let instance := nextInstance st in
  let jobs := scriptJobs setIndex instance scriptId scriptObject in
  let st' := (executeScript setIndex scriptId st).2 in
  (executeScript setIndex scriptId st).1 = Some instance /\
  getEyeSet st' setIndex = Some (mkEyeSet SCRIPTED (Some instance) (clock st) true) /\
  scriptInstances st' !! setIndex = Some instance /\
  timers st' = timers st ++ scheduledTimers (nextHandle st) (clock st) jobs /\
  scheduledActionsOf st' instance = seq (nextHandle st) (length jobs) /\
  (si_isRunning <$> instances st' !! instance) = Some true /\
  trace st' = trace st ++ [EvStopEyeSetAnimations setIndex] /\
  loadedScripts st' !! scriptId = Some scriptObject.
Proof.
  intros Hset Hvis Hload instance jobs st'.
  destruct (executeScript_result st setIndex scriptId eyeSet scriptObject st1 Hset Hvis Hload)
    as (Hr & He & Hsc & Ht & _ & (s' & Hs' & Hsa & Hrun & _) & _ & Htr & Hl & _).
  subst instance jobs st'.
  split; [done|]. split; [done|]. split; [done|]. split; [done|].
  split; [unfold scheduledActionsOf; by rewrite Hs'|].
  split; [by rewrite Hs', <- Hrun|].
  split; [done|]. rewrite Hl. by apply (loadScript_cached _ st).
Qed.

Lemma executeScript_starts_script_witness :
  (executeScript 0 "parent" Ex.page).1 = Some 0%nat /\
  getEyeSet withParent 0 = Some (mkEyeSet SCRIPTED (Some 0%nat) 0 true) /\
  scriptInstances withParent !! 0%nat = Some 0%nat /\
  timers withParent
    = timers Ex.page ++ scheduledTimers 1 0 (scriptJobs 0 0 "parent" Ex.parent) /\
  scheduledActionsOf withParent 0 = seq 1 (length (scriptJobs 0 0 "parent" Ex.parent)) /\
  (si_isRunning <$> instances withParent !! 0%nat) = Some true /\
  trace withParent = trace Ex.page ++ [EvStopEyeSetAnimations 0] /\
  loadedScripts withParent !! "parent"%string = Some Ex.parent.
Proof.
  apply (executeScript_starts_script Ex.page 0 "parent" (createEyeSet true) Ex.parent
           (loadScript "parent" Ex.page).2).
  - reflexivity.
  - reflexivity.
  - vm_compute. reflexivity.
Defined.

(** ** Pending timers have issued handles *)

Lemma pendingIssued_same st st' :
  timers st' = timers st -> (nextHandle st <= nextHandle st')%nat ->
  pendingIssued st -> pendingIssued st'.
Proof.
  intros Ht Hn Hinv h. unfold pending. rewrite Ht. intros Hh.
  specialize (Hinv h Hh). lia.
Qed.

Lemma pendingIssued_setTimeout cb delay st :
  pendingIssued st -> pendingIssued (setTimeout cb delay st).2.
Proof.
  intros Hinv h. rewrite pending_setTimeout, elem_of_app, list_elem_of_singleton.
  simpl. intros [Hh| ->]; [|lia]. specialize (Hinv h Hh). lia.
Qed.

Lemma pendingIssued_later st st' :
  pendingIssued st -> later st st' -> pendingIssued st'.
Proof.
  intros Hinv Hl. revert Hinv.
  apply (R_later (fun st st' => pendingIssued st -> pendingIssued st')); [..|exact Hl].
  - auto.
  - auto.
  - intros s s' Ht Hn _ _ _. apply pendingIssued_same; [done | lia].
  - apply pendingIssued_setTimeout.
  - intros instance cb delay s Hs.
    apply (pendingIssued_same (setTimeout cb delay s).2); [done..|].
    by apply pendingIssued_setTimeout.
  - intros h s Hs h' Hh. apply pending_clearTimeout in Hh as [Hh _]. by apply Hs.
  - intros scriptObject setIndex s. by apply pendingIssued_same.
  - intros instance f s _. by apply pendingIssued_same.
  - intros scriptId s. destruct (loadScript_timers scriptId s) as [Ht Hn].
    apply pendingIssued_same; [done | lia].
Qed.

Lemma pendingIssued_start sets dir now rs : pendingIssued (startState sets dir now rs).
Proof. intros h Hh. by apply elem_of_nil in Hh. Qed.

Lemma handles_scheduledTimers jobs : forall h now,
  t_handle <$> scheduledTimers h now jobs = seq h (length jobs).
Proof.
  induction jobs as [|[cb delay] jobs IH]; intros h now; simpl; [done|].
  by rewrite IH.
Qed.

(** ** Starting and stopping *)

(** X2. Starting a script and stopping it again leaves no timer behind:
    exactly the timers that were pending before [executeScript] are pending
    after [stopScript]; the eye set is autonomous without a current script,
    and the rendering layer was asked to stop and then to resume the idle
    animation. *)
Theorem executeScript_then_stopScript st setIndex scriptId eyeSet scriptObject st1 :
  pendingIssued st ->
  getEyeSet st setIndex = Some eyeSet ->
  es_visible eyeSet = true ->
  loadScript scriptId st = (Some scriptObject, st1) ->
  let st' := stopScript setIndex (executeScript setIndex scriptId st).2 in
  (forall h, h ∈ pending st' <-> h ∈ pending st) /\
  getEyeSet st' setIndex = Some (mkEyeSet AUTONOMOUS None (clock st) true) /\
  scriptInstances st' !! setIndex = None /\
  trace st' = trace st ++ [EvStopEyeSetAnimations setIndex; EvStartEyeSetAnimations setIndex].
Proof.
  intros Hissued Hset Hvis Hload st'.
  destruct (executeScript_result st setIndex scriptId eyeSet scriptObject st1 Hset Hvis Hload)
    as (_ & He & _ & Ht & _ & (s' & Hs' & Hsa & _ & Hoc & _) & Hc & Htr & _).
  set (stE := (executeScript setIndex scriptId st).2) in *.
  set (instance := nextInstance st) in *.
  set (jobs := scriptJobs setIndex instance scriptId scriptObject) in *.
  assert (scheduledActionsOf stE instance = seq (nextHandle st) (length jobs)) as Hown.
  { unfold scheduledActionsOf. by rewrite Hs'. }
  assert (onCompleteOf stE instance = None) as Hnone.
  { unfold onCompleteOf. by rewrite Hs'. }
  unfold st'. rewrite (stopScript_running stE setIndex _ instance He eq_refl).
  split; [|split; [|split]].
  - intros h. rewrite (completeScript_pending stE setIndex _ instance He eq_refl), Hown.
    unfold pending at 1. rewrite Ht, fmap_app, handles_scheduledTimers, elem_of_app.
    fold (pending st). split.
    + intros [[?|?] ?]; done.
    + intros Hh. split; [by left|]. intros Hin%elem_of_seq.
      specialize (Hissued h Hh). lia.
  - destruct (completeScript_eyeSet stE setIndex _ instance He eq_refl) as [H _].
    by rewrite H, Hc.
  - by destruct (completeScript_eyeSet stE setIndex _ instance He eq_refl) as [_ H].
  - rewrite (completeScript_trace stE setIndex _ instance He eq_refl), Hnone, Htr.
    by rewrite <- app_assoc.
Qed.

Lemma executeScript_then_stopScript_witness :
  let st' := stopScript 1 (executeScript 1 "short" longRunning).2 in
  (forall h, h ∈ pending st' <-> h ∈ pending longRunning) /\
  getEyeSet st' 1 = Some (mkEyeSet AUTONOMOUS None (clock longRunning) true) /\
  scriptInstances st' !! 1%nat = None /\
  trace st' = trace longRunning ++ [EvStopEyeSetAnimations 1; EvStartEyeSetAnimations 1].
Proof.
  apply (executeScript_then_stopScript longRunning 1 "short" (createEyeSet true) Ex.short
           (loadScript "short" longRunning).2).
  - apply (pendingIssued_later Ex.page); [apply pendingIssued_start|].
    apply rtc_once, step_executeScript.
  - reflexivity.
  - reflexivity.
  - vm_compute. reflexivity.
Defined.

(** X3. [stopScript] is idempotent: a second call changes nothing, and on
    an eye set that does not exist or runs no script the first call changes
    nothing either. *)
Theorem stopScript_idempotent st setIndex :
  stopScript setIndex (stopScript setIndex st) = stopScript setIndex st /\
  (getEyeSet st setIndex ≫= es_currentScript = None -> stopScript setIndex st = st).
Proof.
  split.
  - unfold stopScript at 2 3.
    destruct (getEyeSet st setIndex) as [e|] eqn:He; [|by unfold stopScript; rewrite He].
    destruct (es_currentScript e) as [instance|] eqn:Hc;
      [|by unfold stopScript; rewrite He, Hc].
    destruct (completeScript_eyeSet st setIndex e instance He Hc) as [H _].
    unfold stopScript. by rewrite H.
  - unfold stopScript. destruct (getEyeSet st setIndex) as [e|]; [|done]. simpl.
    by intros ->.
Qed.

Lemma stopScript_idempotent_witness :
  stopScript 0 (stopScript 0 withChild) = stopScript 0 withChild /\
  stopScript 2 withChild = withChild.
Proof.
  split.
  - apply (stopScript_idempotent withChild 0).
  - apply (stopScript_idempotent withChild 2). reflexivity.
Defined.

(** ** Switching behaviors *)

Lemma startNewBehavior_fields setIndex b st :
  trace (startNewBehavior setIndex b st) = trace st ++ startEvents setIndex b /\
  timers (startNewBehavior setIndex b st) = timers st /\
  nextHandle (startNewBehavior setIndex b st) = nextHandle st /\
  clock (startNewBehavior setIndex b st) = clock st /\
  instances (startNewBehavior setIndex b st) = instances st /\
  nextInstance (startNewBehavior setIndex b st) = nextInstance st /\
  loadedScripts (startNewBehavior setIndex b st) = loadedScripts st /\
  scriptDirectory (startNewBehavior setIndex b st) = scriptDirectory st /\
  defaultScripts (startNewBehavior setIndex b st) = defaultScripts st /\
  scriptInstances (startNewBehavior setIndex b st) = scriptInstances st.
Proof.
  unfold startNewBehavior. destruct b; simpl; rewrite ?app_nil_r; done.
Qed.

(** [setEyeBehavior] on an eye set that runs no script as its scripted
    behavior. *)
Lemma setEyeBehavior_idle setIndex b st eyeSet :
  getEyeSet st setIndex = Some eyeSet ->
  es_behavior eyeSet <> SCRIPTED \/ es_currentScript eyeSet = None ->
  let stopped := if bool_decide (es_behavior eyeSet = TRACKING)
                 then EvStopEyeSetTracking setIndex else EvStopEyeSetAnimations setIndex in
  let st' := setEyeBehavior setIndex b st in
  getEyeSet st' setIndex
    = Some (mkEyeSet b (es_currentScript eyeSet) (clock st) (es_visible eyeSet)) /\
  trace st' = trace st ++ [stopped] ++ startEvents setIndex b ++ [EvSaveState] /\
  timers st' = timers st /\ nextHandle st' = nextHandle st /\ clock st' = clock st /\
  instances st' = instances st /\ nextInstance st' = nextInstance st /\
  loadedScripts st' = loadedScripts st /\ scriptDirectory st' = scriptDirectory st /\
  defaultScripts st' = defaultScripts st.
Proof.
  intros He Hidle stopped st'. unfold st', setEyeBehavior. rewrite He. cbv zeta.
  assert (stopCurrentBehavior setIndex eyeSet st = emit stopped st) as ->.
  { unfold stopCurrentBehavior, stopped.
    assert (bool_decide (es_behavior eyeSet = SCRIPTED)
            && bool_decide (is_Some (es_currentScript eyeSet)) = false) as ->.
    { destruct Hidle as [H|H].
      - by rewrite (bool_decide_eq_false_2 _ H).
      - rewrite H, (bool_decide_eq_false_2 (is_Some None)) by (by intros [? ?]).
        apply andb_false_r. }
    by destruct (bool_decide _). }
  assert (getEyeSet (emit stopped st) setIndex = Some eyeSet) as He1 by done.
  destruct (startNewBehavior_sets setIndex b _ eyeSet He1) as [H1 _].
  destruct (startNewBehavior_fields setIndex b (emit stopped st))
    as (Htr & Ht & Hn & Hc & Hi & Hni & Hl & Hd & Hds & _).
  set (stN := startNewBehavior setIndex b (emit stopped st)) in *. clearbody stN.
  split; [exact H1|]. split; [simpl; rewrite Htr; simpl; by rewrite <- !app_assoc|].
  simpl. by rewrite Ht, Hn, Hc, Hi, Hni, Hl, Hd, Hds.
Qed.

(** X4. On an eye set that exists and runs no script as its scripted
    behavior, [setEyeBehavior] sets the behavior, stamps the time, leaves
    visibility, current script and all timers as they were, and calls, in
    this order, the stop hook of the old behavior (tracking or idle
    animation), the start hook of the new one (none for scripted, which is
    started through [executeScript]) and the persistence hook. *)
Theorem setEyeBehavior_switches setIndex b st eyeSet :
  getEyeSet st setIndex = Some eyeSet ->
  es_behavior eyeSet <> SCRIPTED \/ es_currentScript eyeSet = None ->
  let stopped := if bool_decide (es_behavior eyeSet = TRACKING)
                 then EvStopEyeSetTracking setIndex else EvStopEyeSetAnimations setIndex in
  let st' := setEyeBehavior setIndex b st in
  getEyeSet st' setIndex
    = Some (mkEyeSet b (es_currentScript eyeSet) (clock st) (es_visible eyeSet)) /\
  trace st' = trace st ++ [stopped] ++ startEvents setIndex b ++ [EvSaveState] /\
  timers st' = timers st.
Proof.
  intros He Hidle stopped st'.
  destruct (setEyeBehavior_idle setIndex b st eyeSet He Hidle) as (H1 & H2 & H3 & _).
  done.
Qed.

Lemma setEyeBehavior_switches_witness :
  let st' := setEyeBehavior 1 TRACKING longRunning in
  getEyeSet st' 1 = Some (mkEyeSet TRACKING None (clock longRunning) true) /\
  trace st' = trace longRunning ++ [EvStopEyeSetAnimations 1]
              ++ startEvents 1 TRACKING ++ [EvSaveState] /\
  timers st' = timers longRunning.
Proof.
  apply (setEyeBehavior_switches 1 TRACKING longRunning (createEyeSet true)).
  - reflexivity.
  - left. discriminate.
Defined.

(** [setEyeBehavior] on an eye set that runs a script as its scripted
    behavior. *)
Lemma setEyeBehavior_running setIndex b st eyeSet instance :
  getEyeSet st setIndex = Some eyeSet ->
  es_behavior eyeSet = SCRIPTED ->
  es_currentScript eyeSet = Some instance ->
  let st' := setEyeBehavior setIndex b st in
  getEyeSet st' setIndex = Some (mkEyeSet b None (clock st) (es_visible eyeSet)) /\
  (forall h, h ∈ pending st' <->
     (h ∈ pending st /\ (h ∉ scheduledActionsOf st instance))) /\
  scriptInstances st' !! setIndex = None /\
  trace st' = trace st ++ onCompleteEvents (onCompleteOf st instance)
              ++ [EvStartEyeSetAnimations setIndex]
              ++ startEvents setIndex b ++ [EvSaveState].
Proof.
  intros He Hb Hc st'. unfold st', setEyeBehavior. rewrite He. cbv zeta.
  assert (stopCurrentBehavior setIndex eyeSet st = completeScript setIndex st) as ->.
  { unfold stopCurrentBehavior. rewrite Hb, Hc.
    rewrite bool_decide_eq_true_2 by done. rewrite bool_decide_eq_true_2 by eauto.
    simpl. by apply (stopScript_running st setIndex eyeSet instance). }
  destruct (completeScript_eyeSet st setIndex eyeSet instance He Hc) as [He1 Hsi].
  pose proof (completeScript_pending st setIndex eyeSet instance He Hc) as Hp.
  pose proof (completeScript_trace st setIndex eyeSet instance He Hc) as Htr1.
  pose proof (completeScript_clock setIndex st) as Hc1.
  set (stC := completeScript setIndex st) in *. clearbody stC.
  destruct (startNewBehavior_sets setIndex b _ _ He1) as [H1 _].
  destruct (startNewBehavior_fields setIndex b stC)
    as (Htr & Ht & _ & _ & _ & _ & _ & _ & _ & Hs).
  set (stN := startNewBehavior setIndex b stC) in *. clearbody stN.
  split; [by rewrite <- Hc1|]. split; [|split].
  - intros h. rewrite <- Hp. unfold pending. simpl. by rewrite Ht.
  - simpl. by rewrite Hs.
  - simpl. rewrite Htr, Htr1. unfold onCompleteEvents.
    by rewrite <- !app_assoc.
Qed.

(** X5. On an eye set whose behavior is scripted and that runs a script,
    [setEyeBehavior] stops that script first: every timer of the instance is
    cancelled and no other, [onComplete] is called if set, the current script
    is cleared; then the behavior is set and stamped. The idle animation that
    the end of the script resumes is not stopped again before the new
    behavior is started. *)
Theorem setEyeBehavior_stops_script setIndex b st eyeSet instance :
  getEyeSet st setIndex = Some eyeSet ->
  es_behavior eyeSet = SCRIPTED ->
  es_currentScript eyeSet = Some instance ->
  let st' := setEyeBehavior setIndex b st in
  getEyeSet st' setIndex = Some (mkEyeSet b None (clock st) (es_visible eyeSet)) /\
  (forall h, h ∈ pending st' <->
     (h ∈ pending st /\ (h ∉ scheduledActionsOf st instance))) /\
  scriptInstances st' !! setIndex = None /\
  trace st' = trace st ++ onCompleteEvents (onCompleteOf st instance)
              ++ [EvStartEyeSetAnimations setIndex]
              ++ startEvents setIndex b ++ [EvSaveState].
Proof. apply setEyeBehavior_running. Qed.

Lemma setEyeBehavior_stops_script_witness :
  let st' := setEyeBehavior 0 TRACKING withChild in
  getEyeSet st' 0 = Some (mkEyeSet TRACKING None (clock withChild) true) /\
  (forall h, h ∈ pending st' <->
     (h ∈ pending withChild /\ (h ∉ scheduledActionsOf withChild 0))) /\
  scriptInstances st' !! 0%nat = None /\
  trace st' = trace withChild ++ onCompleteEvents (onCompleteOf withChild 0)
              ++ [EvStartEyeSetAnimations 0]
              ++ startEvents 0 TRACKING ++ [EvSaveState].
Proof.
  apply (setEyeBehavior_stops_script 0 TRACKING withChild
           (mkEyeSet SCRIPTED (Some 0%nat) 0 true) 0).
  - vm_compute. reflexivity.
  - reflexivity.
  - reflexivity.
Defined.






(** ** More of the script store *)

(** X7. Loading is a round trip through the cache: after a load that
    returned a definition, loading the same script again returns the same
    definition and changes nothing; a load that returned [null] changed
    nothing, so the next request tries again from the directory. *)
Theorem loadScript_again st scriptId :
  (forall so st1, loadScript scriptId st = (Some so, st1) ->
     loadScript scriptId st1 = (Some so, st1)) /\
  ((loadScript scriptId st).1 = None ->
     (loadScript scriptId st).2 = st /\ loadedScripts st !! scriptId = None).
Proof.
  split.
  - intros so st1 Hload. pose proof (loadScript_cached _ _ _ _ Hload) as Hc.
    unfold loadScript. by rewrite Hc.
  - intros Hnone. rewrite (loadScript_None _ _ Hnone). split; [done|].
    unfold loadScript in Hnone. by destruct (loadedScripts st !! scriptId).
Qed.

Lemma loadScript_again_witness :
  loadScript "short" (loadScript "short" Ex.page).2
    = (Some Ex.short, (loadScript "short" Ex.page).2) /\
  (loadScript "missing" Ex.page).2 = Ex.page /\
  loadedScripts Ex.page !! "missing"%string = None.
Proof.
  split.
  - apply (loadScript_again Ex.page "short"). vm_compute. reflexivity.
  - apply (loadScript_again Ex.page "missing"). vm_compute. reflexivity.
Defined.

(** X8. A cached definition is never evicted or replaced: whatever happens
    later, a script that is in the cache stays there as it is. *)
Theorem cache_is_permanent st st' scriptId so :
  later st st' ->
  loadedScripts st !! scriptId = Some so ->
  loadedScripts st' !! scriptId = Some so.
Proof.
  intros Hl. revert scriptId so.
  apply (R_later (fun st st' => forall id so,
           loadedScripts st !! id = Some so -> loadedScripts st' !! id = Some so));
    [..|exact Hl]; try (intros; simpl; assumption).
  - auto.
  - intros s s' _ _ _ Hc _ id so. by rewrite Hc.
  - intros scriptId s id so Hso.
    destruct (loadScript_state scriptId s) as [->|(so' & _ & Hnone & ->)]; [done|].
    simpl. rewrite lookup_insert_ne; [done|]. congruence.
Qed.

Lemma cache_is_permanent_witness :
  loadedScripts (stopScript 0 withChild) !! "parent"%string = Some Ex.parent.
Proof.
  apply (cache_is_permanent withParent (stopScript 0 withChild)).
  - apply (rtc_l _ _ withChild).
    + replace withChild with (fireTimer 2 withParent) by (vm_compute; reflexivity).
      apply step_fire. vm_compute. apply list_elem_of_In. simpl. tauto.
    + apply rtc_once, step_stopScript.
  - vm_compute. reflexivity.
Defined.

(** The cache after one [loadScript]. *)
Lemma loadScript_lookup scriptId st id :
  loadedScripts (loadScript scriptId st).2 !! id
  = match loadedScripts st !! id with
    | Some so => Some so
    | None => if decide (id = scriptId)
              then scriptDirectory st !! scriptId ≫= prepareScript else None
    end.
Proof.
  unfold loadScript. destruct (loadedScripts st !! scriptId) as [c|] eqn:Hc.
  - simpl. destruct (loadedScripts st !! id) eqn:Hid; [done|].
    case_decide; [congruence | done].
  - destruct (scriptDirectory st !! scriptId) as [doc|] eqn:Hd; simpl.
    + destruct (prepareScript doc) as [so|] eqn:Hp; simpl.
      * rewrite lookup_insert. case_decide as Hk.
        -- subst id. rewrite Hc. by rewrite decide_True.
        -- destruct (loadedScripts st !! id); [done|]. by rewrite decide_False.
      * destruct (loadedScripts st !! id) eqn:Hid; [done|].
        case_decide; [by subst|done].
    + destruct (loadedScripts st !! id) eqn:Hid; [done|]. by case_decide.
Qed.

Lemma loadScript_frame scriptId st :
  scriptDirectory (loadScript scriptId st).2 = scriptDirectory st /\
  eyeSets (loadScript scriptId st).2 = eyeSets st /\
  instances (loadScript scriptId st).2 = instances st /\
  timers (loadScript scriptId st).2 = timers st /\
  trace (loadScript scriptId st).2 = trace st /\
  directorState (loadScript scriptId st).2 = directorState st.
Proof.
  destruct (loadScript_state scriptId st) as [->|(so & _ & _ & ->)]; done.
Qed.

Lemma loadAll_lookup ids : forall st id,
  let st' := foldl (fun st id => (loadScript id st).2) st ids in
  loadedScripts st' !! id
  = match loadedScripts st !! id with
    | Some so => Some so
    | None => if decide (id ∈ ids)
              then scriptDirectory st !! id ≫= prepareScript else None
    end /\
  scriptDirectory st' = scriptDirectory st /\ eyeSets st' = eyeSets st /\
  instances st' = instances st /\ timers st' = timers st /\ trace st' = trace st /\
  directorState st' = directorState st.
Proof.
  induction ids as [|a ids IH]; intros st id; simpl.
  - split; [|done]. destruct (loadedScripts st !! id); [done|].
    destruct (decide (id ∈ [])) as [H|H]; [by apply elem_of_nil in H | done].
  - destruct (IH (loadScript a st).2 id) as (Hl & Hd & He & Hi & Ht & Htr & Hds).
    destruct (loadScript_frame a st) as (Hd1 & He1 & Hi1 & Ht1 & Htr1 & Hds1).
    split; [|by rewrite Hd, He, Hi, Ht, Htr, Hds].
    rewrite Hl, loadScript_lookup, Hd1.
    destruct (loadedScripts st !! id) eqn:Hid; [done|].
    destruct (decide (id = a)) as [->|Hne].
    + rewrite (decide_True (P := a ∈ a :: ids)) by apply list_elem_of_here.
      destruct (scriptDirectory st !! a ≫= prepareScript) eqn:Hp; [done|].
      by case_decide.
    + destruct (decide (id ∈ ids)) as [Hin|Hnin].
      * by rewrite (decide_True (P := id ∈ a :: ids)) by by apply list_elem_of_further.
      * rewrite (decide_False (P := id ∈ a :: ids)); [done|].
        rewrite elem_of_cons. tauto.
Qed.

(** X9. [preloadAllScripts] never fails as a whole and touches the cache
    only: afterwards a script is cached if it was cached before (with the
    definition it had), or if it is on the list and its document passes
    [loadScript]'s preparation (with the definition prepared from it);
    a listed script whose document is absent or invalid is skipped and does
    not keep the others from loading. Eye sets, timers and the calls into the
    rendering layer are as before. *)
Theorem preloadAllScripts_cache st id :
  loadedScripts (preloadAllScripts st) !! id
  = match loadedScripts st !! id with
    | Some so => Some so
    | None => if decide (id ∈ preloadList)
              then scriptDirectory st !! id ≫= prepareScript else None
    end /\
  eyeSets (preloadAllScripts st) = eyeSets st /\
  timers (preloadAllScripts st) = timers st /\
  trace (preloadAllScripts st) = trace st.
Proof.
  destruct (loadAll_lookup preloadList st id) as (Hl & _ & He & _ & Ht & Htr & _).
  done.
Qed.

Lemma prepareScript_ids doc so :
  prepareScript doc = Some so ->
  so_scriptId so = so_scriptId doc /\ so_name so = so_name doc /\
  so_interactions so = so_interactions doc.
Proof.
  unfold prepareScript. destruct (negb _); [done|].
  destruct (durationMissing _).
  - destruct (last _); [|done]. by intros [= <-].
  - by intros [= <-].
Qed.

(** X10. What the cache holds is fit to run: in a state whose cache was
    filled by [loadScript], every cached definition has a non-empty
    [scriptId] and [name], a duration, and a timeline sorted by time whose
    entries all have a numeric time and a non-empty action. *)
Theorem cached_scripts_are_prepared st scriptId so :
  cacheFromDirectory st ->
  loadedScripts st !! scriptId = Some so ->
  truthyStr (so_scriptId so) = true /\
  truthyStr (so_name so) = true /\
  is_Some (so_duration so) /\
  exists timeline, so_timeline so = Some timeline /\
    StronglySorted leTime timeline /\
    Forall (fun a => numericTime a /\ truthyStr (a_action a) = true) timeline.
Proof.
  intros Hinv Hso. destruct (Hinv _ _ Hso) as (doc & _ & Hp).
  destruct (prepareScript_ids _ _ Hp) as (-> & -> & _).
  destruct (prepareScript_Some _ _ Hp) as (Hv & input & Hin & Hout & Hdur & Hlast).
  destruct (validateScript_true _ Hv) as (Hid & Hname & input' & Hin' & Hall).
  assert (input' = input) as -> by congruence.
  split; [done|]. split; [done|]. split.
  - rewrite Hdur. destruct (so_duration doc) as [d|]; simpl in *.
    + destruct (falsyNum d); [|by eexists].
      destruct (Hlast eq_refl) as [a ->]. by eexists.
    + destruct (Hlast eq_refl) as [a ->]. by eexists.
  - exists (jsSort compareTime input). split; [done|]. split.
    + apply jsSort_sorted. eapply Forall_impl; [exact Hall|]. by intros a [? _].
    + by rewrite jsSort_perm.
Qed.

Lemma cached_scripts_are_prepared_witness :
  truthyStr (so_scriptId Ex.parent) = true /\
  truthyStr (so_name Ex.parent) = true /\
  is_Some (so_duration Ex.parent) /\
  exists timeline, so_timeline Ex.parent = Some timeline /\
    StronglySorted leTime timeline /\
    Forall (fun a => numericTime a /\ truthyStr (a_action a) = true) timeline.
Proof.
  apply (cached_scripts_are_prepared withParent "parent" Ex.parent).
  - apply (cacheFromDirectory_later Ex.page); [apply cacheFromDirectory_start|].
    apply rtc_once, step_executeScript.
  - vm_compute. reflexivity.
Defined.

(** ** The director's timer chain *)

(** [scheduleDirectorEvaluation] of an enabled director. *)
Lemma scheduleDirectorEvaluation_enabled st :
  d_enabled (directorState st) = true ->
  let delay := inject_Z (d_evaluationInterval (directorState st))
               + ((mathRandom st).1 * 2000 - 1000) in
  let st' := scheduleDirectorEvaluation st in
  timers st' = timers st
               ++ [mkTimer (nextHandle st) (inject_Z (clock st) + Qmax 0 delay) CbEvaluateDirector] /\
  nextHandle st' = S (nextHandle st) /\
  directorState st' = with_evaluationTimeoutId (Some (nextHandle st)) (directorState st) /\
  eyeSets st' = eyeSets st /\ instances st' = instances st /\ trace st' = trace st /\
  clock st' = clock st /\ loadedScripts st' = loadedScripts st /\
  randoms st' = tail (randoms st).
Proof.
  intros Hon. unfold scheduleDirectorEvaluation, mathRandom. rewrite Hon. simpl.
  destruct (randoms st) eqn:Hr; simpl; rewrite ?Hr; by repeat split.
Qed.



(** [startDirector] of a disabled director. *)
Lemma startDirector_disabled mode st :
  d_enabled (directorState st) = false ->
  let d := directorState st in
  let d' := directorState (startDirector mode st) in
  d_enabled d' = true /\ d_mode d' = mode /\
  (d_evaluationInterval d', d_scriptCooldown d', d_triggerProbabilities d')
    = match lookupKey mode directorConfig.modes with
      | Some c => (m_evaluationInterval c, m_scriptCooldown c, m_triggerProbabilities c)
      | None => (d_evaluationInterval d, d_scriptCooldown d, d_triggerProbabilities d)
      end /\
  d_lastScriptTime d' = d_lastScriptTime d /\
  d_interactionChance d' = d_interactionChance d /\
  d_evaluationTimeoutId d' = Some (nextHandle st) /\
  (exists due, timers (startDirector mode st)
               = timers st ++ [mkTimer (nextHandle st) due CbEvaluateDirector]) /\
  nextHandle (startDirector mode st) = S (nextHandle st) /\
  eyeSets (startDirector mode st) = eyeSets st.
Proof.
  intros Hoff d d'. unfold d', startDirector. rewrite Hoff. cbv zeta.
  set (st1 := match lookupKey mode directorConfig.modes with
              | Some modeConfig => set_directorState (with_modeConfig modeConfig) _
              | None => _
              end).
  assert (d_enabled (directorState st1) = true /\ d_mode (directorState st1) = mode /\
          (d_evaluationInterval (directorState st1), d_scriptCooldown (directorState st1),
           d_triggerProbabilities (directorState st1))
          = match lookupKey mode directorConfig.modes with
            | Some c => (m_evaluationInterval c, m_scriptCooldown c, m_triggerProbabilities c)
            | None => (d_evaluationInterval d, d_scriptCooldown d, d_triggerProbabilities d)
            end /\
          d_lastScriptTime (directorState st1) = d_lastScriptTime d /\
          d_interactionChance (directorState st1) = d_interactionChance d /\
          timers st1 = timers st /\ nextHandle st1 = nextHandle st /\
          eyeSets st1 = eyeSets st) as (Hon1 & Hm & Hc & Hl & Hic & Ht & Hn & He).
  { unfold st1. by destruct (lookupKey mode directorConfig.modes). }
  clearbody st1.
  destruct (scheduleDirectorEvaluation_enabled st1 Hon1) as (Ht' & Hn' & Hd' & He' & _).
  rewrite Hd'. simpl. rewrite Hn in *. rewrite Ht in Ht'.
  repeat (split; [done|]). split; [by eexists|]. split; [done | by rewrite He'].
Qed.

(** X12. [startDirector] of a disabled director enables it, records the
    mode, replaces interval, cooldown and probabilities by those of the mode
    when the mode is configured (and keeps them when it is not), leaves
    [lastScriptTime] and every eye set alone, and schedules the first
    evaluation. On an enabled director it does nothing. *)
Theorem startDirector_starts mode st :
  (d_enabled (directorState st) = true -> startDirector mode st = st) /\
  (d_enabled (directorState st) = false ->
   let d := directorState st in
   let d' := directorState (startDirector mode st) in
   d_enabled d' = true /\ d_mode d' = mode /\
   (d_evaluationInterval d', d_scriptCooldown d', d_triggerProbabilities d')
     = match lookupKey mode directorConfig.modes with
       | Some c => (m_evaluationInterval c, m_scriptCooldown c, m_triggerProbabilities c)
       | None => (d_evaluationInterval d, d_scriptCooldown d, d_triggerProbabilities d)
       end /\
   d_lastScriptTime d' = d_lastScriptTime d /\
   d_interactionChance d' = d_interactionChance d /\
   d_evaluationTimeoutId d' = Some (nextHandle st) /\
   (exists due, timers (startDirector mode st)
                = timers st ++ [mkTimer (nextHandle st) due CbEvaluateDirector]) /\
   eyeSets (startDirector mode st) = eyeSets st).
Proof.
  split.
  - intros Hon. unfold startDirector. by rewrite Hon.
  - intros Hoff.
    destruct (startDirector_disabled mode st Hoff) as (? & ? & ? & ? & ? & ? & ? & _ & ?).
    done.
Qed.

Lemma startDirector_starts_witness :
  let st := startState [Some (createEyeSet true)] Ex.directory 0 [5 # 10] in
  let d := directorState st in
  let d' := directorState (startDirector "chaotic" st) in
  d_enabled d' = true /\ d_mode d' = "chaotic"%string /\
  (d_evaluationInterval d', d_scriptCooldown d', d_triggerProbabilities d')
    = match lookupKey "chaotic" directorConfig.modes with
      | Some c => (m_evaluationInterval c, m_scriptCooldown c, m_triggerProbabilities c)
      | None => (d_evaluationInterval d, d_scriptCooldown d, d_triggerProbabilities d)
      end /\
  d_lastScriptTime d' = d_lastScriptTime d /\
  d_interactionChance d' = d_interactionChance d /\
  d_evaluationTimeoutId d' = Some (nextHandle st) /\
  (exists due, timers (startDirector "chaotic" st)
               = timers st ++ [mkTimer (nextHandle st) due CbEvaluateDirector]) /\
  eyeSets (startDirector "chaotic" st) = eyeSets st.
Proof.
  apply (startDirector_starts "chaotic"
           (startState [Some (createEyeSet true)] Ex.directory 0 [5 # 10])).
  reflexivity.
Defined.

(** [stopDirector] of an enabled director. *)
Lemma stopDirector_enabled st :
  d_enabled (directorState st) = true ->
  let st' := stopDirector st in
  directorState st'
    = with_evaluationTimeoutId None (with_enabled false (directorState st)) /\
  (forall h, h ∈ pending st' <->
     (h ∈ pending st /\ d_evaluationTimeoutId (directorState st) <> Some h)) /\
  eyeSets st' = eyeSets st /\ nextHandle st' = nextHandle st /\ trace st' = trace st.
Proof.
  intros Hon. unfold stopDirector. rewrite Hon. simpl.
  destruct (d_evaluationTimeoutId (directorState st)) as [h0|] eqn:Hid; simpl.
  - split; [done|]. split; [|done]. intros h.
    change (h ∈ pending (clearTimeout h0 st) <-> (h ∈ pending st /\ Some h0 <> Some h)).
    rewrite pending_clearTimeout. split; intros [? ?]; split; congruence.
  - split; [|split; [|done]].
    + destruct (directorState st); simpl in *. by subst.
    + intros h. split; [by intros ? | by intros [? _]].
Qed.

(** X13. [stopDirector] disables the director and cancels the pending
    evaluation, and only that timer; an evaluation that runs all the same
    afterwards neither evaluates nor reschedules. Mode, interval, cooldown
    and probabilities stay as they are. A director that is not enabled is
    left as it is. *)
Theorem stopDirector_stops st :
  (d_enabled (directorState st) = false -> stopDirector st = st) /\
  (d_enabled (directorState st) = true ->
   let st' := stopDirector st in
   directorState st'
     = with_evaluationTimeoutId None (with_enabled false (directorState st)) /\
   (forall h, h ∈ pending st' <->
      (h ∈ pending st /\ d_evaluationTimeoutId (directorState st) <> Some h)) /\
   evaluateDirector st' = st' /\
   scheduleDirectorEvaluation st' = st').
Proof.
  split.
  - intros Hoff. unfold stopDirector. by rewrite Hoff.
  - intros Hon st'. destruct (stopDirector_enabled st Hon) as (Hd & Hp & _).
    fold st' in Hd, Hp. split; [done|]. split; [done|].
    unfold evaluateDirector, scheduleDirectorEvaluation. by rewrite Hd.
Qed.

Lemma stopDirector_stops_witness :
  let st := startDirector "active" Ex.page in
  let st' := stopDirector st in
  directorState st'
    = with_evaluationTimeoutId None (with_enabled false (directorState st)) /\
  (forall h, h ∈ pending st' <->
     (h ∈ pending st /\ d_evaluationTimeoutId (directorState st) <> Some h)) /\
  evaluateDirector st' = st' /\
  scheduleDirectorEvaluation st' = st'.
Proof.
  apply (stopDirector_stops (startDirector "active" Ex.page)). reflexivity.
Defined.

(** X14. Toggling the director on and off again leaves no timer behind:
    after [startDirector] and [stopDirector] the director is disabled, has
    no evaluation handle, and exactly the timers of before are pending. *)
Theorem startDirector_then_stopDirector mode st :
  pendingIssued st ->
  d_enabled (directorState st) = false ->
  let st' := stopDirector (startDirector mode st) in
  d_enabled (directorState st') = false /\
  d_evaluationTimeoutId (directorState st') = None /\
  (forall h, h ∈ pending st' <-> h ∈ pending st) /\
  eyeSets st' = eyeSets st.
Proof.
  intros Hissued Hoff st'.
  destruct (startDirector_disabled mode st Hoff)
    as (Hon & _ & _ & _ & _ & Hid & (due & Ht) & _ & He).
  destruct (stopDirector_enabled _ Hon) as (Hd & Hp & He' & _).
  fold st' in Hd, Hp, He'. rewrite Hd. split; [done|]. split; [done|].
  split; [|by rewrite He', He].
  intros h. rewrite Hp, Hid. unfold pending at 1.
  rewrite Ht, fmap_app, elem_of_app. simpl. rewrite list_elem_of_singleton.
  fold (pending st). split.
  - intros [[?|?] Hne]; [done | congruence].
  - intros Hh. split; [by left|]. intros [= <-]. specialize (Hissued _ Hh). lia.
Qed.

Lemma startDirector_then_stopDirector_witness :
  let st' := stopDirector (startDirector "passive" longRunning) in
  d_enabled (directorState st') = false /\
  d_evaluationTimeoutId (directorState st') = None /\
  (forall h, h ∈ pending st' <-> h ∈ pending longRunning) /\
  eyeSets st' = eyeSets longRunning.
Proof.
  apply (startDirector_then_stopDirector "passive" longRunning).
  - apply (pendingIssued_later Ex.page); [apply pendingIssued_start|].
    apply rtc_once, step_executeScript.
  - reflexivity.
Defined.

(** ** Operations on one eye set leave the others alone *)

Lemma touchesOnly_refl i st : touchesOnly i st st.
Proof. by split. Qed.

Lemma touchesOnly_trans i st1 st2 st3 :
  touchesOnly i st1 st2 -> touchesOnly i st2 st3 -> touchesOnly i st1 st3.
Proof.
  intros [H1 Hd1] [H2 Hd2]. split; [|congruence].
  intros j Hj. by rewrite H2, H1.
Qed.

Lemma touchesOnly_same i st st' :
  eyeSets st' = eyeSets st -> directorState st' = directorState st -> touchesOnly i st st'.
Proof. intros He Hd. split; [|done]. intros j _. unfold getEyeSet. by rewrite He. Qed.

Lemma touchesOnly_updEyeSet i f st : touchesOnly i st (updEyeSet i f st).
Proof.
  split; [|done]. intros j Hj. rewrite getEyeSet_updEyeSet. by rewrite decide_False.
Qed.

Lemma touchesOnly_completeScript i st : touchesOnly i st (completeScript i st).
Proof.
  unfold completeScript. destruct (getEyeSet st i) as [e|]; [|apply touchesOnly_refl].
  destruct (es_currentScript e) as [instance|]; [|apply touchesOnly_refl]. cbv zeta.
  destruct (clearTimeouts_fields (scheduledActionsOf st instance) st)
    as (He & _ & _ & _ & _ & Hd).
  set (cleared := clearTimeouts _ st) in *.
  set (st2 := match onCompleteOf _ instance with
              | Some callback => emit _ _ | None => _ end).
  assert (touchesOnly i st st2) as H2.
  { unfold st2. destruct (onCompleteOf _ _); by apply touchesOnly_same. }
  clearbody st2. eapply touchesOnly_trans; [exact H2|].
  apply (touchesOnly_trans _ _ (updEyeSet i (with_currentScript None) st2));
    [apply touchesOnly_updEyeSet|].
  set (st3 := set_scriptInstances _ _).
  apply (touchesOnly_trans _ _ st3); [by apply touchesOnly_same|].
  apply (touchesOnly_trans _ _ (updEyeSet i (with_behavior AUTONOMOUS) st3));
    [apply touchesOnly_updEyeSet|].
  set (st4 := updEyeSet i (with_behavior AUTONOMOUS) st3).
  apply (touchesOnly_trans _ _ (updEyeSet i (with_lastBehaviorChange (clock st4)) st4));
    [apply touchesOnly_updEyeSet | by apply touchesOnly_same].
Qed.

Lemma touchesOnly_stopScript i st : touchesOnly i st (stopScript i st).
Proof.
  unfold stopScript. destruct (getEyeSet st i) as [e|]; [|apply touchesOnly_refl].
  destruct (es_currentScript e); [apply touchesOnly_completeScript | apply touchesOnly_refl].
Qed.

Lemma touchesOnly_setEyeBehavior i b st : touchesOnly i st (setEyeBehavior i b st).
Proof.
  unfold setEyeBehavior. destruct (getEyeSet st i) as [e|]; [|apply touchesOnly_refl].
  cbv zeta.
  apply (touchesOnly_trans _ _ (stopCurrentBehavior i e st)).
  { unfold stopCurrentBehavior. destruct (_ && _); [apply touchesOnly_stopScript|].
    destruct (bool_decide _); by apply touchesOnly_same. }
  set (st1 := stopCurrentBehavior i e st).
  apply (touchesOnly_trans _ _ (startNewBehavior i b st1)); [|by apply touchesOnly_same].
  unfold startNewBehavior. cbv zeta.
  apply (touchesOnly_trans _ _ (updEyeSet i (with_behavior b) st1));
    [apply touchesOnly_updEyeSet|].
  set (st2 := updEyeSet i (with_behavior b) st1).
  apply (touchesOnly_trans _ _ (updEyeSet i (with_lastBehaviorChange (clock st2)) st2));
    [apply touchesOnly_updEyeSet|].
  destruct b; by apply touchesOnly_same.
Qed.

Lemma touchesOnly_startScript i scriptId so st :
  touchesOnly i st (startScript i scriptId so st).2.
Proof.
  rewrite startScript_jobs. cbv zeta. cbn [fst snd].
  set (st1 := enterScripted i st).
  assert (touchesOnly i st st1) as H1.
  { unfold st1, enterScripted. cbv zeta.
    set (s0 := stopEyeSetAnimations i st).
    apply (touchesOnly_trans _ _ s0); [by apply touchesOnly_same|].
    apply (touchesOnly_trans _ _ (updEyeSet i (with_behavior SCRIPTED) s0));
      apply touchesOnly_updEyeSet. }
  set (created := createInstance so i st1).
  assert (touchesOnly i st1 created.2) as H2.
  { unfold created, createInstance. cbv zeta. cbn [snd].
    set (s0 := set_nextInstance _ _).
    apply (touchesOnly_trans _ _ s0); [by apply touchesOnly_same|].
    apply (touchesOnly_trans _ _ (updEyeSet i (with_currentScript (Some (nextInstance st1))) s0));
      [apply touchesOnly_updEyeSet | by apply touchesOnly_same]. }
  assert (instances created.2 !! created.1
          = Some (mkScriptInstance so i (clock st1) [] [] true None)) as H3.
  { unfold created, createInstance. simpl. apply lookup_insert_eq. }
  destruct (foldl_scheduleOn id created.1 (scriptJobs i created.1 scriptId so) created.2 _ H3)
    as (_ & _ & _ & He & _ & _ & _ & _ & Hd).
  eapply touchesOnly_trans; [exact H1|]. eapply touchesOnly_trans; [exact H2|].
  by apply touchesOnly_same.
Qed.

Lemma touchesOnly_executeScript i scriptId st :
  touchesOnly i st (executeScript i scriptId st).2.
Proof.
  unfold executeScript. destruct (getEyeSet st i) as [e|]; [|apply touchesOnly_refl].
  destruct (negb _); [apply touchesOnly_refl|].
  destruct (loadScript_frame scriptId st) as (_ & He & _ & _ & _ & Hd).
  destruct (loadScript scriptId st) as [[so|] st1]; cbn [fst snd] in *;
    [|by apply touchesOnly_same].
  pose proof (touchesOnly_startScript i scriptId so st1) as Hs.
  destruct (startScript i scriptId so st1) as [inst st2]. cbn [fst snd] in *.
  apply (touchesOnly_trans _ _ st1); [by apply touchesOnly_same | exact Hs].
Qed.

Lemma touchesOnly_cycleBehavior i st : touchesOnly i st (cycleBehavior i st).
Proof.
  unfold cycleBehavior. destruct (getEyeSet st i) as [e|]; [|apply touchesOnly_refl].
  cbv zeta. destruct (_ !! _) as [[| |]|]; try apply touchesOnly_setEyeBehavior;
    [|apply touchesOnly_refl].
  destruct (truthyStr _); [apply touchesOnly_executeScript | apply touchesOnly_setEyeBehavior].
Qed.

(** X15. The operations on an eye set are isolated: [executeScript],
    [stopScript], [setEyeBehavior] and [cycleBehavior] for one eye set leave
    every other eye set exactly as it was (behavior, current script, time
    stamp, visibility), and none of them writes the director's state. *)
Theorem eye_set_operations_isolated setIndex scriptId b st j :
  j <> setIndex ->
  getEyeSet (executeScript setIndex scriptId st).2 j = getEyeSet st j /\
  getEyeSet (stopScript setIndex st) j = getEyeSet st j /\
  getEyeSet (setEyeBehavior setIndex b st) j = getEyeSet st j /\
  getEyeSet (cycleBehavior setIndex st) j = getEyeSet st j /\
  directorState (executeScript setIndex scriptId st).2 = directorState st /\
  directorState (stopScript setIndex st) = directorState st /\
  directorState (setEyeBehavior setIndex b st) = directorState st /\
  directorState (cycleBehavior setIndex st) = directorState st.
Proof.
  intros Hj.
  destruct (touchesOnly_executeScript setIndex scriptId st) as [H1 D1].
  destruct (touchesOnly_stopScript setIndex st) as [H2 D2].
  destruct (touchesOnly_setEyeBehavior setIndex b st) as [H3 D3].
  destruct (touchesOnly_cycleBehavior setIndex st) as [H4 D4].
  repeat split; auto.
Qed.

Lemma eye_set_operations_isolated_witness :
  getEyeSet (executeScript 0 "short" withChild).2 1 = getEyeSet withChild 1 /\
  getEyeSet (stopScript 0 withChild) 1 = getEyeSet withChild 1 /\
  getEyeSet (setEyeBehavior 0 TRACKING withChild) 1 = getEyeSet withChild 1 /\
  getEyeSet (cycleBehavior 0 withChild) 1 = getEyeSet withChild 1 /\
  directorState (executeScript 0 "short" withChild).2 = directorState withChild /\
  directorState (stopScript 0 withChild) = directorState withChild /\
  directorState (setEyeBehavior 0 TRACKING withChild) = directorState withChild /\
  directorState (cycleBehavior 0 withChild) = directorState withChild.
Proof. apply (eye_set_operations_isolated 0 "short" TRACKING withChild 1). lia. Defined.

(** ** What an evaluation of the director touches *)

Lemma mathRandom_fields st :
  eyeSets (mathRandom st).2 = eyeSets st /\
  directorState (mathRandom st).2 = directorState st /\
  loadedScripts (mathRandom st).2 = loadedScripts st /\
  timers (mathRandom st).2 = timers st /\
  nextHandle (mathRandom st).2 = nextHandle st /\
  clock (mathRandom st).2 = clock st.
Proof. unfold mathRandom. by destruct (randoms st). Qed.

Lemma touchesOnly_mathRandom i st : touchesOnly i st (mathRandom st).2.
Proof. destruct (mathRandom_fields st) as (? & ? & _). by apply touchesOnly_same. Qed.

Lemma touchesOnly_weightedRandomScriptChoice i scriptIds st :
  touchesOnly i st (weightedRandomScriptChoice scriptIds st).2.
Proof.
  unfold weightedRandomScriptChoice. cbv zeta.
  destruct (filter _ scriptIds) as [|first rest]; [apply touchesOnly_refl|].
  pose proof (touchesOnly_mathRandom i st) as H.
  destruct (mathRandom st) as [r st1]. cbn [fst snd] in *.
  by destruct (walkScripts _ _).
Qed.

Lemma touchesOnly_triggerDirectorScript i visibleSets st :
  touchesOnly i st (triggerDirectorScript i visibleSets st).1.
Proof.
  unfold triggerDirectorScript.
  set (first := if bool_decide _ then _ else _).
  assert (touchesOnly i st first.2) as H1.
  { unfold first. destruct (bool_decide _); [|apply touchesOnly_refl].
    pose proof (touchesOnly_mathRandom i st) as H.
    by destruct (mathRandom st) as [r st1]. }
  destruct first as [shouldInteract st1]. cbn [fst snd] in *.
  set (second := if shouldInteract then _ else _).
  assert (touchesOnly i st1 second.2) as H2.
  { unfold second. destruct shouldInteract; apply touchesOnly_weightedRandomScriptChoice. }
  destruct second as [[scriptId|] st2]; cbn [fst snd] in *;
    [|by apply (touchesOnly_trans _ _ st1)].
  destruct (negb _); cbn [fst]; [|by apply (touchesOnly_trans _ _ st1)].
  apply (touchesOnly_trans _ _ st1); [done|].
  apply (touchesOnly_trans _ _ st2); [done|]. apply touchesOnly_executeScript.
Qed.

(** One turn of the director's loop writes no eye set but its own, and of
    the director's state at most the stamp. *)
Lemma evaluateSet_others now visibleSets st idx :
  (forall j, j <> idx ->
     getEyeSet (evaluateSet now visibleSets st idx) j = getEyeSet st j) /\
  (directorState (evaluateSet now visibleSets st idx) = directorState st \/
   directorState (evaluateSet now visibleSets st idx)
   = with_lastScriptTime now (directorState st)).
Proof.
  unfold evaluateSet. destruct (getEyeSet st idx) as [set|]; [|by split; [|left]].
  destruct (_ || _); [by split; [|left]|].
  unfold weightedRandomChoice.
  destruct (touchesOnly_mathRandom idx st) as [He Hd].
  destruct (mathRandom st) as [r st1]. cbn [fst snd] in *.
  repeat case_bool_decide;
    try (split; [exact He | by left]);
    try (destruct (touchesOnly_setEyeBehavior idx AUTONOMOUS st1) as [He' Hd'];
         split; [intros j Hj; by rewrite He', He | left; congruence]);
    try (destruct (touchesOnly_setEyeBehavior idx TRACKING st1) as [He' Hd'];
         split; [intros j Hj; by rewrite He', He | left; congruence]).
  destruct (touchesOnly_triggerDirectorScript idx visibleSets st1) as [He' Hd'].
  split.
  - intros j Hj. change (getEyeSet (triggerDirectorScript idx visibleSets st1).1 j
                         = getEyeSet st j). by rewrite He', He.
  - right. simpl. by rewrite Hd', Hd.
Qed.

(** The turn of an eye set that runs a script, or changed its behavior less
    than three seconds ago, does nothing. *)
Lemma evaluateSet_skips now visibleSets st idx set :
  getEyeSet st idx = Some set ->
  is_Some (es_currentScript set) \/ (now - es_lastBehaviorChange set < 3000)%Z ->
  evaluateSet now visibleSets st idx = st.
Proof.
  intros Hset Hbusy. unfold evaluateSet. rewrite Hset.
  destruct Hbusy as [Hcur|Hrecent].
  - by rewrite (bool_decide_eq_true_2 _ Hcur).
  - assert ((now - es_lastBehaviorChange set <? 3000)%Z = true) as -> by lia.
    by rewrite orb_true_r.
Qed.

(** The loop of [evaluateDirector] over any list of indices. *)
Lemma evaluateSets_others now visibleSets l : forall st j,
  (j ∉ l \/
   exists set, getEyeSet st j = Some set /\
     (is_Some (es_currentScript set) \/ (now - es_lastBehaviorChange set < 3000)%Z)) ->
  getEyeSet (foldl (evaluateSet now visibleSets) st l) j = getEyeSet st j.
Proof.
  induction l as [|idx l IH]; intros st j Hj; [done|]. simpl.
  assert (getEyeSet (evaluateSet now visibleSets st idx) j = getEyeSet st j) as Hturn.
  { destruct (decide (j = idx)) as [->|Hne].
    - destruct Hj as [Hj|(set & Hset & Hbusy)].
      + exfalso. apply Hj. by left.
      + by rewrite (evaluateSet_skips _ _ _ _ _ Hset Hbusy).
    - by apply evaluateSet_others. }
  rewrite IH, Hturn; [done|].
  destruct Hj as [Hj|(set & Hset & Hbusy)].
  - left. intros Hin. apply Hj. by right.
  - right. exists set. by rewrite Hturn.
Qed.

Lemma evaluateSets_directorState now visibleSets l : forall st,
  directorState (foldl (evaluateSet now visibleSets) st l) = directorState st \/
  directorState (foldl (evaluateSet now visibleSets) st l)
  = with_lastScriptTime now (directorState st).
Proof.
  induction l as [|idx l IH]; intros st; [by left|]. simpl.
  destruct (IH (evaluateSet now visibleSets st idx)) as [->| ->];
    destruct (evaluateSet_others now visibleSets st idx) as [_ [->| ->]]; auto.
Qed.

Lemma scheduleDirectorEvaluation_eyeSets st :
  eyeSets (scheduleDirectorEvaluation st) = eyeSets st.
Proof.
  unfold scheduleDirectorEvaluation. destruct (negb _); [done|].
  unfold mathRandom. by destruct (randoms st).
Qed.

Lemma visibleSetsOf_visible st j :
  j ∈ visibleSetsOf st -> exists set, getEyeSet st j = Some set /\ es_visible set = true.
Proof.
  unfold visibleSetsOf. intros [H _]%list_elem_of_filter.
  destruct (getEyeSet st j) as [set|]; [by exists set | done].
Qed.

(** X16. An evaluation of the director leaves alone every eye set that is
    missing or hidden, that runs a script, or that changed its behavior less
    than three seconds before the evaluation: behavior, script and time
    stamp of such an eye set are after [evaluateDirector] what they were
    before, whatever the random draws and whatever is done to the other eye
    sets. *)
Theorem evaluateDirector_leaves_busy_sets st j :
  match getEyeSet st j with
  | None => True
  | Some set =>
      es_visible set = false \/ is_Some (es_currentScript set) \/
      (clock st - es_lastBehaviorChange set < 3000)%Z
  end ->
  getEyeSet (evaluateDirector st) j = getEyeSet st j.
Proof.
  intros Hj. unfold evaluateDirector.
  destruct (negb _); [done|]. cbv zeta.
  assert (forall s, getEyeSet (scheduleDirectorEvaluation s) j = getEyeSet s j) as Hs.
  { intros s. unfold getEyeSet. by rewrite scheduleDirectorEvaluation_eyeSets. }
  destruct (bool_decide _); [apply Hs|].
  destruct (_ <? _)%Z; [apply Hs|].
  rewrite Hs. apply evaluateSets_others.
  destruct (getEyeSet st j) as [set|] eqn:Hset.
  - destruct Hj as [Hhidden|Hbusy]; [|right; by exists set].
    left. intros (set' & Hset' & Hvis)%visibleSetsOf_visible. congruence.
  - left. intros (set' & Hset' & _)%visibleSetsOf_visible. congruence.
Qed.

Lemma evaluateDirector_leaves_busy_sets_witness :
  getEyeSet (evaluateDirector directedPage) 0 = getEyeSet directedPage 0.
Proof.
  apply (evaluateDirector_leaves_busy_sets directedPage 0).
  vm_compute. right. left. by eexists.
Defined.

(** ** An evaluation keeps the chain of evaluations going *)







(** ** The director's choice of a script *)

Lemma walkScripts_elem_of l : forall rand id, walkScripts rand l = Some id -> id ∈ l.
Proof.
  induction l as [|x l IH]; intros rand id; simpl; [done|].
  destruct (Qle_bool _ 0).
  - intros [= ->]. by left.
  - intros H. right. by apply (IH _ _ H).
Qed.

Lemma weightedRandomScriptChoice_unfold scriptIds st :
  weightedRandomScriptChoice scriptIds st
  = match availableScripts scriptIds st with
    | [] => (None, st)
    | first :: _ =>
        (Some (default first
                 (walkScripts ((mathRandom st).1
                               * weightFrom 0 (availableScripts scriptIds st))
                    (availableScripts scriptIds st))),
         (mathRandom st).2)
    end.
Proof.
  unfold weightedRandomScriptChoice, availableScripts, weightFrom. cbv zeta.
  destruct (filter _ scriptIds) as [|first rest]; [done|].
  destruct (mathRandom st) as [r st1]. cbn [fst snd].
  by destruct (walkScripts _ _).
Qed.

(** What [weightedRandomScriptChoice] returns. *)
Lemma weightedRandomScriptChoice_result scriptIds st :
  match (weightedRandomScriptChoice scriptIds st).1 with
  | Some id =>
      id ∈ scriptIds /\ is_Some (loadedScripts st !! id) /\
      is_Some (lookupKey id directorConfig.scriptWeights) /\
      (weightedRandomScriptChoice scriptIds st).2 = (mathRandom st).2
  | None =>
      (forall id, id ∈ scriptIds ->
         ~ (is_Some (loadedScripts st !! id) /\
            is_Some (lookupKey id directorConfig.scriptWeights))) /\
      (weightedRandomScriptChoice scriptIds st).2 = st
  end.
Proof.
  rewrite weightedRandomScriptChoice_unfold.
  destruct (availableScripts scriptIds st) as [|first rest] eqn:Hav; cbn [fst snd].
  - split; [|done]. intros id Hin Hok.
    assert (id ∈ availableScripts scriptIds st) as H
      by (by apply list_elem_of_filter).
    rewrite Hav in H. by apply elem_of_nil in H.
  - assert (default first (walkScripts ((mathRandom st).1 * weightFrom 0 (first :: rest))
                             (first :: rest)) ∈ availableScripts scriptIds st) as Hin.
    { rewrite Hav. destruct (walkScripts _ _) as [id|] eqn:Hw; simpl.
      - by apply (walkScripts_elem_of _ _ _ Hw).
      - by left. }
    apply list_elem_of_filter in Hin as [[? ?] ?]. done.
Qed.

(** X18. [weightedRandomScriptChoice] only ever returns a script of the list
    it was given that is loaded and has a configured weight, and it returns
    one whenever the list has such a script; it returns nothing, and draws
    no random number, exactly when the list has none. *)
Theorem weightedRandomScriptChoice_available scriptIds st :
  match (weightedRandomScriptChoice scriptIds st).1 with
  | Some id =>
      id ∈ scriptIds /\ is_Some (loadedScripts st !! id) /\
      is_Some (lookupKey id directorConfig.scriptWeights) /\
      (weightedRandomScriptChoice scriptIds st).2 = (mathRandom st).2
  | None =>
      (forall id, id ∈ scriptIds ->
         ~ (is_Some (loadedScripts st !! id) /\
            is_Some (lookupKey id directorConfig.scriptWeights))) /\
      (weightedRandomScriptChoice scriptIds st).2 = st
  end.
Proof. apply weightedRandomScriptChoice_result. Qed.




(** ** The director plays loaded scripts only *)

Lemma setEyeBehavior_loadedScripts setIndex b st :
  loadedScripts (setEyeBehavior setIndex b st) = loadedScripts st.
Proof.
  apply (R_setEyeBehavior (fun st st' => loadedScripts st' = loadedScripts st));
    try done; congruence.
Qed.

Lemma startScript_loadedScripts setIndex scriptId so st :
  loadedScripts (startScript setIndex scriptId so st).2 = loadedScripts st.
Proof.
  apply (R_startScript (fun st st' => loadedScripts st' = loadedScripts st));
    try done; congruence.
Qed.

(** [executeScript] of a script that is in the cache does not write the
    cache. *)
Lemma executeScript_loaded setIndex scriptId st :
  is_Some (loadedScripts st !! scriptId) ->
  loadedScripts (executeScript setIndex scriptId st).2 = loadedScripts st.
Proof.
  intros [so Hso]. unfold executeScript.
  destruct (getEyeSet st setIndex) as [eyeSet|]; [|done].
  destruct (negb _); [done|].
  assert (loadScript scriptId st = (Some so, st)) as ->
    by (unfold loadScript; by rewrite Hso).
  pose proof (startScript_loadedScripts setIndex scriptId so st) as H.
  by destruct (startScript setIndex scriptId so st).
Qed.

Lemma triggerDirectorScript_loadedScripts setIndex visibleSets st :
  loadedScripts (triggerDirectorScript setIndex visibleSets st).1 = loadedScripts st.
Proof.
  unfold triggerDirectorScript.
  set (first := if bool_decide _ then _ else _).
  assert (loadedScripts first.2 = loadedScripts st) as H1.
  { unfold first. destruct (bool_decide _); [|done].
    destruct (mathRandom_fields st) as (_ & _ & H & _).
    by destruct (mathRandom st). }
  destruct first as [shouldInteract st1]. cbn [fst snd] in *.
  set (scriptIds := if shouldInteract then directorConfig.multipleEyesVisible
                    else directorConfig.singleEyeVisible).
  assert ((if shouldInteract
           then weightedRandomScriptChoice directorConfig.multipleEyesVisible st1
           else weightedRandomScriptChoice directorConfig.singleEyeVisible st1)
          = weightedRandomScriptChoice scriptIds st1) as -> by (by destruct shouldInteract).
  pose proof (weightedRandomScriptChoice_result scriptIds st1) as Hchoice.
  destruct (weightedRandomScriptChoice scriptIds st1) as [[scriptId|] st2];
    cbn [fst snd] in *.
  - destruct Hchoice as (_ & Hloaded & _ & ->).
    destruct (mathRandom_fields st1) as (_ & _ & H2 & _).
    destruct (negb _); cbn [fst]; [|congruence].
    rewrite executeScript_loaded; [congruence | by rewrite H2].
  - destruct Hchoice as [_ ->]. done.
Qed.

Lemma evaluateSet_loadedScripts now visibleSets st idx :
  loadedScripts (evaluateSet now visibleSets st idx) = loadedScripts st.
Proof.
  unfold evaluateSet. destruct (getEyeSet st idx) as [set|]; [|done].
  destruct (_ || _); [done|].
  unfold weightedRandomChoice.
  destruct (mathRandom_fields st) as (_ & _ & H & _).
  destruct (mathRandom st) as [r st1]. cbn [fst snd] in *.
  repeat case_bool_decide; rewrite ?setEyeBehavior_loadedScripts; try done.
  simpl. by rewrite triggerDirectorScript_loadedScripts.
Qed.

(** X20. The director never loads a script: it chooses among the scripts
    that are in the cache and starts those, so an evaluation leaves the
    cache exactly as it was. A script that was not loaded beforehand is
    never played by the director. *)
Theorem evaluateDirector_never_loads st :
  loadedScripts (evaluateDirector st) = loadedScripts st /\
  forall setIndex visibleSets,
    loadedScripts (triggerDirectorScript setIndex visibleSets st).1 = loadedScripts st.
Proof.
  split; [|intros; apply triggerDirectorScript_loadedScripts].
  assert (forall s, loadedScripts (scheduleDirectorEvaluation s) = loadedScripts s) as Hs.
  { intros s. unfold scheduleDirectorEvaluation. destruct (negb _); [done|].
    unfold mathRandom. by destruct (randoms s). }
  unfold evaluateDirector. destruct (negb _); [done|]. cbv zeta.
  destruct (bool_decide _); [apply Hs|]. destruct (_ <? _)%Z; [apply Hs|].
  rewrite Hs.
  apply (R_foldl (fun st st' => loadedScripts st' = loadedScripts st));
    [done | congruence |].
  intros s idx. apply evaluateSet_loadedScripts.
Qed.

(** ** Changing the director's mode *)

(** [setDirectorMode] of an enabled director to a configured mode. *)
Lemma setDirectorMode_enabled mode c st :
  lookupKey mode directorConfig.modes = Some c ->
  d_enabled (directorState st) = true ->
  let d := directorState st in
  let st' := setDirectorMode mode st in
  let d' := directorState st' in
  d_enabled d' = true /\ d_mode d' = mode /\
  d_evaluationInterval d' = m_evaluationInterval c /\
  d_scriptCooldown d' = m_scriptCooldown c /\
  d_triggerProbabilities d' = m_triggerProbabilities c /\
  d_lastScriptTime d' = d_lastScriptTime d /\
  d_interactionChance d' = d_interactionChance d /\
  d_evaluationTimeoutId d' = Some (nextHandle st) /\
  (forall h, h ∈ pending st' <->
     (h ∈ pending st /\ d_evaluationTimeoutId d <> Some h) \/ h = nextHandle st) /\
  nextHandle st' = S (nextHandle st) /\
  eyeSets st' = eyeSets st.
Proof.
  intros Hmode Hon d st' d'. unfold d', st', setDirectorMode. rewrite Hmode, Hon.
  cbv zeta.
  destruct (stopDirector_enabled st Hon) as (Hd1 & Hp1 & He1 & Hn1 & _).
  set (st1 := stopDirector st) in *.
  set (st2 := set_directorState (with_mode mode) st1).
  assert (d_enabled (directorState st2) = false) as Hoff2
    by (unfold st2; simpl; by rewrite Hd1).
  destruct (startDirector_disabled mode st2 Hoff2)
    as (Hon3 & Hm3 & Hc3 & Hl3 & Hi3 & Hid3 & (due & Ht3) & Hn3 & He3).
  rewrite Hmode in Hc3. injection Hc3 as Hc3a Hc3b Hc3c.
  change (nextHandle st2) with (nextHandle st1) in *. rewrite Hn1 in *.
  repeat (split; [done|]).
  split; [by rewrite Hl3; unfold st2; simpl; rewrite Hd1|].
  split; [by rewrite Hi3; unfold st2; simpl; rewrite Hd1|].
  split; [done|]. split; [|split; [done | by rewrite He3, <- He1]].
  intros h. unfold pending at 1. rewrite Ht3, fmap_app, elem_of_app. simpl.
  rewrite list_elem_of_singleton. change (t_handle <$> timers st2) with (pending st1).
  by rewrite Hp1.
Qed.

(** X21. [setDirectorMode] refuses a mode that is not configured and then
    changes nothing. For a configured mode it records the mode and leaves
    the director as enabled or disabled as it was. A disabled director gets
    the new mode name only: interval, cooldown and probabilities stay those
    of the old mode until the director is started. An enabled director is
    restarted: it gets the interval, cooldown and probabilities of the new
    mode, its pending evaluation is cancelled and one new evaluation is
    scheduled; no other timer and no eye set is touched. *)
Theorem setDirectorMode_restarts mode st :
  (lookupKey mode directorConfig.modes = None -> setDirectorMode mode st = st) /\
  (is_Some (lookupKey mode directorConfig.modes) ->
   d_enabled (directorState st) = false ->
   setDirectorMode mode st = set_directorState (with_mode mode) st) /\
  (forall c, lookupKey mode directorConfig.modes = Some c ->
   d_enabled (directorState st) = true ->
   let d := directorState st in
   let st' := setDirectorMode mode st in
   let d' := directorState st' in
   d_enabled d' = true /\ d_mode d' = mode /\
   d_evaluationInterval d' = m_evaluationInterval c /\
   d_scriptCooldown d' = m_scriptCooldown c /\
   d_triggerProbabilities d' = m_triggerProbabilities c /\
   d_lastScriptTime d' = d_lastScriptTime d /\
   d_evaluationTimeoutId d' = Some (nextHandle st) /\
   (forall h, h ∈ pending st' <->
      (h ∈ pending st /\ d_evaluationTimeoutId d <> Some h) \/ h = nextHandle st) /\
   eyeSets st' = eyeSets st).
Proof.
  split; [|split].
  - intros Hnone. unfold setDirectorMode. by rewrite Hnone.
  - intros [c Hc] Hoff. unfold setDirectorMode. by rewrite Hc, Hoff.
  - intros c Hc Hon.
    destruct (setDirectorMode_enabled mode c st Hc Hon)
      as (? & ? & ? & ? & ? & ? & _ & ? & ? & _ & ?).
    done.
Qed.

Lemma setDirectorMode_restarts_witness :
  let st := startDirector "active" Ex.page in
  let c := mkModeConfig 4000 2000
             [("autonomous"%string, 2 # 10); ("tracking"%string, 3 # 10);
              ("scripted"%string, 5 # 10)] in
  let d := directorState st in
  let st' := setDirectorMode "chaotic" st in
  let d' := directorState st' in
  d_enabled d' = true /\ d_mode d' = "chaotic"%string /\
  d_evaluationInterval d' = m_evaluationInterval c /\
  d_scriptCooldown d' = m_scriptCooldown c /\
  d_triggerProbabilities d' = m_triggerProbabilities c /\
  d_lastScriptTime d' = d_lastScriptTime d /\
  d_evaluationTimeoutId d' = Some (nextHandle st) /\
  (forall h, h ∈ pending st' <->
     (h ∈ pending st /\ d_evaluationTimeoutId d <> Some h) \/ h = nextHandle st) /\
  eyeSets st' = eyeSets st.
Proof.
  apply (setDirectorMode_restarts "chaotic" (startDirector "active" Ex.page));
    reflexivity.
Defined.

Lemma indexOfMode_next mode :
  ["passive"; "active"; "chaotic"]%string
    !! Z.to_nat ((indexOfMode mode ["passive"; "active"; "chaotic"]%string + 1) `mod` 3)%Z
  = Some (nextModeOf mode).
Proof.
  unfold nextModeOf, indexOfMode.
  rewrite (String.eqb_sym "passive" mode), (String.eqb_sym "active" mode),
    (String.eqb_sym "chaotic" mode).
  destruct (String.eqb mode "passive"); [done|].
  destruct (String.eqb mode "active"); [done|].
  by destruct (String.eqb mode "chaotic").
Qed.

Lemma nextModeOf_configured mode : is_Some (lookupKey (nextModeOf mode) directorConfig.modes).
Proof.
  unfold nextModeOf. destruct (String.eqb mode "passive"); [by eexists|].
  destruct (String.eqb mode "active"); by eexists.
Qed.

(** One press of M on an enabled director. *)
Lemma keyM_enabled st :
  d_enabled (directorState st) = true ->
  keyM st = setDirectorMode (nextModeOf (d_mode (directorState st))) st /\
  d_enabled (directorState (keyM st)) = true /\
  d_mode (directorState (keyM st)) = nextModeOf (d_mode (directorState st)) /\
  lookupKey (d_mode (directorState (keyM st))) directorConfig.modes
  = Some (mkModeConfig (d_evaluationInterval (directorState (keyM st)))
            (d_scriptCooldown (directorState (keyM st)))
            (d_triggerProbabilities (directorState (keyM st)))).
Proof.
  intros Hon.
  assert (keyM st = setDirectorMode (nextModeOf (d_mode (directorState st))) st) as ->.
  { unfold keyM. rewrite Hon. cbv zeta.
    change (Z.of_nat (length ["passive"; "active"; "chaotic"]%string)) with 3%Z.
    by rewrite indexOfMode_next. }
  split; [done|].
  destruct (nextModeOf_configured (d_mode (directorState st))) as [c Hc].
  destruct (setDirectorMode_enabled _ c st Hc Hon) as (H1 & H2 & H3 & H4 & H5 & _).
  rewrite H1, H2, H3, H4, H5, Hc. by destruct c.
Qed.

(** X22. The M key on an enabled director moves the mode one step along
    passive, active, chaotic and back to passive, restarting the director
    with the settings of the new mode; a mode outside this cycle is followed
    by passive. Three presses bring a director in one of the three modes
    back to its mode. On a disabled director the key does nothing. *)
Theorem keyM_cycles st :
  (d_enabled (directorState st) = false -> keyM st = st) /\
  (d_enabled (directorState st) = true ->
   let d := directorState st in
   let d' := directorState (keyM st) in
   d_enabled d' = true /\
   d_mode d' = nextModeOf (d_mode d) /\
   lookupKey (d_mode d') directorConfig.modes
   = Some (mkModeConfig (d_evaluationInterval d') (d_scriptCooldown d')
             (d_triggerProbabilities d')) /\
   (d_mode d ∈ ["passive"; "active"; "chaotic"]%string ->
    d_mode (directorState (keyM (keyM (keyM st)))) = d_mode d)).
Proof.
  split.
  - intros Hoff. unfold keyM. by rewrite Hoff.
  - intros Hon d d'.
    destruct (keyM_enabled st Hon) as (_ & Hon1 & Hm1 & Hc1).
    destruct (keyM_enabled _ Hon1) as (_ & Hon2 & Hm2 & _).
    destruct (keyM_enabled _ Hon2) as (_ & _ & Hm3 & _).
    repeat (split; [done|]).
    intros Hin. rewrite Hm3, Hm2, Hm1. fold d.
    repeat (apply elem_of_cons in Hin as [->|Hin]; [done|]).
    by apply elem_of_nil in Hin.
Qed.

Lemma keyM_cycles_witness :
  let st := startDirector "active" Ex.page in
  let d := directorState st in
  let d' := directorState (keyM st) in
  d_enabled d' = true /\
  d_mode d' = nextModeOf (d_mode d) /\
  lookupKey (d_mode d') directorConfig.modes
  = Some (mkModeConfig (d_evaluationInterval d') (d_scriptCooldown d')
            (d_triggerProbabilities d')) /\
  (d_mode d ∈ ["passive"; "active"; "chaotic"]%string ->
   d_mode (directorState (keyM (keyM (keyM st)))) = d_mode d).
Proof.
  apply (keyM_cycles (startDirector "active" Ex.page)). reflexivity.
Defined.

(** ** The director's chain of evaluations never breaks and never doubles *)

(** The operations of the script engine and of the behavior manager, which
    schedule no evaluation of the director and clear only timers whose
    handles an instance keeps. *)
Section EngineFrame.
Variable R : State -> State -> Prop.
Hypothesis E_refl : forall st, R st st.
Hypothesis E_trans : forall st1 st2 st3, R st1 st2 -> R st2 st3 -> R st1 st3.
Hypothesis E_other : forall st st',
  timers st' = timers st -> nextHandle st' = nextHandle st ->
  instances st' = instances st ->
  loadedScripts st' = loadedScripts st -> scriptDirectory st' = scriptDirectory st ->
  R st st'.
Hypothesis E_scheduleOn : forall instance cb delay st,
  isEvaluation cb = false -> R st (scheduleOn instance cb delay st).
Hypothesis E_clearInstance : forall instance st,
  R st (clearTimeouts (scheduledActionsOf st instance) st).
Hypothesis E_createInstance : forall scriptObject setIndex st,
  R st (createInstance scriptObject setIndex st).2.
Hypothesis E_updInstance : forall instance f st,
  (forall s, si_scheduledActions (f s) ⊆ si_scheduledActions s) ->
  R st (updInstance instance f st).
Hypothesis E_loadScript : forall scriptId st, R st (loadScript scriptId st).2.

Local Ltac other := apply E_other; reflexivity.
Local Ltac peel tac :=
  lazymatch goal with
  | |- R ?a (?f ?x) => apply (E_trans a x (f x)); [|tac]
  end.

Lemma E_foldl {A} (f : State -> A -> State) l st :
  (forall st x, R st (f st x)) -> R st (foldl f st l).
Proof. by apply R_foldl. Qed.

Lemma E_mathRandom st : R st (mathRandom st).2.
Proof. by apply R_mathRandom. Qed.

Lemma E_startScript setIndex scriptId scriptObject st :
  R st (startScript setIndex scriptId scriptObject st).2.
Proof.
  unfold startScript.
  set (st1 := enterScripted setIndex st).
  assert (R st st1) as H1 by other.
  destruct (createInstance scriptObject setIndex st1) as [instance st2] eqn:E.
  assert (R st1 st2) as H2.
  { pose proof (E_createInstance scriptObject setIndex st1) as H. by rewrite E in H. }
  simpl. peel ltac:(by apply E_scheduleOn).
  apply (E_trans _ st1); [done|]. apply (E_trans _ st2); [done|].
  match goal with
  | |- R _ (match ?o with Some l => _ | None => ?s end) =>
      apply (E_trans _ s);
      [|destruct o; [apply E_foldl; intros; by apply E_scheduleOn | done]]
  end.
  apply E_foldl. intros. by apply E_scheduleOn.
Qed.

Lemma E_executeScript setIndex scriptId st :
  R st (executeScript setIndex scriptId st).2.
Proof.
  unfold executeScript. destruct (getEyeSet st setIndex) as [e|]; [|done].
  destruct (negb (es_visible e)); [done|].
  pose proof (E_loadScript scriptId st) as Hl.
  destruct (loadScript scriptId st) as [[so|] st1]; cbn [fst snd] in Hl; [|done].
  pose proof (E_startScript setIndex scriptId so st1) as Hs.
  destruct (startScript setIndex scriptId so st1) as [i st2]. cbn [fst snd] in *.
  by apply (E_trans _ st1).
Qed.

Lemma E_completeScript setIndex st : R st (completeScript setIndex st).
Proof.
  unfold completeScript. destruct (getEyeSet st setIndex) as [e|]; [|done].
  destruct (es_currentScript e) as [instance|]; [|done].
  cbv zeta. do 5 peel other.
  match goal with
  | |- R _ (match ?o with Some c => emit _ ?s | None => ?s end) =>
      apply (E_trans _ s); [|destruct o; [other | done]]
  end.
  peel ltac:(apply E_updInstance, stop_instance_handles). apply E_clearInstance.
Qed.

Lemma E_stopScript setIndex st : R st (stopScript setIndex st).
Proof.
  unfold stopScript. destruct (getEyeSet st setIndex) as [e|]; [|done].
  destruct (es_currentScript e); [apply E_completeScript | done].
Qed.

Lemma E_setEyeBehavior setIndex b st : R st (setEyeBehavior setIndex b st).
Proof.
  unfold setEyeBehavior. destruct (getEyeSet st setIndex) as [e|]; [|done].
  cbv zeta. peel other. peel ltac:(destruct b; other).
  unfold stopCurrentBehavior.
  destruct (_ && _); [apply E_stopScript|].
  destruct (bool_decide _); other.
Qed.

Lemma E_cycleBehavior setIndex st : R st (cycleBehavior setIndex st).
Proof.
  unfold cycleBehavior. destruct (getEyeSet st setIndex) as [e|]; [|done].
  destruct (_ !! _) as [[| |]|]; try apply E_setEyeBehavior; [|done].
  destruct (truthyStr _); [apply E_executeScript | apply E_setEyeBehavior].
Qed.

Lemma E_triggerDirectorScript setIndex visibleSets st :
  R st (triggerDirectorScript setIndex visibleSets st).1.
Proof.
  unfold triggerDirectorScript.
  set (first := if bool_decide _ then _ else _).
  assert (R st first.2) as H1.
  { unfold first. destruct (bool_decide _); [|done].
    pose proof (E_mathRandom st) as H. by destruct (mathRandom st). }
  destruct first as [shouldInteract st1]. cbn [fst snd] in *.
  set (second := if shouldInteract then _ else _).
  assert (R st1 second.2) as H2.
  { unfold second. destruct shouldInteract; by apply R_weightedRandomScriptChoice. }
  destruct second as [[scriptId|] st2]; cbn [fst snd] in *;
    [|by apply (E_trans _ st1)].
  destruct (negb _); cbn [fst]; [|by apply (E_trans _ st1)].
  apply (E_trans _ st1); [done|]. apply (E_trans _ st2); [done|].
  apply E_executeScript.
Qed.

Lemma E_evaluateSet now visibleSets st idx :
  R st (evaluateSet now visibleSets st idx).
Proof.
  unfold evaluateSet. destruct (getEyeSet st idx) as [e|]; [|done].
  destruct (_ || _); [done|].
  unfold weightedRandomChoice.
  pose proof (E_mathRandom st). destruct (mathRandom st) as [r st1].
  apply (E_trans _ st1); [done|].
  repeat (destruct (bool_decide _); try apply E_setEyeBehavior; try done).
  peel other. apply E_triggerDirectorScript.
Qed.

(** The callbacks of the script engine's timers. *)
Lemma E_runCallback cb st : isEvaluation cb = false -> R st (runCallback cb st).
Proof.
  destruct cb; [| | |done]; intros _; simpl.
  - by apply R_executeAction.
  - match goal with
    | |- R _ (let '(_, _) := executeScript ?i ?s ?st0 in _) =>
        pose proof (E_executeScript i s st0) as H; destruct (executeScript i s st0)
    end.
    cbn [fst snd] in H.
    by peel ltac:(apply E_updInstance, push_interactionInstance_handles).
  - apply E_completeScript.
Qed.
End EngineFrame.

(** *** The pending evaluations under the primitive operations *)

Lemma evaluationTimers_pending st h : h ∈ evaluationTimers st -> h ∈ pending st.
Proof.
  unfold evaluationTimers, pending. rewrite !list_elem_of_fmap.
  intros (t & -> & Ht). apply list_elem_of_filter in Ht as [_ Ht]. eauto.
Qed.

Lemma evaluationTimers_setTimeout cb delay st :
  evaluationTimers (setTimeout cb delay st).2
  = evaluationTimers st ++ (if isEvaluation cb then [nextHandle st] else []).
Proof.
  unfold evaluationTimers, setTimeout. simpl. rewrite filter_app, fmap_app. f_equal.
  rewrite filter_cons. simpl. destruct (isEvaluation cb); by case_decide.
Qed.

Lemma evaluationTimers_clearTimeout h st :
  evaluationTimers (clearTimeout h st) = filter (fun h' => h' ≠ h) (evaluationTimers st).
Proof.
  unfold evaluationTimers, clearTimeout. simpl.
  induction (timers st) as [|t q IH]; [done|].
  rewrite (filter_cons (fun t => t_handle t ≠ h)),
    (filter_cons (fun t => isEvaluation (t_cb t) = true) t q).
  destruct (decide (t_handle t ≠ h)) as [Hne|Heq];
    destruct (decide (isEvaluation (t_cb t) = true)) as [Hev|Hev].
  - rewrite filter_cons, decide_True by done. rewrite !fmap_cons, filter_cons.
    rewrite decide_True by done. by rewrite IH.
  - rewrite filter_cons, decide_False by done. exact IH.
  - rewrite fmap_cons, filter_cons, decide_False by done. exact IH.
  - exact IH.
Qed.

Lemma filter_ne_absent (h : nat) (l : list nat) : h ∉ l -> filter (fun h' => h' ≠ h) l = l.
Proof.
  induction l as [|x l IH]; [done|]. rewrite not_elem_of_cons. intros [Hne Hl].
  rewrite filter_cons. case_decide; [by rewrite IH | done].
Qed.

Lemma pending_clearTimeout_filter h st :
  pending (clearTimeout h st) = filter (fun h' => h' ≠ h) (pending st).
Proof.
  unfold pending, clearTimeout. simpl.
  induction (timers st) as [|t q IH]; [done|].
  rewrite fmap_cons, !filter_cons.
  destruct (decide (t_handle t ≠ h)); [by rewrite fmap_cons, IH | exact IH].
Qed.

Lemma timersSound_same st st' :
  timers st' = timers st -> nextHandle st' = nextHandle st ->
  instances st' = instances st -> timersSound st -> timersSound st'.
Proof.
  unfold timersSound, pendingIssued, handlesIssued, evaluationTimers, pending.
  by intros -> -> ->.
Qed.

(** Clearing a timer keeps the queue in order. *)
Lemma timersSound_clearTimeout h st : timersSound st -> timersSound (clearTimeout h st).
Proof.
  intros (Hnd & Hp & Hh & Hi). repeat split.
  - rewrite pending_clearTimeout_filter. by apply NoDup_filter.
  - intros h' Hh'. apply pending_clearTimeout in Hh' as [Hh' _]. by apply Hp.
  - done.
  - intros i s h' Hs Hin. rewrite evaluationTimers_clearTimeout.
    intros [_ Hev]%list_elem_of_filter. by apply (Hi i s h' Hs Hin).
Qed.

Lemma engineStep_refl st : engineStep st st.
Proof. by intros ?. Qed.

Lemma engineStep_trans st1 st2 st3 :
  engineStep st1 st2 -> engineStep st2 st3 -> engineStep st1 st3.
Proof.
  intros H12 H23 H1. destruct (H12 H1) as [H2 E2]. destruct (H23 H2) as [H3 E3].
  split; [done | congruence].
Qed.

Lemma engineStep_other st st' :
  timers st' = timers st -> nextHandle st' = nextHandle st ->
  instances st' = instances st ->
  loadedScripts st' = loadedScripts st -> scriptDirectory st' = scriptDirectory st ->
  engineStep st st'.
Proof.
  intros Ht Hn Hi _ _ Hs. split; [by apply (timersSound_same st)|].
  unfold evaluationTimers. by rewrite Ht.
Qed.

Lemma engineStep_scheduleOn instance cb delay st :
  isEvaluation cb = false -> engineStep st (scheduleOn instance cb delay st).
Proof.
  intros Hcb (Hnd & Hp & Hh & Hi).
  assert (evaluationTimers (scheduleOn instance cb delay st) = evaluationTimers st) as Hev.
  { change (evaluationTimers (setTimeout cb delay st).2 = evaluationTimers st).
    by rewrite evaluationTimers_setTimeout, Hcb, app_nil_r. }
  split; [|done]. repeat split.
  - change (NoDup (pending (setTimeout cb delay st).2)). rewrite pending_setTimeout.
    apply NoDup_app. split; [done|]. split; [|apply NoDup_singleton].
    intros h Hin ->%list_elem_of_singleton. specialize (Hp _ Hin). lia.
  - apply (pendingIssued_same (setTimeout cb delay st).2); [done..|].
    by apply pendingIssued_setTimeout.
  - by apply handlesIssued_scheduleOn.
  - intros i s h. rewrite Hev. unfold scheduleOn, updInstance. simpl.
    rewrite lookup_alter. case_decide as Hinst; [|apply Hi].
    subst i. destruct (instances st !! instance) as [s0|] eqn:Hs0; [|done].
    intros [= <-]. simpl. rewrite elem_of_app, list_elem_of_singleton.
    intros [Hin| ->]; [by apply (Hi instance s0)|].
    intros Hin%evaluationTimers_pending. specialize (Hp _ Hin). lia.
Qed.

Lemma timersSound_clearTimeouts handles : forall st,
  timersSound st -> (forall h, h ∈ handles -> h ∉ evaluationTimers st) ->
  timersSound (clearTimeouts handles st) /\
  evaluationTimers (clearTimeouts handles st) = evaluationTimers st.
Proof.
  unfold clearTimeouts. induction handles as [|h handles IH]; intros st Hs Hno; [done|].
  simpl.
  assert (evaluationTimers (clearTimeout h st) = evaluationTimers st) as Hev.
  { rewrite evaluationTimers_clearTimeout. apply filter_ne_absent, Hno. by left. }
  destruct (IH (clearTimeout h st)) as [Hs' Hev'].
  - by apply timersSound_clearTimeout.
  - intros h' Hin. rewrite Hev. apply Hno. by right.
  - split; [done | congruence].
Qed.

Lemma engineStep_clearInstance instance st :
  engineStep st (clearTimeouts (scheduledActionsOf st instance) st).
Proof.
  intros Hs. apply timersSound_clearTimeouts; [done|].
  intros h. unfold scheduledActionsOf.
  destruct (instances st !! instance) as [s|] eqn:Hinst; simpl.
  - destruct Hs as (_ & _ & _ & Hi). by apply (Hi instance s).
  - by intros ?%elem_of_nil.
Qed.

Lemma engineStep_createInstance scriptObject setIndex st :
  engineStep st (createInstance scriptObject setIndex st).2.
Proof.
  intros (Hnd & Hp & Hh & Hi). split; [|done]. repeat split; try done.
  - by apply handlesIssued_createInstance.
  - intros i s h. unfold createInstance. simpl. rewrite lookup_insert.
    case_decide; [|apply Hi]. intros [= <-]. simpl. by intros ?%elem_of_nil.
Qed.

Lemma engineStep_updInstance instance f st :
  (forall s, si_scheduledActions (f s) ⊆ si_scheduledActions s) ->
  engineStep st (updInstance instance f st).
Proof.
  intros Hf (Hnd & Hp & Hh & Hi). split; [|done]. repeat split; try done.
  - by apply handlesIssued_updInstance.
  - intros i s h. unfold updInstance. simpl. rewrite lookup_alter.
    case_decide as Hinst; [|apply Hi].
    subst i. destruct (instances st !! instance) as [s0|] eqn:Hs0; [|done].
    intros [= <-] Hin. apply (Hi instance s0 h Hs0). by apply Hf.
Qed.

Lemma engineStep_loadScript scriptId st : engineStep st (loadScript scriptId st).2.
Proof.
  destruct (loadScript_timers scriptId st) as [Ht Hn].
  pose proof (loadScript_instances scriptId st) as Hi.
  intros Hs. split; [by apply (timersSound_same st)|].
  unfold evaluationTimers. by rewrite Ht.
Qed.

Local Ltac engine_frame :=
  first [ exact engineStep_refl | exact engineStep_trans | exact engineStep_other
        | exact engineStep_scheduleOn | exact engineStep_clearInstance
        | exact engineStep_createInstance | exact engineStep_updInstance
        | exact engineStep_loadScript ].

Lemma engineStep_executeScript setIndex scriptId st :
  engineStep st (executeScript setIndex scriptId st).2.
Proof. apply E_executeScript; engine_frame. Qed.

Lemma engineStep_stopScript setIndex st : engineStep st (stopScript setIndex st).
Proof. apply E_stopScript; engine_frame. Qed.

Lemma engineStep_setEyeBehavior setIndex b st :
  engineStep st (setEyeBehavior setIndex b st).
Proof. apply E_setEyeBehavior; engine_frame. Qed.

Lemma engineStep_cycleBehavior setIndex st : engineStep st (cycleBehavior setIndex st).
Proof. apply E_cycleBehavior; engine_frame. Qed.

Lemma engineStep_evaluateSets now visibleSets l st :
  engineStep st (foldl (evaluateSet now visibleSets) st l).
Proof.
  apply R_foldl; [engine_frame | engine_frame |].
  intros s idx. apply E_evaluateSet; engine_frame.
Qed.

Lemma engineStep_runCallback cb st :
  isEvaluation cb = false -> engineStep st (runCallback cb st).
Proof. apply E_runCallback; engine_frame. Qed.

(** *** The chain under the operations of the director *)

Lemma directorChain_same st st' :
  d_enabled (directorState st') = d_enabled (directorState st) ->
  d_evaluationTimeoutId (directorState st') = d_evaluationTimeoutId (directorState st) ->
  evaluationTimers st' = evaluationTimers st ->
  directorChain st -> directorChain st'.
Proof. unfold directorChain. by intros -> -> ->. Qed.

Lemma directorInv_engine st st' :
  engineStep st st' ->
  d_enabled (directorState st') = d_enabled (directorState st) ->
  d_evaluationTimeoutId (directorState st') = d_evaluationTimeoutId (directorState st) ->
  directorInv st -> directorInv st'.
Proof.
  intros He Hon Hid [Hs Hc]. destruct (He Hs) as [Hs' Hev].
  split; [done | by apply (directorChain_same st)].
Qed.

Lemma directorInv_schedule st :
  timersSound st -> d_enabled (directorState st) = true -> evaluationTimers st = [] ->
  directorInv (scheduleDirectorEvaluation st).
Proof.
  intros (Hnd & Hp & Hh & Hi) Hon Hev.
  destruct (scheduleDirectorEvaluation_enabled st Hon)
    as (Ht & Hn & Hd & _ & Hinst & _).
  cbv zeta in Ht.
  set (st' := scheduleDirectorEvaluation st) in *.
  assert (pending st' = pending st ++ [nextHandle st]) as Hpend
    by (unfold pending; by rewrite Ht, fmap_app).
  assert (evaluationTimers st' = [nextHandle st]) as Hev'.
  { unfold evaluationTimers in *. rewrite Ht, filter_app, fmap_app, Hev. done. }
  split.
  - repeat split.
    + rewrite Hpend. apply NoDup_app. split; [done|]. split; [|apply NoDup_singleton].
      intros h Hin ->%list_elem_of_singleton. specialize (Hp _ Hin). lia.
    + intros h. rewrite Hpend, Hn, elem_of_app, list_elem_of_singleton.
      intros [Hin| ->]; [|lia]. specialize (Hp _ Hin). lia.
    + apply (handlesIssued_same st); [done | lia | done].
    + intros i s h. rewrite Hinst, Hev'. intros Hs Hin ->%list_elem_of_singleton.
      specialize (Hh i s _ Hs Hin). lia.
  - unfold directorChain. rewrite Hd. simpl. rewrite Hon. by exists (nextHandle st).
Qed.

Lemma directorInv_evaluateDirector st :
  timersSound st -> evaluationTimers st = [] -> directorInv (evaluateDirector st).
Proof.
  intros Hs Hev. unfold evaluateDirector.
  destruct (d_enabled (directorState st)) eqn:Hon; cbn [negb].
  2: { split; [done|]. unfold directorChain. by rewrite Hon. }
  cbv zeta. destruct (bool_decide _); [by apply directorInv_schedule|].
  destruct (_ <? _)%Z; [by apply directorInv_schedule|].
  destruct (engineStep_evaluateSets (clock st) (visibleSetsOf st) (visibleSetsOf st) st Hs)
    as [Hs' Hev'].
  apply directorInv_schedule; [done | | congruence].
  by destruct (evaluateSets_directorState (clock st) (visibleSetsOf st) (visibleSetsOf st) st)
    as [->| ->].
Qed.

Lemma directorInv_startDirector mode st :
  directorInv st -> directorInv (startDirector mode st).
Proof.
  intros [Hs Hc]. unfold startDirector.
  destruct (d_enabled (directorState st)) eqn:Hon; [done|]. cbv zeta.
  unfold directorChain in Hc. rewrite Hon in Hc.
  set (st1 := match lookupKey mode directorConfig.modes with
              | Some modeConfig => set_directorState (with_modeConfig modeConfig) _
              | None => _
              end).
  assert (timers st1 = timers st /\ nextHandle st1 = nextHandle st /\
          instances st1 = instances st /\ d_enabled (directorState st1) = true)
    as (Ht & Hn & Hi & Hon1).
  { unfold st1. by destruct (lookupKey mode directorConfig.modes). }
  apply directorInv_schedule; [by apply (timersSound_same st) | done |].
  unfold evaluationTimers in *. by rewrite Ht.
Qed.

Lemma directorInv_stopDirector st : directorInv st -> directorInv (stopDirector st).
Proof.
  intros [Hs Hc]. unfold stopDirector.
  destruct (d_enabled (directorState st)) eqn:Hon; cbn [negb]; [|done]. cbv zeta.
  unfold directorChain in Hc. rewrite Hon in Hc. destruct Hc as (h & Hid & Hev).
  simpl. rewrite Hid. split.
  - apply (timersSound_same (clearTimeout h st)); [done..|].
    by apply timersSound_clearTimeout.
  - unfold directorChain. simpl.
    change (evaluationTimers (clearTimeout h st) = []).
    rewrite evaluationTimers_clearTimeout, Hev, filter_cons. by case_decide.
Qed.

Lemma directorInv_with_mode mode st :
  directorInv st -> directorInv (set_directorState (with_mode mode) st).
Proof.
  intros [Hs Hc]. split; [by apply (timersSound_same st)|].
  by apply (directorChain_same st).
Qed.

Lemma directorInv_setDirectorMode mode st :
  directorInv st -> directorInv (setDirectorMode mode st).
Proof.
  intros Hinv. unfold setDirectorMode.
  destruct (lookupKey mode directorConfig.modes); [|done]. cbv zeta.
  destruct (d_enabled (directorState st)).
  - by apply directorInv_startDirector, directorInv_with_mode, directorInv_stopDirector.
  - by apply directorInv_with_mode.
Qed.

(** *** The chain when a timer fires *)

Lemma timerOf_Some st h t : timerOf st h = Some t -> t ∈ timers st /\ t_handle t = h.
Proof.
  unfold timerOf. intros Hhead.
  assert (t ∈ filter (fun t => t_handle t = h) (timers st)) as Hin.
  { destruct (filter _ (timers st)) as [|t0 q]; [done|].
    injection Hhead as ->. by left. }
  by apply list_elem_of_filter in Hin as [? ?].
Qed.

Lemma NoDup_fmap_eq {A B} (f : A -> B) (l : list A) x y :
  NoDup (f <$> l) -> x ∈ l -> y ∈ l -> f x = f y -> x = y.
Proof.
  induction l as [|a l IH]; [by intros _ ?%elem_of_nil|].
  rewrite fmap_cons, NoDup_cons. intros [Ha Hnd] Hx Hy Hf.
  apply elem_of_cons in Hx as [->|Hx]; apply elem_of_cons in Hy as [->|Hy];
    [done | | | by apply IH].
  - exfalso. apply Ha. rewrite Hf. by apply list_elem_of_fmap_2.
  - exfalso. apply Ha. rewrite <- Hf. by apply list_elem_of_fmap_2.
Qed.

Lemma runCallback_directorState cb st :
  isEvaluation cb = false -> directorState (runCallback cb st) = directorState st.
Proof.
  destruct cb; [| | |done]; intros _; simpl.
  - unfold executeAction. destruct (getEyeSet st setIndex) as [e|]; [|done].
    destruct (negb _); [done|]. by destruct (lookupAction _).
  - match goal with
    | |- context [executeScript ?i ?s st] =>
        destruct (touchesOnly_executeScript i s st) as [_ H];
        destruct (executeScript i s st)
    end.
    done.
  - apply completeScript_directorState.
Qed.

Lemma directorInv_fireTimer h st : directorInv st -> directorInv (fireTimer h st).
Proof.
  intros [Hs Hc]. unfold fireTimer.
  destruct (timerOf st h) as [t|] eqn:Ht; [|done]. cbv zeta.
  apply timerOf_Some in Ht as [Hin Hh].
  set (st1 := set_clock _ (clearTimeout h st)).
  assert (timersSound st1) as Hs1.
  { apply (timersSound_same (clearTimeout h st)); [done..|].
    by apply timersSound_clearTimeout. }
  assert (evaluationTimers st1 = filter (fun h' => h' ≠ h) (evaluationTimers st)) as Hev1
    by apply evaluationTimers_clearTimeout.
  destruct (isEvaluation (t_cb t)) eqn:Hcb.
  - assert (h ∈ evaluationTimers st) as Hhev.
    { unfold evaluationTimers. apply list_elem_of_fmap. exists t. split; [done|].
      by apply list_elem_of_filter. }
    assert (evaluationTimers st1 = []) as Hnone.
    { rewrite Hev1. unfold directorChain in Hc.
      destruct (d_enabled (directorState st)).
      - destruct Hc as (h0 & _ & Hev). rewrite Hev in *.
        apply list_elem_of_singleton in Hhev as ->.
        rewrite filter_cons. by case_decide.
      - by rewrite Hc. }
    destruct (t_cb t); try done. by apply directorInv_evaluateDirector.
  - assert (h ∉ evaluationTimers st) as Hhev.
    { unfold evaluationTimers. intros (t' & Hh' & Hin')%list_elem_of_fmap.
      apply list_elem_of_filter in Hin' as [Hev' Hin'].
      destruct Hs as (Hnd & _).
      assert (t = t') as <-
        by (apply (NoDup_fmap_eq t_handle (timers st)); [done..|congruence]).
      congruence. }
    rewrite (filter_ne_absent _ _ Hhev) in Hev1.
    apply (directorInv_engine st1).
    + by apply engineStep_runCallback.
    + by rewrite runCallback_directorState.
    + by rewrite runCallback_directorState.
    + split; [done|]. by apply (directorChain_same st).
Qed.

Lemma directorInv_step st st' : step st st' -> directorInv st -> directorInv st'.
Proof.
  destruct 1; intros Hinv.
  - destruct (loadScript_frame scriptId st) as (_ & _ & _ & _ & _ & Hd).
    apply (directorInv_engine st); [apply engineStep_loadScript | by rewrite Hd.. | done].
  - destruct (touchesOnly_executeScript setIndex scriptId st) as [_ Hd].
    apply (directorInv_engine st); [apply engineStep_executeScript | by rewrite Hd.. | done].
  - destruct (touchesOnly_stopScript setIndex st) as [_ Hd].
    apply (directorInv_engine st); [apply engineStep_stopScript | by rewrite Hd.. | done].
  - destruct (touchesOnly_setEyeBehavior setIndex b st) as [_ Hd].
    apply (directorInv_engine st); [apply engineStep_setEyeBehavior | by rewrite Hd.. | done].
  - destruct (touchesOnly_cycleBehavior setIndex st) as [_ Hd].
    apply (directorInv_engine st); [apply engineStep_cycleBehavior | by rewrite Hd.. | done].
  - by apply directorInv_startDirector.
  - by apply directorInv_stopDirector.
  - by apply directorInv_setDirectorMode.
  - by apply directorInv_fireTimer.
  - apply (directorInv_engine st); [by apply engineStep_other | done..].
  - apply (directorInv_engine st); [by apply engineStep_other | done..].
  - apply (directorInv_engine st); [by apply engineStep_other | done..].
Qed.

Lemma directorInv_later st st' : later st st' -> directorInv st -> directorInv st'.
Proof.
  induction 1 as [|st1 st2 st3 H12 _ IH]; [done|].
  intros Hinv. by apply IH, (directorInv_step st1).
Qed.

Lemma directorInv_start sets dir now rs : directorInv (startState sets dir now rs).
Proof.
  split; [|done]. repeat split.
  - apply NoDup_nil_2.
  - apply pendingIssued_start.
  - apply handlesIssued_start.
  - intros i s h. simpl. by rewrite lookup_empty.
Qed.

(** X23. The director's chain of evaluations never breaks and never
    doubles. From a page without timers, whatever is called in whatever
    order and whichever timers fire: while the director is enabled exactly
    one evaluation is pending, and it is the one whose handle the director
    recorded, so [stopDirector] cancels it; while the director is disabled no
    evaluation is pending. In particular no script instance ever cancels the
    director's evaluation when it clears its own timers. *)
Theorem director_chain_holds st st' :
  directorInv st -> later st st' ->
  (d_enabled (directorState st') = true ->
   exists h, d_evaluationTimeoutId (directorState st') = Some h /\
             evaluationTimers st' = [h]) /\
  (d_enabled (directorState st') = false -> evaluationTimers st' = []) /\
  (forall i s h, instances st' !! i = Some s -> h ∈ si_scheduledActions s ->
     h ∉ evaluationTimers st').
Proof.
  intros Hinv Hl. destruct (directorInv_later st st' Hl Hinv) as [(_ & _ & _ & Hi) Hc].
  unfold directorChain in Hc. split; [|split; [|done]].
  - intros Hon. by rewrite Hon in Hc.
  - intros Hoff. by rewrite Hoff in Hc.
Qed.

Lemma director_chain_holds_witness :
  let st' := fireTimer 1 (startDirector "active" Ex.page) in
  (d_enabled (directorState st') = true ->
   exists h, d_evaluationTimeoutId (directorState st') = Some h /\
             evaluationTimers st' = [h]) /\
  (d_enabled (directorState st') = false -> evaluationTimers st' = []) /\
  (forall i s h, instances st' !! i = Some s -> h ∈ si_scheduledActions s ->
     h ∉ evaluationTimers st').
Proof.
  apply (director_chain_holds Ex.page).
  - apply directorInv_start.
  - eapply rtc_l; [apply step_startDirector|].
    apply rtc_once, step_fire. vm_compute. by left.
Defined.

(** ** Interactions *)

Lemma foldl_scheduleOn_others {A} (job : A -> Callback * Q) instance (l : list A) p :
  p <> instance -> forall st,
  instances (foldl (fun st a => scheduleOn instance (job a).1 (job a).2 st) st l) !! p
  = instances st !! p.
Proof.
  intros Hp. induction l as [|a l IH]; intros st; [done|]. simpl. rewrite IH.
  unfold scheduleOn, updInstance. simpl. by rewrite lookup_alter_ne.
Qed.

Lemma executeScript_other_instances setIndex scriptId st p :
  p <> nextInstance st ->
  instances (executeScript setIndex scriptId st).2 !! p = instances st !! p.
Proof.
  intros Hp. unfold executeScript.
  destruct (getEyeSet st setIndex) as [eyeSet|]; [|done].
  destruct (negb _); [done|].
  pose proof (loadScript_instances scriptId st) as Hi.
  assert (nextInstance (loadScript scriptId st).2 = nextInstance st) as Hn.
  { destruct (loadScript_state scriptId st) as [->|(so & _ & _ & ->)]; done. }
  destruct (loadScript scriptId st) as [[so|] st1]; cbn [fst snd] in *;
    [|by rewrite Hi].
  rewrite <- Hi, <- Hn in *. clear Hi Hn.
  pose proof (startScript_jobs setIndex scriptId so st1) as Hj.
  destruct (startScript setIndex scriptId so st1) as [i st2]. cbn [fst snd].
  cbv zeta in Hj. injection Hj as -> ->.
  rewrite (foldl_scheduleOn_others id); [|done].
  unfold createInstance. simpl. by rewrite lookup_insert_ne.
Qed.

(** X28. When the timer of an interaction fires, the target eye set is
    handed to [executeScript] with the interaction's own script or, when it
    names none, the script of the parent, and the outcome is appended to the
    parent's [interactionInstances], also when nothing was started; the
    parent instance is otherwise as it was. A child that starts is a full
    script instance of its own: it schedules its own actions, its own
    completion and the interactions of its own script, with its own script as
    their fallback. *)
Theorem interaction_joins st parent s interaction scriptId :
  instances st !! parent = Some s ->
  (parent < nextInstance st)%nat ->
  let target := i_targetSet interaction in
  let targetScript := if truthyStr (i_scriptId interaction)
                      then default EmptyString (i_scriptId interaction) else scriptId in
  let st' := runCallback (CbInteraction parent interaction scriptId) st in
  instances st' !! parent
  = Some (push_interactionInstance (executeScript target targetScript st).1 s) /\
  (forall eyeSet so st1,
     getEyeSet st target = Some eyeSet -> es_visible eyeSet = true ->
     loadScript targetScript st = (Some so, st1) ->
     let child := nextInstance st in
     (executeScript target targetScript st).1 = Some child /\
     getEyeSet st' target = Some (mkEyeSet SCRIPTED (Some child) (clock st) true) /\
     timers st' = timers st
       ++ scheduledTimers (nextHandle st) (clock st)
            (scriptJobs target child targetScript so)) /\
  ((executeScript target targetScript st).1 = None ->
   timers st' = timers st /\ eyeSets st' = eyeSets st).
Proof.
  intros Hs Hlt target targetScript st'.
  assert (st' = updInstance parent
                  (push_interactionInstance (executeScript target targetScript st).1)
                  (executeScript target targetScript st).2) as ->.
  { unfold st', runCallback. fold targetScript. fold target.
    by destruct (executeScript target targetScript st). }
  split; [|split].
  - unfold updInstance. simpl. rewrite lookup_alter_eq.
    rewrite executeScript_other_instances by lia. by rewrite Hs.
  - intros eyeSet so st1 Hset Hvis Hload child.
    destruct (executeScript_result st target targetScript eyeSet so st1 Hset Hvis Hload)
      as (Hr & He & _ & Ht & _).
    split; [done|]. split; [|done]. exact He.
  - intros Hnone. unfold executeScript in *.
    destruct (getEyeSet st target) as [eyeSet|]; [|done].
    destruct (negb _); [done|].
    destruct (loadScript_frame targetScript st) as (_ & He & _ & Ht & _).
    destruct (loadScript targetScript st) as [[so|] st1]; cbn [fst snd] in *; [|done].
    by destruct (startScript target targetScript so st1).
Qed.

Lemma interaction_joins_witness :
  exists s,
  instances (fireTimer 1 withParent) !! 0%nat = Some s /\
  instances (runCallback (CbInteraction 0 (mkInteraction 1 0 None) "parent") (fireTimer 1 withParent))
    !! 0%nat
  = Some (push_interactionInstance
            (executeScript 1 "parent" (fireTimer 1 withParent)).1 s).
Proof.
  eexists. split; [vm_compute; reflexivity|].
  apply (interaction_joins (fireTimer 1 withParent) 0 _ (mkInteraction 1 0 None) "parent").
  - vm_compute. reflexivity.
  - vm_compute. lia.
Defined.

(** ** Test mode *)

Lemma pauseEyeSet_turn st eyeSetStates i :
  let st' := (pauseEyeSet (st, eyeSetStates) i).1 in
  let eyeSetStates' := (pauseEyeSet (st, eyeSetStates) i).2 in
  (forall j, j <> i -> getEyeSet st' j = getEyeSet st j) /\
  pausedFrom (getEyeSet st i) (getEyeSet st' i) /\
  directorState st' = directorState st /\
  (exists stored, eyeSetStates' = eyeSetStates ++ [stored] /\
                  storedFor (getEyeSet st i) (Some stored)).
Proof.
  unfold pauseEyeSet. destruct (getEyeSet st i) as [eyeSet|] eqn:Hset; cbn [fst snd].
  2: { rewrite Hset. repeat split; try done. by eexists. }
  set (st1 := if bool_decide (is_Some (es_currentScript eyeSet))
              then stopScript i st else st).
  assert (touchesOnly i st st1 /\
          exists e1, getEyeSet st1 i = Some e1 /\ es_currentScript e1 = None /\
                     es_visible e1 = es_visible eyeSet) as ([Ho1 Hd1] & e1 & He1 & Hc1 & Hv1).
  { unfold st1. case_bool_decide as Hcur.
    - split; [apply touchesOnly_stopScript|]. destruct Hcur as [instance Hcur].
      rewrite (stopScript_running st i eyeSet instance Hset Hcur).
      destruct (completeScript_eyeSet st i eyeSet instance Hset Hcur) as [-> _].
      by eexists.
    - split; [apply touchesOnly_refl|]. exists eyeSet. split; [done|]. split; [|done].
      destruct (es_currentScript eyeSet); [|done]. exfalso. apply Hcur. by eexists. }
  clearbody st1.
  set (st2 := stopEyeSetAnimations i st1).
  set (st3 := if bool_decide (es_behavior <$> getEyeSet st2 i = Some TRACKING)
              then stopEyeSetTracking i st2 else st2).
  assert (eyeSets st3 = eyeSets st1 /\ directorState st3 = directorState st1) as [He3 Hd3]
    by (unfold st3; by destruct (bool_decide _)).
  clearbody st3.
  assert (forall j, getEyeSet st3 j = getEyeSet st1 j) as Hg3
    by (intros j; unfold getEyeSet; by rewrite He3).
  split; [|split; [|split]].
  - intros j Hj. rewrite getEyeSet_updEyeSet, decide_False by done.
    by rewrite Hg3, Ho1.
  - simpl. exists (with_behavior AUTONOMOUS e1).
    rewrite (getEyeSet_updEyeSet_eq i _ st3 e1) by (by rewrite Hg3). done.
  - simpl. congruence.
  - eexists. split; [done|]. simpl. by eexists.
Qed.

Lemma pausedFrom_None after : pausedFrom None after <-> after = None.
Proof. done. Qed.

(** The loop of [enterTestMode] over distinct indices. *)
Lemma pauseEyeSets l : NoDup l -> forall st eyeSetStates,
  let st' := (foldl pauseEyeSet (st, eyeSetStates) l).1 in
  let eyeSetStates' := (foldl pauseEyeSet (st, eyeSetStates) l).2 in
  (forall j, j ∉ l -> getEyeSet st' j = getEyeSet st j) /\
  (forall j, j ∈ l -> pausedFrom (getEyeSet st j) (getEyeSet st' j)) /\
  directorState st' = directorState st /\
  length eyeSetStates' = (length eyeSetStates + length l)%nat /\
  (forall k, (k < length eyeSetStates)%nat -> eyeSetStates' !! k = eyeSetStates !! k) /\
  (forall k j, l !! k = Some j ->
     storedFor (getEyeSet st j) (eyeSetStates' !! (length eyeSetStates + k)%nat)).
Proof.
  induction 1 as [|i l Hi Hnd IH]; intros st eyeSetStates.
  - simpl. repeat split; try done; try lia. by intros j ?%elem_of_nil.
  - cbn [foldl].
    destruct (pauseEyeSet_turn st eyeSetStates i) as (Ho & Hp & Hd & stored & Hs & Hst).
    destruct (pauseEyeSet (st, eyeSetStates) i) as [st1 states1]. cbn [fst snd] in *.
    subst states1.
    destruct (IH st1 (eyeSetStates ++ [stored])) as (Ho' & Hp' & Hd' & Hl' & Hk' & Hst').
    cbv zeta in *. rewrite length_app in *. cbn [length] in *.
    split; [|split; [|split; [|split; [|split]]]].
    + intros j [Hj1 Hj2]%not_elem_of_cons. by rewrite Ho', Ho.
    + intros j [->|Hj]%elem_of_cons.
      * by rewrite Ho'.
      * assert (j <> i) as Hne by (by intros ->).
        rewrite <- (Ho j Hne). by apply Hp'.
    + congruence.
    + lia.
    + intros k Hk. rewrite Hk' by lia. by apply lookup_app_l.
    + intros [|k] j Hlk.
      * injection Hlk as <-. rewrite Nat.add_0_r, Hk' by lia.
        by rewrite list_lookup_middle.
      * simpl in Hlk.
        assert (j <> i) as Hne.
        { intros ->. apply Hi. by apply (list_elem_of_lookup_2 _ k). }
        rewrite <- (Ho j Hne).
        replace (length eyeSetStates + S k)%nat with (length eyeSetStates + 1 + k)%nat by lia.
        by apply Hst'.
Qed.

Lemma restoreEyeSet_turn st i originalState :
  let st' := restoreEyeSet st (i, originalState) in
  (forall j, j <> i -> getEyeSet st' j = getEyeSet st j) /\
  (getEyeSet st i = None -> getEyeSet st' i = None) /\
  (forall e, getEyeSet st i = Some e -> es_currentScript e = None ->
     exists e', getEyeSet st' i = Some e' /\
       es_behavior e' = restoreOf originalState (es_behavior e) /\
       es_currentScript e' = None /\ es_visible e' = es_visible e) /\
  directorState st' = directorState st.
Proof.
  unfold restoreEyeSet, restoreOf.
  destruct originalState as [o|]; [|by (repeat split; eauto)].
  destruct (getEyeSet st i) as [eyeSet|] eqn:Hset;
    [|repeat split; try done; by rewrite ?Hset].
  case_bool_decide as Hb; [|repeat split; try done; rewrite ?Hset; by eauto].
  destruct (touchesOnly_setEyeBehavior i (o_behavior o) st) as [Ho Hd].
  repeat split; try done.
  intros e [= <-] Hcur.
  destruct (setEyeBehavior_idle i (o_behavior o) st eyeSet Hset (or_intror Hcur))
    as (He' & _).
  eexists. split; [exact He'|]. done.
Qed.

(** The loop of [exitTestMode] over entries for distinct indices. *)
Lemma restoreEyeSets entries : NoDup entries.*1 -> forall st,
  let st' := foldl restoreEyeSet st entries in
  (forall j, getEyeSet st j = None -> getEyeSet st' j = None) /\
  (forall j e, getEyeSet st j = Some e -> es_currentScript e = None ->
     exists e', getEyeSet st' j = Some e' /\
       es_currentScript e' = None /\ es_visible e' = es_visible e /\
       (forall o, (j, o) ∈ entries -> es_behavior e' = restoreOf o (es_behavior e)) /\
       (j ∉ entries.*1 -> es_behavior e' = es_behavior e)) /\
  directorState st' = directorState st.
Proof.
  induction entries as [|[i o] entries IH]; intros Hnd st.
  - simpl. repeat split; try done. intros j e He Hc. exists e.
    repeat split; try done. by intros o' ?%elem_of_nil.
  - rewrite fmap_cons in Hnd. apply NoDup_cons in Hnd as [Hi Hnd]. cbn [fst] in Hi.
    cbn [foldl].
    destruct (restoreEyeSet_turn st i o) as (Ho & Hn & Hs & Hd).
    set (st1 := restoreEyeSet st (i, o)) in *. clearbody st1.
    destruct (IH Hnd st1) as (Hn' & Hs' & Hd'). cbv zeta in *.
    split; [|split; [|congruence]].
    + intros j Hj. apply Hn'. destruct (decide (j = i)) as [->|Hne]; [by apply Hn|].
      by rewrite Ho.
    + intros j e He Hc. destruct (decide (j = i)) as [->|Hne].
      * destruct (Hs e He Hc) as (e1 & He1 & Hb1 & Hc1 & Hv1).
        destruct (Hs' i e1 He1 Hc1) as (e' & He' & Hc' & Hv' & _ & Hb').
        exists e'. repeat split; try done; try congruence.
        -- intros o' [[= <-]|Hin]%elem_of_cons; [rewrite Hb'; done|].
           exfalso. apply Hi. apply list_elem_of_fmap. by exists (i, o').
        -- intros Hnot. exfalso. apply Hnot. rewrite fmap_cons. by left.
      * rewrite <- (Ho j Hne) in He.
        destruct (Hs' j e He Hc) as (e' & He' & Hc' & Hv' & Hin' & Hb').
        exists e'. repeat split; try done.
        -- intros o' [[= ? ?]|Hin]%elem_of_cons; [done | by apply Hin'].
        -- rewrite fmap_cons, not_elem_of_cons. intros [_ Hnot]. by apply Hb'.
Qed.

Lemma elem_of_zip_seq {A} (l : list A) j x :
  l !! j = Some x -> (j, x) ∈ zip (seq 0 (length l)) l.
Proof.
  intros Hj. apply (list_elem_of_lookup_2 _ j). rewrite lookup_zip_with.
  rewrite lookup_seq_lt by (by apply lookup_lt_Some in Hj). simpl. by rewrite Hj.
Qed.

(** [enterTestMode] from normal operation. *)
Lemma enterTestMode_inactive tm st :
  tm_isActive tm = false ->
  let tm' := (enterTestMode tm st).1 in
  let st' := (enterTestMode tm st).2 in
  tm_isActive tm' = true /\
  tm_directorEnabled tm' = d_enabled (directorState st) /\
  d_enabled (directorState st') = false /\
  d_mode (directorState st') = d_mode (directorState st) /\
  (forall j, pausedFrom (getEyeSet st j) (getEyeSet st' j)) /\
  length (tm_eyeSetStates tm') = length (eyeSets st) /\
  (forall j, (j < length (eyeSets st))%nat ->
     storedFor (getEyeSet st j) (tm_eyeSetStates tm' !! j)).
Proof.
  intros Hoff. unfold enterTestMode. rewrite Hoff. cbv zeta.
  set (st1 := if d_enabled (directorState st) then stopDirector st else st).
  assert (eyeSets st1 = eyeSets st /\ d_enabled (directorState st1) = false /\
          d_mode (directorState st1) = d_mode (directorState st)) as (He1 & Hd1 & Hm1).
  { unfold st1. destruct (d_enabled (directorState st)) eqn:Hon; [|done].
    destruct (stopDirector_enabled st Hon) as (-> & _ & -> & _). done. }
  clearbody st1.
  assert (forall j, getEyeSet st1 j = getEyeSet st j) as Hg1
    by (intros j; unfold getEyeSet; by rewrite He1).
  destruct (pauseEyeSets (seq 0 (length (eyeSets st1))) (NoDup_seq _ _) st1 [])
    as (Ho & Hp & Hd & Hl & _ & Hst).
  destruct (foldl pauseEyeSet (st1, []) (seq 0 (length (eyeSets st1))))
    as [st2 eyeSetStates]. cbn [fst snd] in *.
  rewrite length_seq, He1 in *. cbn [length] in Hl, Hst.
  split; [done|]. split; [done|]. split; [congruence|]. split; [congruence|].
  split; [|split; [done|]].
  - intros j. rewrite <- Hg1. destruct (decide (j < length (eyeSets st))%nat) as [Hlt|Hge].
    + apply Hp. apply elem_of_seq. lia.
    + rewrite Ho by (rewrite elem_of_seq; lia).
      assert (getEyeSet st1 j = None) as ->; [|done].
      rewrite Hg1. unfold getEyeSet. rewrite lookup_ge_None_2; [done | lia].
  - intros j Hj. rewrite <- Hg1. apply (Hst j j). by apply lookup_seq_lt.
Qed.

(** X24. [enterTestMode] pauses the page: it stops the director if it was
    enabled and remembers that, and for every eye set it stores the behavior,
    stops a running script, and leaves the eye set autonomous without a
    script, as visible as it was; an index without an eye set gets a hole in
    the stored states. In test mode already, it does nothing. *)
Theorem enterTestMode_pauses tm st :
  (tm_isActive tm = true -> enterTestMode tm st = (tm, st)) /\
  (tm_isActive tm = false ->
   let tm' := (enterTestMode tm st).1 in
   let st' := (enterTestMode tm st).2 in
   tm_isActive tm' = true /\
   tm_directorEnabled tm' = d_enabled (directorState st) /\
   d_enabled (directorState st') = false /\
   (forall j, pausedFrom (getEyeSet st j) (getEyeSet st' j)) /\
   length (tm_eyeSetStates tm') = length (eyeSets st) /\
   (forall j, (j < length (eyeSets st))%nat ->
      storedFor (getEyeSet st j) (tm_eyeSetStates tm' !! j))).
Proof.
  split.
  - intros Hon. unfold enterTestMode. by rewrite Hon.
  - intros Hoff. destruct (enterTestMode_inactive tm st Hoff) as (? & ? & ? & _ & ? & ? & ?).
    done.
Qed.

Lemma enterTestMode_pauses_witness :
  let tm := mkTestMode false false [] in
  let st := startDirector "active" withChild in
  let tm' := (enterTestMode tm st).1 in
  let st' := (enterTestMode tm st).2 in
  tm_isActive tm' = true /\
  tm_directorEnabled tm' = d_enabled (directorState st) /\
  d_enabled (directorState st') = false /\
  (forall j, pausedFrom (getEyeSet st j) (getEyeSet st' j)) /\
  length (tm_eyeSetStates tm') = length (eyeSets st) /\
  (forall j, (j < length (eyeSets st))%nat ->
     storedFor (getEyeSet st j) (tm_eyeSetStates tm' !! j)).
Proof.
  apply (enterTestMode_pauses (mkTestMode false false [])
           (startDirector "active" withChild)).
  reflexivity.
Defined.

(** X25. Test mode there and back: after [enterTestMode] and
    [exitTestMode] the director is enabled exactly if it was before, in the
    same mode; every eye set runs no script, is as visible as before, and has
    the behavior it had, except that an eye set that was scripted comes back
    autonomous: scripts that test mode stopped are not started again. The
    stored state is cleared. *)
Theorem testMode_round_trip tm st :
  tm_isActive tm = false ->
  let entered := enterTestMode tm st in
  let left := exitTestMode entered.1 entered.2 in
  left.1 = mkTestMode false false [] /\
  d_enabled (directorState left.2) = d_enabled (directorState st) /\
  d_mode (directorState left.2) = d_mode (directorState st) /\
  forall j,
    match getEyeSet st j with
    | None => getEyeSet left.2 j = None
    | Some eyeSet =>
        exists eyeSet', getEyeSet left.2 j = Some eyeSet' /\
          es_behavior eyeSet' = restoredBehavior (es_behavior eyeSet) /\
          es_currentScript eyeSet' = None /\
          es_visible eyeSet' = es_visible eyeSet
    end.
Proof.
  intros Hoff entered left.
  destruct (enterTestMode_inactive tm st Hoff) as (Hact & Hde & Hd1 & Hm1 & Hp & Hl & Hst).
  fold entered in Hact, Hde, Hd1, Hm1, Hp, Hl, Hst. cbv zeta in *.
  destruct entered as [tm1 st1]. cbn [fst snd] in *.
  unfold left, exitTestMode. rewrite Hact. cbn [negb]. cbv zeta. cbn [fst snd].
  set (st2 := if tm_directorEnabled tm1
              then startDirector (d_mode (directorState st1)) st1 else st1).
  assert (eyeSets st2 = eyeSets st1 /\
          d_enabled (directorState st2) = d_enabled (directorState st) /\
          d_mode (directorState st2) = d_mode (directorState st)) as (He2 & Hd2 & Hm2).
  { unfold st2. rewrite Hde. destruct (d_enabled (directorState st)); [|done].
    destruct (startDirector_disabled (d_mode (directorState st1)) st1 Hd1)
      as (-> & -> & _ & _ & _ & _ & _ & _ & ->). done. }
  clearbody st2.
  assert (forall j, getEyeSet st2 j = getEyeSet st1 j) as Hg2
    by (intros j; unfold getEyeSet; by rewrite He2).
  destruct (restoreEyeSets (zip (seq 0 (length (tm_eyeSetStates tm1))) (tm_eyeSetStates tm1)))
    with (st := st2) as (Hn & Hs & Hd).
  { rewrite fst_zip by (by rewrite length_seq). apply NoDup_seq. }
  cbv zeta in *. split; [done|]. split; [congruence|]. split; [congruence|].
  intros j. specialize (Hp j). unfold pausedFrom in Hp.
  destruct (getEyeSet st j) as [eyeSet|] eqn:Hset.
  - destruct Hp as (e1 & He1 & Hb1 & Hc1 & Hv1). rewrite <- Hg2 in He1.
    destruct (Hs j e1 He1 Hc1) as (e' & He' & Hc' & Hv' & Hin & _).
    exists e'. repeat split; try done; [|congruence].
    assert (j < length (eyeSets st))%nat as Hlt.
    { apply lookup_lt_is_Some. unfold getEyeSet in Hset.
      destruct (eyeSets st !! j); [by eexists | done]. }
    specialize (Hst j Hlt). rewrite Hset in Hst. destruct Hst as (o & Ho & Hob).
    rewrite (Hin (Some o) (elem_of_zip_seq _ _ _ Ho)), Hb1. simpl. rewrite Hob.
    by destruct (es_behavior eyeSet).
  - apply Hn. by rewrite Hg2.
Qed.

Lemma testMode_round_trip_witness :
  let entered := enterTestMode (mkTestMode false false [])
                   (startDirector "active" withChild) in
  let left := exitTestMode entered.1 entered.2 in
  left.1 = mkTestMode false false [] /\
  d_enabled (directorState left.2)
  = d_enabled (directorState (startDirector "active" withChild)) /\
  d_mode (directorState left.2)
  = d_mode (directorState (startDirector "active" withChild)) /\
  forall j,
    match getEyeSet (startDirector "active" withChild) j with
    | None => getEyeSet left.2 j = None
    | Some eyeSet =>
        exists eyeSet', getEyeSet left.2 j = Some eyeSet' /\
          es_behavior eyeSet' = restoredBehavior (es_behavior eyeSet) /\
          es_currentScript eyeSet' = None /\
          es_visible eyeSet' = es_visible eyeSet
    end.
Proof.
  apply (testMode_round_trip (mkTestMode false false [])
           (startDirector "active" withChild)).
  reflexivity.
Defined.

(** ** Notification presets *)

(** X26. The notification presets form a cycle of four. Whatever the three
    switches are, custom combinations included, [getNotificationPreset]
    answers 0 to 3, [cycleNotificationPreset] returns the number after it
    (3 is followed by 0) and leaves settings for which
    [getNotificationPreset] answers the number returned; the settings it
    leaves come back after four more calls. *)
Theorem cycleNotificationPreset_cycles settings :
  let next := (cycleNotificationPreset settings).1 in
  let settings' := (cycleNotificationPreset settings).2 in
  let again s := (cycleNotificationPreset s).2 in
  (getNotificationPreset settings < 4)%nat /\
  next = ((getNotificationPreset settings + 1) mod 4)%nat /\
  getNotificationPreset settings' = next /\
  again (again (again (again settings'))) = settings'.
Proof. destruct settings as [[|] [|] [|]]; vm_compute; repeat split; lia. Qed.

(** ** Scale, gap and volume *)

Lemma clamp_bounds lo hi x : lo <= hi -> lo <= Qmax lo (Qmin x hi) /\ Qmax lo (Qmin x hi) <= hi.
Proof.
  intros Hlh. split; [apply Q.le_max_l|].
  apply Q.max_lub; [done | apply Q.le_min_r].
Qed.

Lemma clamp_inside lo hi x : lo <= x -> x <= hi -> Qmax lo (Qmin x hi) == x.
Proof. intros Hl Hh. rewrite (Q.min_l _ _ Hh). by apply Q.max_r. Qed.

(** X27. The actions cannot take an eye set out of range. Whatever number a
    script gives, [actionSetScale] writes a scale between [minScale] and
    [maxScale] and [actionSetGap] a gap between [minGap] and [maxGap], and a
    value inside the range is written as it is; [actionPlaySound] sets a
    volume between 0 and 1. [actionWiden] and [actionSquint] go through the
    same limits, so no intensity makes the scale zero or negative; for an
    intensity between 0 and 1 they write [1 + intensity / 2], at most 1.5,
    and [1 - 0.3 * intensity], at least 0.7. *)
Theorem actions_stay_in_range (x : Q) (intensity volume : option Q) :
  (minScale <= actionSetScale x /\ actionSetScale x <= maxScale) /\
  (minGap <= actionSetGap x /\ actionSetGap x <= maxGap) /\
  (minScale <= x -> x <= maxScale -> actionSetScale x == x) /\
  (minGap <= x -> x <= maxGap -> actionSetGap x == x) /\
  (0 <= actionPlaySound volume /\ actionPlaySound volume <= 1) /\
  (minScale <= actionWiden intensity /\ actionWiden intensity <= maxScale) /\
  (minScale <= actionSquint intensity /\ actionSquint intensity <= maxScale) /\
  (forall i, intensity = Some i -> 0 <= i -> i <= 1 ->
     actionWiden intensity == 1 + i * (5 # 10) /\ actionWiden intensity <= 15 # 10 /\
     actionSquint intensity == 1 - i * (3 # 10) /\ 7 # 10 <= actionSquint intensity).
Proof.
  unfold actionWiden, actionSquint, actionSetScale, actionSetGap, actionPlaySound.
  repeat split; try (apply clamp_bounds; discriminate);
    try (by apply clamp_inside).
  all: intros; subst intensity; cbn [default from_option id]; unfold minScale, maxScale.
  - apply clamp_inside; lra.
  - rewrite clamp_inside; lra.
  - apply clamp_inside; lra.
  - rewrite clamp_inside; lra.
Qed.

Lemma actions_stay_in_range_witness :
  actionWiden (Some 1) == 15 # 10 /\ actionSquint (Some 1) == 7 # 10.
Proof.
  destruct (actions_stay_in_range 1 (Some 1) None)
    as (_ & _ & _ & _ & _ & _ & _ & H).
  destruct (H 1 eq_refl) as (Hw & _ & Hs & _); [discriminate | discriminate |].
  split; [by rewrite Hw | by rewrite Hs].
Defined.
